(** * Shell-command execution subsystem: gate, credential cache, executors

    A shallow embedding of the shell tool ([ShellTool]: [getCommandRoot],
    [isCommandAllowed], [validateToolParams], [shouldConfirmExecute],
    [execute]), of the sudo credential context ([SudoProvider]) and of the
    interactive shell processor ([executeShellCommand]), followed by the
    properties established about them.

    JavaScript strings are sequences of UTF-16 code units; they are modelled
    as [list N].  Library and operating-system collaborators that are not
    part of the sources ([stripAnsi], [Buffer.toString], [StringDecoder],
    [isBinary], [formatMemoryUsage], the schema validator, [path], [fs]) are
    taken as parameters, bundled in records. *)

From Stdlib Require Import List NArith ZArith Bool Lia String Ascii.
From Stdlib Require Import DecimalString.
Import ListNotations.

(* ================================================================== *)
(** ** JavaScript string primitives *)
(* ================================================================== *)

Module JS.

(** A string is a list of UTF-16 code units. *)
Definition jsstring := list N.

(** An ASCII literal as a JavaScript string. *)
Definition str (s : string) : jsstring :=
  List.map N_of_ascii (list_ascii_of_string s).

Definition SPACE : N := 32%N.

(** The code units matched by [\s] and removed by [String.prototype.trim]
    (ECMAScript WhiteSpace and LineTerminator). *)
Definition isWhiteSpace (c : N) : bool :=
  ((9 <=? c) && (c <=? 13) || (c =? 32) || (c =? 160) || (c =? 5760)
   || (8192 <=? c) && (c <=? 8202) || (c =? 8232) || (c =? 8233)
   || (c =? 8239) || (c =? 8287) || (c =? 12288) || (c =? 65279))%N.

Fixpoint eqb (a b : jsstring) : bool :=
  match a, b with
  | [], [] => true
  | x :: a', y :: b' => N.eqb x y && eqb a' b'
  | _, _ => false
  end.

(** [s.startsWith(p)] *)
Fixpoint startsWith (s p : jsstring) {struct p} : bool :=
  match p with
  | [] => true
  | y :: p' =>
      match s with
      | [] => false
      | x :: s' => N.eqb x y && startsWith s' p'
      end
  end.

(** [s.endsWith(p)] *)
Definition endsWith (s p : jsstring) : bool :=
  startsWith (rev s) (rev p).

(** [s.includes(p)] *)
Fixpoint includes (s p : jsstring) : bool :=
  startsWith s p ||
  match s with
  | [] => false
  | _ :: s' => includes s' p
  end.

(** [arr.includes(x)] on an array of strings. *)
Definition arrayIncludes (arr : list jsstring) (x : jsstring) : bool :=
  existsb (fun y => eqb y x) arr.

Fixpoint dropWhile (f : N -> bool) (s : jsstring) : jsstring :=
  match s with
  | [] => []
  | c :: s' => if f c then dropWhile f s' else s
  end.

Fixpoint takeWhile (f : N -> bool) (s : jsstring) : jsstring :=
  match s with
  | [] => []
  | c :: s' => if f c then c :: takeWhile f s' else []
  end.

Definition trimStart (s : jsstring) : jsstring := dropWhile isWhiteSpace s.
Definition trimEnd (s : jsstring) : jsstring :=
  rev (dropWhile isWhiteSpace (rev s)).

(** [s.trim()] *)
Definition trim (s : jsstring) : jsstring := trimEnd (trimStart s).

(** [s.replace(/\s+/g, ' ')]: [inRun] tells that the previous code unit
    belonged to the whitespace run being replaced. *)
Fixpoint collapseFrom (inRun : bool) (s : jsstring) : jsstring :=
  match s with
  | [] => []
  | c :: s' =>
      if isWhiteSpace c
      then (if inRun then collapseFrom true s'
            else SPACE :: collapseFrom true s')
      else c :: collapseFrom false s'
  end.

Definition collapseWhiteSpace (s : jsstring) : jsstring :=
  collapseFrom false s.

(** [s.replace(/[...]/g, '')] for a character class [cls]. *)
Definition removeAll (cls : N -> bool) (s : jsstring) : jsstring :=
  filter (fun c => negb (cls c)) s.

(** [s.replace(/c/g, rep)] for a single code unit [c]; [rep] holds no
    [$] pattern. *)
Definition replaceAllChar (c : N) (rep : jsstring) (s : jsstring)
  : jsstring :=
  flat_map (fun x => if N.eqb x c then rep else [x]) s.

(** [s.replace(pat, rep)] with a string pattern: the first occurrence
    only; [rep] holds no [$] pattern. *)
Fixpoint replaceFirst (pat rep : jsstring) (s : jsstring) : jsstring :=
  if startsWith s pat then rep ++ skipn (List.length pat) s
  else match s with
       | [] => []
       | c :: s' => c :: replaceFirst pat rep s'
       end.

(** The replacement text of [s.replace(pat, rep)] for a string pattern:
    [$$] stands for [$], [$&] for the matched text, [$`] for the text
    before the match and [$'] for the text after it; a string pattern
    captures nothing, so every other [$] stays as it is. *)
Fixpoint getSubstitution (matched before after rep : jsstring)
  : jsstring :=
  match rep with
  | [] => []
  | c :: rest =>
      if (c =? 36)%N then
        match rest with
        | d :: rest' =>
            if (d =? 36)%N
            then 36%N :: getSubstitution matched before after rest'
            else if (d =? 38)%N
            then matched ++ getSubstitution matched before after rest'
            else if (d =? 96)%N
            then before ++ getSubstitution matched before after rest'
            else if (d =? 39)%N
            then after ++ getSubstitution matched before after rest'
            else c :: getSubstitution matched before after rest
        | [] => [c]
        end
      else c :: getSubstitution matched before after rest
  end.

(** [s.replace(pat, rep)] with a string pattern: the first occurrence
    only, the [$] patterns of [rep] expanded; [before] is what has been
    passed over. *)
Fixpoint replaceFirstFrom (before pat rep s : jsstring) : jsstring :=
  if startsWith s pat
  then before
         ++ getSubstitution pat before (skipn (List.length pat) s) rep
         ++ skipn (List.length pat) s
  else match s with
       | [] => before
       | c :: s' => replaceFirstFrom (before ++ [c]) pat rep s'
       end.

Definition replaceWithPatterns (pat rep s : jsstring) : jsstring :=
  replaceFirstFrom [] pat rep s.

(** [s.split(c)] for a separator of one code unit. *)
Fixpoint splitOn (c : N) (s : jsstring) : list jsstring :=
  match s with
  | [] => [[]]
  | x :: s' =>
      if (x =? c)%N then [] :: splitOn c s'
      else match splitOn c s' with
           | [] => [[x]]
           | piece :: pieces => (x :: piece) :: pieces
           end
  end.

(** [s.slice(start, -1)] *)
Definition sliceToLast (start : nat) (s : jsstring) : jsstring :=
  removelast (skipn start s).

(** [s.charAt-style indexing: s[i] === c]; out of range is [undefined]. *)
Definition charAtIs (s : jsstring) (i : nat) (c : N) : bool :=
  match nth_error s i with
  | Some x => N.eqb x c
  | None => false
  end.

(** Truthiness of a string: the empty string is falsy. *)
Definition truthy (s : jsstring) : bool :=
  match s with [] => false | _ => true end.

(** [strs.join(sep)] *)
Fixpoint join (sep : jsstring) (strs : list jsstring) : jsstring :=
  match strs with
  | [] => []
  | [s] => s
  | s :: rest => s ++ sep ++ join sep rest
  end.

End JS.

Import JS.

Declare Scope js_scope.
Delimit Scope js_scope with js.
Notation "'#' s" := (JS.str s) (at level 1, format "'#' s") : js_scope.
Open Scope js_scope.

(* ================================================================== *)
(** ** The shell tool: data model *)
(* ================================================================== *)

(** Raw bytes of a [Buffer]. *)
Definition Buffer := list N.

(** [Buffer.concat(chunks)] *)
Definition bufferConcat (chunks : list Buffer) : Buffer :=
  List.concat chunks.

Record ShellToolParams := {
  command : jsstring;
  description : option jsstring;
  directory : option jsstring
}.

(** The configuration collaborator, as far as the tool reads it. *)
Record Config := {
  getCoreTools : option (list jsstring);
  getExcludeTools : option (list jsstring);
  getTargetDir : jsstring;
  getDebugMode : bool
}.

(** The mutable fields of a [ShellTool] instance. *)
Record ShellToolState := {
  whitelist : list jsstring;
  sudoPassword : option jsstring;
  sudoPasswordTimestamp : option Z
}.

Record ToolResult := {
  llmContent : jsstring;
  returnDisplay : jsstring
}.

(** An [Error] object, reduced to its message. *)
Record JsError := { message : jsstring }.

(** Modelled from the spec: the enumeration [ToolConfirmationOutcome] is
    declared outside the sources; the spec names the three outcomes of the
    exec-approval prompt (allow once, allow always, cancel). *)
Inductive ToolConfirmationOutcome :=
| ProceedOnce
| ProceedAlways
| Cancel.

(** [ToolCallConfirmationDetails], for the two variants the shell tool
    builds.  [onConfirm] is the continuation stored in the details; it
    mutates the tool instance, so it is a state transformer (the password
    continuation also reads the clock). *)
Inductive ToolCallConfirmationDetails :=
| PasswordConfirmation
    (title rootCommand : jsstring)
    (onConfirm : jsstring -> Z -> ShellToolState -> ShellToolState)
| ExecConfirmation
    (title command rootCommand : jsstring)
    (onConfirm : ToolConfirmationOutcome -> ShellToolState -> ShellToolState).

(** Collaborators of the shell tool outside the sources. *)
(** A number as [Number(text)] gives it: an integer, or a value that is
    none (NaN, an infinity, a fraction), kept with the text [String]
    gives for it. *)
Inductive JsNumber :=
| Integer (value : Z)
| NotInteger (shown : jsstring).

Record Host := {
  platformIsWin32 : bool;                      (* os.platform() === 'win32' *)
  schemaValidate : ShellToolParams -> bool;    (* SchemaValidator.validate *)
  pathIsAbsolute : jsstring -> bool;           (* path.isAbsolute *)
  pathResolve : jsstring -> jsstring -> jsstring;  (* path.resolve *)
  fsExistsSync : jsstring -> bool;             (* fs.existsSync *)
  stripAnsi : jsstring -> jsstring;            (* strip-ansi *)
  bufferToString : Buffer -> jsstring;         (* Buffer.prototype.toString *)
  numberToString : Z -> jsstring;              (* template-literal number *)
  stringToNumber : jsstring -> JsNumber;       (* Number(text) *)
  errorToString : JsError -> jsstring;         (* template-literal Error *)
  getErrorMessage : JsError -> jsstring        (* utils/errors.js *)
}.

(* ================================================================== *)
(** ** The shell tool: command gate *)
(* ================================================================== *)

Module ShellTool.

Definition OUTPUT_UPDATE_INTERVAL_MS : Z := 1000.

(** [static Name] and the class name [ShellTool.name]. *)
Definition Name : jsstring := #"run_shell_command".
Definition name : jsstring := #"ShellTool".

Definition SUDO_CACHE_DURATION_MS : Z := 15 * 60 * 1000.

Definition AMP : N := 38.    (* & *)
Definition BAR : N := 124.   (* | *)
Definition SEMI : N := 59.   (* ; *)

(** [command.trim().replace(/[{}()]/g, '').split(/[\s;&|]+/)[0]
      ?.split(/[/\\]/).pop()] *)
Definition isGrouping (c : N) : bool :=
  ((c =? 123) || (c =? 125) || (c =? 40) || (c =? 41))%N.
Definition isTokenBreak (c : N) : bool :=
  (isWhiteSpace c || (c =? SEMI) || (c =? AMP) || (c =? BAR))%N.
Definition isPathSep (c : N) : bool := ((c =? 47) || (c =? 92))%N.

Definition firstToken (s : jsstring) : jsstring :=
  takeWhile (fun c => negb (isTokenBreak c)) s.
Definition lastPathSegment (s : jsstring) : jsstring :=
  rev (takeWhile (fun c => negb (isPathSep c)) (rev s)).

Definition getCommandRoot (command : jsstring) : jsstring :=
  lastPathSegment (firstToken (removeAll isGrouping (trim command))).

Definition SHELL_TOOL_NAMES : list jsstring := [name; Name].

(** [cmd.trim().replace(/\s+/g, ' ')] *)
Definition normalize (cmd : jsstring) : jsstring :=
  collapseWhiteSpace (trim cmd).

Definition isPrefixedBy (cmd prefix : jsstring) : bool :=
  if negb (startsWith cmd prefix) then false
  else Nat.eqb (List.length cmd) (List.length prefix)
       || charAtIs cmd (List.length prefix) SPACE.

(** The body of the [flatMap] callback: the first tool name whose
    [name(...)] shape the entry has decides. *)
Fixpoint extractCommand (names : list jsstring) (tool : jsstring)
  : list jsstring :=
  match names with
  | [] => []
  | toolName :: rest =>
      if startsWith tool (toolName ++ #"(") && endsWith tool #")"
      then [normalize (sliceToLast (List.length toolName + 1) tool)]
      else extractCommand rest tool
  end.

Definition extractCommands (tools : list jsstring) : list jsstring :=
  flat_map (extractCommand SHELL_TOOL_NAMES) tools.

(** [new Set(array)]: insertion order, duplicates dropped. *)
Fixpoint newSet (seen : list jsstring) (arr : list jsstring)
  : list jsstring :=
  match arr with
  | [] => []
  | x :: rest =>
      if arrayIncludes seen x then newSet seen rest
      else x :: newSet (x :: seen) rest
  end.

Definition consHead (c : N) (pieces : list jsstring) : list jsstring :=
  match pieces with
  | [] => [[c]]
  | p :: rest => (c :: p) :: rest
  end.

(** [command.split(/&&|\|\||\||;/)]: the alternatives are tried in
    order at each position, leftmost match first. *)
Fixpoint splitCommands (s : jsstring) : list jsstring :=
  match s with
  | [] => [[]]
  | c :: r =>
      match r with
      | d :: r' =>
          if (c =? AMP)%N && (d =? AMP)%N then [] :: splitCommands r'
          else if (c =? BAR)%N && (d =? BAR)%N then [] :: splitCommands r'
          else if (c =? BAR)%N then [] :: splitCommands r
          else if (c =? SEMI)%N then [] :: splitCommands r
          else consHead c (splitCommands r)
      | [] =>
          if (c =? BAR)%N then [] :: splitCommands r
          else if (c =? SEMI)%N then [] :: splitCommands r
          else consHead c (splitCommands r)
      end
  end.

Definition orEmpty (arr : option (list jsstring)) : list jsstring :=
  match arr with Some a => a | None => [] end.

(** The loop over [commandsToValidate]. *)
Fixpoint validateCommands (blockedCommands allowedCommands : list jsstring)
         (isStrictAllowlist : bool) (cmds : list jsstring) : bool :=
  match cmds with
  | [] => true
  | cmd :: rest =>
      let isBlocked :=
        existsb (fun blocked => isPrefixedBy cmd blocked) blockedCommands in
      if isBlocked then false
      else if isStrictAllowlist
              && negb (existsb (fun allowed => isPrefixedBy cmd allowed)
                               allowedCommands)
      then false
      else validateCommands blockedCommands allowedCommands
                            isStrictAllowlist rest
  end.

Definition isCommandAllowed (config : Config) (command : jsstring) : bool :=
  if includes command #"$(" || includes command #"`" then false
  else
    let coreTools := orEmpty (getCoreTools config) in
    let excludeTools := orEmpty (getExcludeTools config) in
    if existsb (fun name => arrayIncludes excludeTools name) SHELL_TOOL_NAMES
    then false
    else
      let blockedCommands := newSet [] (extractCommands excludeTools) in
      let allowedCommands := newSet [] (extractCommands coreTools) in
      let hasSpecificAllowedCommands :=
        negb (Nat.eqb (List.length allowedCommands) 0) in
      let isWildcardAllowed :=
        existsb (fun name => arrayIncludes coreTools name) SHELL_TOOL_NAMES in
      let commandsToValidate := List.map normalize (splitCommands command) in
      validateCommands blockedCommands allowedCommands
        (hasSpecificAllowedCommands && negb isWildcardAllowed)
        commandsToValidate.

Definition NL : jsstring := [10%N].

Definition truthyOpt (s : option jsstring) : bool :=
  match s with Some x => truthy x | None => false end.

(** [null] is [None]; otherwise the error text. *)
Definition validateToolParams (host : Host) (config : Config)
           (params : ShellToolParams) : option jsstring :=
  if negb (isCommandAllowed config (command params))
  then Some (#"Command is not allowed: " ++ command params)
  else if negb (schemaValidate host params)
  then Some #"Parameters failed schema validation."
  else if negb (truthy (trim (command params)))
  then Some #"Command cannot be empty."
  else if negb (truthy (getCommandRoot (command params)))
  then Some #"Could not identify command root to obtain permission from user."
  else
    match directory params with
    | Some dir =>
        if truthy dir then
          if pathIsAbsolute host dir
          then Some #"Directory cannot be absolute. Must be relative to the project root directory."
          else if negb (fsExistsSync host
                          (pathResolve host (getTargetDir config) dir))
          then Some #"Directory must exist."
          else None
        else None
    | None => None
    end.

(* ---------------------------------------------------------------- *)
(** *** Confirmation *)

(** [this.sudoPassword && this.sudoPasswordTimestamp &&
     Date.now() - this.sudoPasswordTimestamp < this.SUDO_CACHE_DURATION_MS],
    as a truth value: the empty string and the number 0 are falsy. *)
Definition isPasswordCached (self : ShellToolState) (now : Z) : bool :=
  match sudoPassword self with
  | Some password =>
      truthy password &&
      match sudoPasswordTimestamp self with
      | Some timestamp =>
          negb (timestamp =? 0)%Z
          && (now - timestamp <? SUDO_CACHE_DURATION_MS)%Z
      | None => false
      end
  | None => false
  end.

(** The password continuation: [this.sudoPassword = password;
    this.sudoPasswordTimestamp = Date.now()]. *)
Definition passwordOnConfirm (password : jsstring) (now : Z)
           (self : ShellToolState) : ShellToolState :=
  {| whitelist := whitelist self;
     sudoPassword := Some password;
     sudoPasswordTimestamp := Some now |}.

(** [set.add(x)] *)
Definition setAdd (s : list jsstring) (x : jsstring) : list jsstring :=
  if arrayIncludes s x then s else s ++ [x].

Definition execOnConfirm (rootCommand : jsstring)
           (outcome : ToolConfirmationOutcome) (self : ShellToolState)
  : ShellToolState :=
  match outcome with
  | ProceedAlways =>
      {| whitelist := setAdd (whitelist self) rootCommand;
         sudoPassword := sudoPassword self;
         sudoPasswordTimestamp := sudoPasswordTimestamp self |}
  | _ => self
  end.

(** [None] is the [false] the method returns when no confirmation is
    needed (or the parameters are invalid). *)
Definition shouldConfirmExecute (host : Host) (config : Config)
           (self : ShellToolState) (params : ShellToolParams) (now : Z)
  : option ToolCallConfirmationDetails :=
  match validateToolParams host config params with
  | Some _ => None
  | None =>
      let rootCommand := getCommandRoot (command params) in
      let isSudo := startsWith (trim (command params)) #"sudo " in
      let isWindows := platformIsWin32 host in
      if isSudo && negb isWindows && negb (isPasswordCached self now)
      then Some (PasswordConfirmation #"Sudo Password Required" #"sudo"
                                      passwordOnConfirm)
      else if arrayIncludes (whitelist self) rootCommand then None
      else Some (ExecConfirmation #"Confirm Shell Command" (command params)
                                  rootCommand (execOnConfirm rootCommand))
  end.

(* ---------------------------------------------------------------- *)
(** *** Execution: preparation and spawn *)

Definition QUOTE : N := 39.   (* ' *)

(** [echo '<escaped>' | <command with sudo -S -->] *)
Definition wrapSudo (password userCommand : jsstring) : jsstring :=
  let escapedPassword := replaceAllChar QUOTE #"'\''" password in
  #"echo '" ++ escapedPassword ++ #"' | "
    ++ replaceFirst #"sudo" #"sudo -S --" userCommand.

(** The pgrep wrapper of the POSIX branch. *)
Definition pgrepWrap (commandToExecute tempFilePath : jsstring) : jsstring :=
  let cmd :=
    if negb (endsWith (trim commandToExecute) #"&")
    then commandToExecute ++ #";" else commandToExecute in
  #"{ " ++ cmd ++ #" }; __code=$?; pgrep -g 0 >" ++ tempFilePath
    ++ #" 2>&1; exit $__code;".

(** What [execute] does before it starts listening: either it returns at
    once, or it calls [spawn(file, args, options)]. *)
Inductive ExecuteStart :=
| Returned (result : ToolResult)
| Spawned (file : jsstring) (args : list jsstring).

Definition executeStart (host : Host) (config : Config)
           (self : ShellToolState) (params : ShellToolParams)
           (abortedAtStart : bool) (now : Z) (tempFilePath : jsstring)
  : ExecuteStart :=
  match validateToolParams host config params with
  | Some validationError =>
      Returned
        {| llmContent := #"Command rejected: " ++ command params ++ NL
                           ++ #"Reason: " ++ validationError;
           returnDisplay := #"Error: " ++ validationError |}
  | None =>
      if abortedAtStart then
        Returned
          {| llmContent :=
               #"Command was cancelled by user before it could start.";
             returnDisplay := #"Command cancelled by user." |}
      else
        let isWindows := platformIsWin32 host in
        let isSudoCommand :=
          negb isWindows && startsWith (trim (command params)) #"sudo " in
        let prepared : option jsstring :=
          if isSudoCommand then
            if negb (isPasswordCached self now) then None
            else
              match sudoPassword self with
              | Some password =>
                  Some (wrapSudo password (trim (command params)))
              | None => None
              end
          else Some (command params) in
        match prepared with
        | None =>
            Returned
              {| llmContent := #"Sudo command rejected: password has not been provided or has expired.";
                 returnDisplay := #"Error: Sudo password required." |}
        | Some commandToExecute =>
            if isWindows
            then Spawned #"cmd.exe" [#"/c"; commandToExecute]
            else Spawned #"bash"
                         [#"-c"; pgrepWrap commandToExecute tempFilePath]
        end
  end.

End ShellTool.

(* ================================================================== *)
(** ** The shell tool: the run after [spawn] *)
(* ================================================================== *)

Inductive Signal := SIGTERM | SIGKILL.

(** What the abort handlers ask of the operating system. *)
Inductive KillAction :=
| GroupKill (pid : Z) (sig : Signal)     (* process.kill(-pid, sig) *)
| ChildKill (sig : Signal)               (* child.kill(sig) *)
| TaskKill (pid : Z).                    (* spawn('taskkill', [... pid ...]) *)

(** [child.pid] as a truth value. *)
Definition pidTruthy (pid : option Z) : option Z :=
  match pid with
  | Some p => if (p =? 0)%Z then None else Some p
  | None => None
  end.

Module ShellToolExecute.
Import ShellTool.

(** What is fixed once [spawn] has been called. *)
Record Spawn := {
  host : Host;
  config : Config;
  params : ShellToolParams;
  spawnedCommand : jsstring;         (* the [command] handed to the shell *)
  pid : option Z;                    (* shell.pid *)
  hasUpdateOutput : bool             (* the optional [updateOutput] *)
}.

(** The variables the listeners close over, the tool instance, and what
    the run has produced so far. *)
Record Run := {
  self : ShellToolState;
  exited : bool;
  stdout : jsstring;
  output : jsstring;
  lastUpdateTime : Z;
  stderr : jsstring;
  error : option JsError;
  code : option Z;
  processSignal : option jsstring;
  aborted : bool;                    (* abortSignal.aborted *)
  graceArmed : bool;                 (* the 200 ms timer is pending *)
  updates : list jsstring;           (* updateOutput calls, oldest first *)
  kills : list KillAction;           (* signals sent, oldest first *)
  returned : option ToolResult       (* the value [execute] resolved to *)
}.

(** Events delivered by the runtime.  [now] is the clock read by the
    listener; [killThrows] tells whether [process.kill] throws; [scratch]
    is the text of the scratch file when it exists. *)
Inductive Event :=
| StdoutData (data : Buffer) (now : Z)
| StderrData (data : Buffer) (now : Z)
| ErrorEvent (err : JsError)
| AbortEvent (killThrows : bool)
| GraceElapsed (killThrows : bool)
| ExitEvent (code : option Z) (signal : option jsstring)
            (scratch : option jsstring).

Definition start (self0 : ShellToolState) (now : Z) : Run :=
  {| self := self0; exited := false; stdout := []; output := [];
     lastUpdateTime := now; stderr := []; error := None; code := None;
     processSignal := None; aborted := false; graceArmed := false;
     updates := []; kills := []; returned := None |}.

Definition sudoFailed (str : jsstring) : bool :=
  includes str #"sudo: a password is required"
  || includes str #"sudo: sorry, try again".

Definition clearPassword (s : ShellToolState) : ShellToolState :=
  {| whitelist := whitelist s;
     sudoPassword := None;
     sudoPasswordTimestamp := None |}.

(** A [data] listener; [onStdout] selects the stream. *)
Definition onData (sp : Spawn) (onStdout : bool) (data : Buffer) (now : Z)
           (r : Run) : Run :=
  if exited r then r
  else
    let str := stripAnsi (host sp) (bufferToString (host sp) data) in
    let self' := if sudoFailed str then clearPassword (self r)
                 else self r in
    let output' := output r ++ str in
    let fire := hasUpdateOutput sp
                && (OUTPUT_UPDATE_INTERVAL_MS <? now - lastUpdateTime r)%Z in
    {| self := self';
       exited := exited r;
       stdout := if onStdout then stdout r ++ str else stdout r;
       output := output';
       lastUpdateTime := if fire then now else lastUpdateTime r;
       stderr := if onStdout then stderr r else stderr r ++ str;
       error := error r; code := code r;
       processSignal := processSignal r; aborted := aborted r;
       graceArmed := graceArmed r;
       updates := if fire then updates r ++ [output'] else updates r;
       kills := kills r; returned := returned r |}.

(** The [error] listener: [error.message.replace(command,
    params.command)], the replacement text with its [$] patterns. *)
Definition onError (sp : Spawn) (err : JsError) (r : Run) : Run :=
  {| self := self r; exited := exited r; stdout := stdout r;
     output := output r; lastUpdateTime := lastUpdateTime r;
     stderr := stderr r;
     error := Some {| message := replaceWithPatterns (spawnedCommand sp)
                                   (command (params sp)) (message err) |};
     code := code r; processSignal := processSignal r;
     aborted := aborted r; graceArmed := graceArmed r;
     updates := updates r; kills := kills r; returned := returned r |}.

Definition withKills (r : Run) (aborted' armed : bool)
           (ks : list KillAction) : Run :=
  {| self := self r; exited := exited r; stdout := stdout r;
     output := output r; lastUpdateTime := lastUpdateTime r;
     stderr := stderr r; error := error r; code := code r;
     processSignal := processSignal r; aborted := aborted';
     graceArmed := armed; updates := updates r;
     kills := kills r ++ ks; returned := returned r |}.

(** The abort signal fires; [abortHandler] runs while it is registered,
    that is until [execute] has resumed after the exit. *)
Definition onAbort (sp : Spawn) (killThrows : bool) (r : Run) : Run :=
  match returned r with
  | Some _ => withKills r true (graceArmed r) []
  | None =>
      match pidTruthy (pid sp) with
      | Some p =>
          if exited r then withKills r true (graceArmed r) []
          else if platformIsWin32 (host sp)
          then withKills r true (graceArmed r) [TaskKill p]
          else if killThrows
          then withKills r true (graceArmed r)
                         [GroupKill p SIGTERM; ChildKill SIGKILL]
          else withKills r true true [GroupKill p SIGTERM]
      | None => withKills r true (graceArmed r) []
      end
  end.

(** The 200 ms timer of [abortHandler] elapses. *)
Definition onGraceElapsed (sp : Spawn) (killThrows : bool) (r : Run) : Run :=
  if graceArmed r then
    match pidTruthy (pid sp) with
    | Some p =>
        if exited r then withKills r (aborted r) false []
        else if killThrows
        then withKills r (aborted r) false
                       [GroupKill p SIGKILL; ChildKill SIGKILL]
        else withKills r (aborted r) false [GroupKill p SIGKILL]
    | None => withKills r (aborted r) false []
    end
  else r.

(** [s || dflt] *)
Definition orElse (s : option jsstring) (dflt : jsstring) : jsstring :=
  match s with
  | Some x => if truthy x then x else dflt
  | None => dflt
  end.

(** [pid !== shell.pid] *)
Definition differsFromPid (n : JsNumber) (shellPid : option Z) : bool :=
  match n, shellPid with
  | Integer p, Some q => negb (p =? q)%Z
  | _, _ => true
  end.

(** [String(n)] *)
Definition showNumber (h : Host) (n : JsNumber) : jsstring :=
  match n with
  | Integer p => numberToString h p
  | NotInteger shown => shown
  end.

(** The loop over the lines of the scratch file: every non-empty line is
    turned into a number, digits or not, and kept unless it is the pid of
    the shell. *)
Definition backgroundPIDs (sp : Spawn) (scratch : option jsstring)
  : list JsNumber :=
  if platformIsWin32 (host sp) then []
  else match scratch with
       | Some content =>
           filter (fun n => differsFromPid n (pid sp))
                  (List.map (stringToNumber (host sp))
                            (filter truthy (splitOn 10%N content)))
       | None => []
       end.

(** The tail of [execute], after the exit has been awaited. *)
Definition buildResult (sp : Spawn) (r : Run) (scratch : option jsstring)
  : ToolResult :=
  let h := host sp in
  let bg := backgroundPIDs sp scratch in
  let llm :=
    if aborted r then
      #"Command was cancelled by user before it could complete."
        ++ (if truthy (trim (output r))
            then #" Below is the output (on stdout and stderr) before it was cancelled:"
                   ++ NL ++ output r
            else #" There was no output before it was cancelled.")
    else
      join NL
        [ #"Command: " ++ command (params sp);
          #"Directory: " ++ orElse (directory (params sp)) #"(root)";
          #"Stdout: " ++ orElse (Some (stdout r)) #"(empty)";
          #"Stderr: " ++ orElse (Some (stderr r)) #"(empty)";
          #"Error: " ++ (match error r with
                         | Some e => errorToString h e
                         | None => #"(none)" end);
          #"Exit Code: " ++ (match code r with
                             | Some c => numberToString h c
                             | None => #"(none)" end);
          #"Signal: " ++ (match processSignal r with
                          | Some s => s
                          | None => #"(none)" end);
          #"Background PIDs: "
            ++ (match bg with
                | [] => #"(none)"
                | _ => join #", " (List.map (showNumber h) bg)
                end);
          #"Process Group PGID: " ++ (match pid sp with
                                      | Some p => numberToString h p
                                      | None => #"(none)" end) ] in
  let display :=
    if getDebugMode (config sp) then llm
    else if truthy (trim (output r)) then output r
    else if aborted r then #"Command cancelled by user."
    else if truthyOpt (processSignal r)
    then #"Command terminated by signal: " ++ orElse (processSignal r) []
    else match error r with
         | Some e => #"Command failed: " ++ getErrorMessage h e
         | None =>
             match code r with
             | Some c => if (c =? 0)%Z then []
                         else #"Command exited with code: "
                                ++ numberToString h c
             | None => []
             end
         end in
  {| llmContent := llm; returnDisplay := display |}.

(** [exitHandler], then the continuation of the awaited promise. *)
Definition onExit (sp : Spawn) (c : option Z) (s : option jsstring)
           (scratch : option jsstring) (r : Run) : Run :=
  let r' :=
    {| self := self r; exited := true; stdout := stdout r;
       output := output r; lastUpdateTime := lastUpdateTime r;
       stderr := stderr r; error := error r; code := c;
       processSignal := s; aborted := aborted r;
       graceArmed := graceArmed r; updates := updates r;
       kills := kills r; returned := returned r |} in
  match returned r with
  | Some _ => r'
  | None =>
      {| self := self r'; exited := true; stdout := stdout r';
         output := output r'; lastUpdateTime := lastUpdateTime r';
         stderr := stderr r'; error := error r'; code := c;
         processSignal := s; aborted := aborted r';
         graceArmed := graceArmed r'; updates := updates r';
         kills := kills r';
         returned := Some (buildResult sp r' scratch) |}
  end.

Definition step (sp : Spawn) (r : Run) (e : Event) : Run :=
  match e with
  | StdoutData data now => onData sp true data now r
  | StderrData data now => onData sp false data now r
  | ErrorEvent err => onError sp err r
  | AbortEvent killThrows => onAbort sp killThrows r
  | GraceElapsed killThrows => onGraceElapsed sp killThrows r
  | ExitEvent c s scratch => onExit sp c s scratch r
  end.

Definition run (sp : Spawn) (r : Run) (events : list Event) : Run :=
  fold_left (step sp) events r.

End ShellToolExecute.

(* ================================================================== *)
(** ** The sudo credential context *)
(* ================================================================== *)

Module SudoProvider.

Definition SUDO_CACHE_DURATION_MS : Z := 15 * 60 * 1000.

(** The two state cells of the provider. *)
Record State := {
  password : option jsstring;
  timestamp : option Z
}.

Definition initial : State := {| password := None; timestamp := None |}.

Definition setPassword (newPassword : jsstring) (now : Z) (_ : State)
  : State :=
  {| password := Some newPassword; timestamp := Some now |}.

(** The value returned together with the state after the call (an
    expired password is cleared). *)
Definition getPassword (now : Z) (st : State) : option jsstring * State :=
  match password st with
  | Some p =>
      if truthy p then
        match timestamp st with
        | Some t =>
            if negb (t =? 0)%Z && (now - t <? SUDO_CACHE_DURATION_MS)%Z
            then (Some p, st)
            else (None, initial)
        | None => (None, initial)
        end
      else (None, st)
  | None => (None, st)
  end.

End SudoProvider.

(* ================================================================== *)
(** ** The interactive shell processor: [executeShellCommand] *)
(* ================================================================== *)

Inductive Stream := Stdout | Stderr.

Record ShellExecutionResult := {
  rawOutput : Buffer;
  resultOutput : jsstring;             (* output *)
  exitCode : option Z;
  resultSignal : option jsstring;      (* signal *)
  resultError : option JsError;        (* error *)
  resultAborted : bool;                (* aborted *)
  finalPwd : option jsstring
}.

(** Collaborators of the processor outside the sources.  A
    [StringDecoder] is its buffer of bytes not yet decoded. *)
Record ProcessorHost := {
  isWindows : bool;                                  (* os.platform() *)
  isBinary : Buffer -> bool;                         (* utils/textUtils.js *)
  formatMemoryUsage : N -> jsstring;                 (* utils/formatters.js *)
  stripAnsiP : jsstring -> jsstring;                 (* strip-ansi *)
  decoderWrite : Buffer -> Buffer -> jsstring * Buffer;  (* decoder.write *)
  decoderEnd : Buffer -> jsstring;                   (* decoder.end *)
  pidToString : Z -> jsstring                        (* template literal *)
}.

Module ShellCommandProcessor.

Definition OUTPUT_UPDATE_INTERVAL_MS : Z := 1000.
Definition MAX_SNIFF_SIZE : N := 4096.

Definition NL : jsstring := [10%N].
Definition DQUOTE : jsstring := [34%N].
Definition QUOTE : N := 39.

Definition wrapSudo (sudoPassword userCommand : jsstring) : jsstring :=
  let escapedPassword := replaceAllChar QUOTE #"'\''" sudoPassword in
  #"echo '" ++ escapedPassword ++ #"' | "
    ++ replaceFirst #"sudo" #"sudo -S --" userCommand.

Definition pwdWrap (commandToExecute pwdFilePath : jsstring) : jsstring :=
  let command :=
    if negb (endsWith (trim commandToExecute) #"&")
    then commandToExecute ++ #";" else commandToExecute in
  #"{ " ++ command ++ #" }; __code=$?; pwd > " ++ DQUOTE ++ pwdFilePath
    ++ DQUOTE ++ #"; exit $__code".

(** Either the promise is resolved at once, or [spawn(shell, shellArgs,
    spawnOptions)] is called after the debug message. *)
Inductive Start :=
| Immediate (result : ShellExecutionResult)
| Spawned (shell : jsstring) (shellArgs : list jsstring)
          (debugMessage : jsstring).

Definition executeStart (h : ProcessorHost) (rawCommand cwd : jsstring)
           (sudoPassword : option jsstring) (pwdFilePath : jsstring)
  : Start :=
  let isSudo :=
    negb (isWindows h) && startsWith (trim rawCommand) #"sudo " in
  let prepared : option jsstring :=
    if isSudo then
      match sudoPassword with
      | Some pw =>
          if truthy pw then Some (wrapSudo pw (trim rawCommand)) else None
      | None => None
      end
    else Some rawCommand in
  match prepared with
  | None =>
      Immediate
        {| rawOutput := [];
           resultOutput :=
             #"Error: sudo password required, but not provided or has expired."
               ++ NL
               ++ #"Run a sudo command through the AI first to cache the password.";
           exitCode := Some 1%Z;
           resultSignal := None;
           resultError := Some {| message := #"Sudo password required." |};
           resultAborted := false;
           finalPwd := None |}
  | Some commandToExecute =>
      let finalWrappedCommand :=
        if isWindows h then commandToExecute
        else pwdWrap commandToExecute pwdFilePath in
      let dbg := #"Executing in " ++ cwd ++ #": " ++ finalWrappedCommand in
      if isWindows h
      then Spawned #"cmd.exe" [#"/c"; finalWrappedCommand] dbg
      else Spawned #"bash" [#"-c"; finalWrappedCommand] dbg
  end.

(** The variables of the promise executor, and what has been sent to the
    callbacks so far. *)
Record Proc := {
  stdoutDecoder : Buffer;
  stderrDecoder : Buffer;
  stdout : jsstring;
  stderr : jsstring;
  outputChunks : list Buffer;
  error : option JsError;
  exited : bool;
  streamToUi : bool;
  sniffedBytes : N;
  aborted : bool;                  (* abortSignal.aborted *)
  listening : bool;                (* abortHandler is registered *)
  graceArmed : bool;               (* the 200 ms timer is pending *)
  chunksOut : list jsstring;       (* onOutputChunk calls, oldest first *)
  debugOut : list jsstring;        (* onDebugMessage calls after spawn *)
  kills : list KillAction;
  resolved : option ShellExecutionResult
}.

Inductive Event :=
| Data (stream : Stream) (data : Buffer)
| ErrorEvent (err : JsError)
| AbortEvent (killThrows : bool)
| GraceElapsed (killThrows : bool)
| ExitEvent (code : option Z) (signal : option jsstring)
            (pwdFile : option jsstring).

Definition start : Proc :=
  {| stdoutDecoder := []; stderrDecoder := []; stdout := []; stderr := [];
     outputChunks := []; error := None; exited := false;
     streamToUi := true; sniffedBytes := 0; aborted := false;
     listening := true; graceArmed := false; chunksOut := [];
     debugOut := []; kills := []; resolved := None |}.

Definition HALT_NOTICE : jsstring :=
  #"[Binary output detected. Halting stream...]".

Definition progressNotice (h : ProcessorHost) (totalBytes : N)
  : jsstring :=
  #"[Receiving binary output... " ++ formatMemoryUsage h totalBytes
    ++ #" received]".

(** [stdout + (stderr ? `\n${stderr}` : '')] *)
Definition combined (out err : jsstring) : jsstring :=
  out ++ (if truthy err then NL ++ err else []).

(** [outputChunks.reduce((sum, chunk) => sum + chunk.length, 0)] *)
Definition totalBytes (chunks : list Buffer) : N :=
  fold_left (fun sum chunk => (sum + N.of_nat (List.length chunk))%N)
            chunks 0%N.

Definition handleOutput (h : ProcessorHost) (data : Buffer)
           (stream : Stream) (p : Proc) : Proc :=
  let chunks := outputChunks p ++ [data] in
  let sniff := streamToUi p && (sniffedBytes p <? MAX_SNIFF_SIZE)%N in
  let sniffBuffer := bufferConcat (firstn 20 chunks) in
  let flagged := sniff && isBinary h sniffBuffer in
  let streamToUi' := if flagged then false else streamToUi p in
  let out1 := if flagged then chunksOut p ++ [HALT_NOTICE]
              else chunksOut p in
  let dec := match stream with
             | Stdout => decoderWrite h (stdoutDecoder p) data
             | Stderr => decoderWrite h (stderrDecoder p) data
             end in
  let stdout' := match stream with
                 | Stdout => stdout p ++ stripAnsiP h (fst dec)
                 | Stderr => stdout p
                 end in
  let stderr' := match stream with
                 | Stdout => stderr p
                 | Stderr => stderr p ++ stripAnsiP h (fst dec)
                 end in
  let out2 :=
    if negb (exited p) && streamToUi' then out1 ++ [combined stdout' stderr']
    else if negb (exited p) && negb streamToUi'
    then out1 ++ [progressNotice h (totalBytes chunks)]
    else out1 in
  {| stdoutDecoder := match stream with
                      | Stdout => snd dec
                      | Stderr => stdoutDecoder p
                      end;
     stderrDecoder := match stream with
                      | Stdout => stderrDecoder p
                      | Stderr => snd dec
                      end;
     stdout := stdout'; stderr := stderr';
     outputChunks := chunks; error := error p; exited := exited p;
     streamToUi := streamToUi';
     sniffedBytes := if sniff then N.of_nat (List.length sniffBuffer)
                     else sniffedBytes p;
     aborted := aborted p; listening := listening p;
     graceArmed := graceArmed p; chunksOut := out2;
     debugOut := debugOut p; kills := kills p; resolved := resolved p |}.

Definition onError (err : JsError) (p : Proc) : Proc :=
  {| stdoutDecoder := stdoutDecoder p; stderrDecoder := stderrDecoder p;
     stdout := stdout p; stderr := stderr p;
     outputChunks := outputChunks p; error := Some err;
     exited := exited p; streamToUi := streamToUi p;
     sniffedBytes := sniffedBytes p; aborted := aborted p;
     listening := listening p; graceArmed := graceArmed p;
     chunksOut := chunksOut p; debugOut := debugOut p; kills := kills p;
     resolved := resolved p |}.

Definition withAbort (p : Proc) (listening' armed : bool)
           (dbg : list jsstring) (ks : list KillAction) : Proc :=
  {| stdoutDecoder := stdoutDecoder p; stderrDecoder := stderrDecoder p;
     stdout := stdout p; stderr := stderr p;
     outputChunks := outputChunks p; error := error p;
     exited := exited p; streamToUi := streamToUi p;
     sniffedBytes := sniffedBytes p; aborted := true;
     listening := listening'; graceArmed := armed;
     chunksOut := chunksOut p; debugOut := debugOut p ++ dbg;
     kills := kills p ++ ks; resolved := resolved p |}.

(** The abort signal fires; [abortHandler] is registered once and
    removed by the exit listener. *)
Definition onAbort (h : ProcessorHost) (pid : option Z) (killThrows : bool)
           (p : Proc) : Proc :=
  if listening p then
    match pidTruthy pid with
    | Some c =>
        if exited p then withAbort p false (graceArmed p) [] []
        else
          let dbg := [#"Aborting shell command (PID: " ++ pidToString h c
                        ++ #")"] in
          if isWindows h then withAbort p false (graceArmed p) dbg
                                        [TaskKill c]
          else if killThrows
          then withAbort p false (graceArmed p) dbg
                         [GroupKill c SIGTERM; ChildKill SIGKILL]
          else withAbort p false true dbg [GroupKill c SIGTERM]
    | None => withAbort p false (graceArmed p) [] []
    end
  else withAbort p false (graceArmed p) [] [].

Definition withGrace (p : Proc) (ks : list KillAction) : Proc :=
  {| stdoutDecoder := stdoutDecoder p; stderrDecoder := stderrDecoder p;
     stdout := stdout p; stderr := stderr p;
     outputChunks := outputChunks p; error := error p;
     exited := exited p; streamToUi := streamToUi p;
     sniffedBytes := sniffedBytes p; aborted := aborted p;
     listening := listening p; graceArmed := false;
     chunksOut := chunksOut p; debugOut := debugOut p;
     kills := kills p ++ ks; resolved := resolved p |}.

Definition onGraceElapsed (pid : option Z) (killThrows : bool) (p : Proc)
  : Proc :=
  if graceArmed p then
    if exited p then withGrace p []
    else match pid with
         | Some c =>
             if killThrows
             then withGrace p [GroupKill c SIGKILL; ChildKill SIGKILL]
             else withGrace p [GroupKill c SIGKILL]
         | None => withGrace p []
         end
  else p.

(** The [exit] listener.  [pwdFile] is the trimmed-to-be content of the
    scratch file when it exists. *)
Definition onExit (h : ProcessorHost) (code : option Z)
           (signal : option jsstring) (pwdFile : option jsstring)
           (p : Proc) : Proc :=
  let stdout' := stdout p ++ decoderEnd h (stdoutDecoder p) in
  let stderr' := stderr p ++ decoderEnd h (stderrDecoder p) in
  let finalBuffer := bufferConcat (outputChunks p) in
  let pwd := if isWindows h then None
             else match pwdFile with
                  | Some content => Some (trim content)
                  | None => None
                  end in
  let result :=
    {| rawOutput := finalBuffer;
       resultOutput := combined stdout' stderr';
       exitCode := code;
       resultSignal := signal;
       resultError := error p;
       resultAborted := aborted p;
       finalPwd := pwd |} in
  {| stdoutDecoder := []; stderrDecoder := [];
     stdout := stdout'; stderr := stderr';
     outputChunks := outputChunks p; error := error p;
     exited := true; streamToUi := streamToUi p;
     sniffedBytes := sniffedBytes p; aborted := aborted p;
     listening := false; graceArmed := graceArmed p;
     chunksOut := chunksOut p; debugOut := debugOut p; kills := kills p;
     resolved := match resolved p with
                 | Some r => Some r
                 | None => Some result
                 end |}.

Definition step (h : ProcessorHost) (pid : option Z) (p : Proc) (e : Event)
  : Proc :=
  match e with
  | Data stream data => handleOutput h data stream p
  | ErrorEvent err => onError err p
  | AbortEvent killThrows => onAbort h pid killThrows p
  | GraceElapsed killThrows => onGraceElapsed pid killThrows p
  | ExitEvent code signal pwdFile => onExit h code signal pwdFile p
  end.

Definition run (h : ProcessorHost) (pid : option Z) (p : Proc)
           (events : list Event) : Proc :=
  fold_left (step h pid) events p.

End ShellCommandProcessor.

(* ================================================================== *)
(** ** Vocabulary of the statements *)
(* ================================================================== *)

Module Vocabulary.
Import ShellTool.

(** [s] contains [p] as a substring. *)
Definition HasSubstring (s p : jsstring) : Prop :=
  exists a b, s = a ++ p ++ b.

(** [cmd] prefix-matches [prefix]: it starts with it, and the prefix ends
    at the end of [cmd] or is followed by a space. *)
Definition PrefixMatch (cmd prefix : jsstring) : Prop :=
  exists rest, cmd = prefix ++ rest
               /\ (rest = [] \/ exists r, rest = SPACE :: r).

(** The normalized sub-commands the gate validates. *)
Definition subCommands (command : jsstring) : list jsstring :=
  List.map normalize (splitCommands command).

(** Deny and allow prefixes contributed by the policy entries scoped to
    the tool. *)
Definition denyEntries (config : Config) : list jsstring :=
  extractCommands (orEmpty (getExcludeTools config)).
Definition allowEntries (config : Config) : list jsstring :=
  extractCommands (orEmpty (getCoreTools config)).

(** The tool's bare name is in the deny list / in the allow list. *)
Definition toolDenied (config : Config) : Prop :=
  exists name, In name SHELL_TOOL_NAMES
               /\ In name (orEmpty (getExcludeTools config)).
Definition wildcardAllowed (config : Config) : Prop :=
  exists name, In name SHELL_TOOL_NAMES
               /\ In name (orEmpty (getCoreTools config)).

Definition strictAllowlist (config : Config) : Prop :=
  allowEntries config <> [] /\ ~ wildcardAllowed config.

(** What the gate demands of one normalized sub-command. *)
Definition subCommandPasses (config : Config) (sub : jsstring) : Prop :=
  (forall d, In d (denyEntries config) -> ~ PrefixMatch sub d)
  /\ (strictAllowlist config ->
      exists a, In a (allowEntries config) /\ PrefixMatch sub a).

(** The separators of the split, and a command rebuilt from its pieces. *)
Definition isSeparator (sep : jsstring) : Prop :=
  sep = #"&&" \/ sep = #"||" \/ sep = #"|" \/ sep = #";".

Fixpoint interleave (pieces seps : list jsstring) : jsstring :=
  match pieces, seps with
  | p :: ps, s :: ss => p ++ s ++ interleave ps ss
  | p :: _, [] => p
  | [], _ => []
  end.

Definition separatorFree (piece : jsstring) : Prop :=
  ~ HasSubstring piece #"&&" /\ ~ HasSubstring piece #"|"
  /\ ~ HasSubstring piece #";".

(** The split of a command at its separators, leftmost first, [&&] and
    [||] taken whole: every piece is free of separators, a piece in front
    of [&&] does not end with [&], and what follows a separator [|] does
    not begin with [|]. *)
Inductive SplitsInto : jsstring -> list jsstring -> Prop :=
| splits_last (piece : jsstring) :
    separatorFree piece -> SplitsInto piece [piece]
| splits_at (piece sep rest : jsstring) (pieces : list jsstring) :
    separatorFree piece -> isSeparator sep ->
    (sep = #"&&" -> forall front, piece <> front ++ #"&") ->
    (sep = #"|" -> forall back, rest <> #"|" ++ back) ->
    SplitsInto rest pieces ->
    SplitsInto (piece ++ sep ++ rest) (piece :: pieces).

(** The words of a text: its maximal runs of code units that are not
    white space; [word] is the run being read. *)
Fixpoint wordsFrom (word s : jsstring) : list jsstring :=
  match s with
  | [] => match word with [] => [] | _ => [word] end
  | c :: s' =>
      if isWhiteSpace c
      then match word with
           | [] => wordsFrom [] s'
           | _ => word :: wordsFrom [] s'
           end
      else wordsFrom (word ++ [c]) s'
  end.

Definition words (s : jsstring) : list jsstring := wordsFrom [] s.

(** The normal form of a text: its words, one space between them. *)
Definition normalForm (s : jsstring) : jsstring := join [SPACE] (words s).

(** The prefixes the entries scoped to the tool contribute: an entry
    [tool(body)], for one of the names of the tool, gives the normal form
    of [body]. *)
Definition scopedPrefix (entries : list jsstring) (prefix : jsstring)
  : Prop :=
  exists toolName body,
    In toolName SHELL_TOOL_NAMES
    /\ In (toolName ++ #"(" ++ body ++ #")") entries
    /\ prefix = normalForm body.

(** The command [a & s]. *)
Definition background (a s : jsstring) : jsstring := a ++ #" & " ++ s.

(** What is asked of an allow entry [a] and a suffix [s]: a strict allow
    list holding [a], and a command [a & s] free of substitution and
    separators that prefix-matches no deny entry. *)
Definition backgroundPremises (config : Config) (a s : jsstring) : Prop :=
  In a (allowEntries config)
  /\ strictAllowlist config
  /\ ~ HasSubstring (background a s) #"$("
  /\ ~ HasSubstring (background a s) #"`"
  /\ separatorFree (background a s)
  /\ forall d, In d (denyEntries config) ->
               ~ PrefixMatch (normalize (background a s)) d.

(** The confirmation asks for the sudo password. *)
Definition promptsForPassword (r : option ToolCallConfirmationDetails)
  : Prop :=
  exists title root k, r = Some (PasswordConfirmation title root k).

(** The tool instance holds a secret issued less than 15 minutes before
    [now]. *)
Definition holdsSecretYoungerThanTTL (self : ShellToolState) (now : Z)
  : Prop :=
  exists secret issuedAt,
    sudoPassword self = Some secret
    /\ sudoPasswordTimestamp self = Some issuedAt
    /\ (now - issuedAt < 15 * 60 * 1000)%Z.

(** A sudo command on a POSIX platform. *)
Definition sudoOnPosix (host : Host) (params : ShellToolParams) : Prop :=
  startsWith (trim (command params)) #"sudo " = true
  /\ platformIsWin32 host = false.


(** [r'] is past the exit with the strings and the result of [r]. *)
Definition frozen (r r' : ShellToolExecute.Run) : Prop :=
  ShellToolExecute.exited r' = true
  /\ ShellToolExecute.stdout r' = ShellToolExecute.stdout r
  /\ ShellToolExecute.stderr r' = ShellToolExecute.stderr r
  /\ ShellToolExecute.output r' = ShellToolExecute.output r
  /\ ShellToolExecute.updates r' = ShellToolExecute.updates r
  /\ forall res, ShellToolExecute.returned r = Some res ->
                 ShellToolExecute.returned r' = Some res.

(** The chunks of the data events of a trace, in order of arrival. *)
Fixpoint dataOf (events : list ShellCommandProcessor.Event) : list Buffer :=
  match events with
  | [] => []
  | ShellCommandProcessor.Data _ d :: rest => d :: dataOf rest
  | _ :: rest => dataOf rest
  end.

(** A run that only receives the given chunks. *)
Definition dataEvents (chunks : list (Stream * Buffer))
  : list ShellCommandProcessor.Event :=
  List.map (fun c => ShellCommandProcessor.Data (fst c) (snd c)) chunks.

Definition sameStream (a b : Stream) : bool :=
  match a, b with
  | Stdout, Stdout | Stderr, Stderr => true
  | _, _ => false
  end.

(** The chunks received on one stream. *)
Definition streamData (s : Stream) (chunks : list (Stream * Buffer))
  : list Buffer :=
  List.map snd (filter (fun c => sameStream (fst c) s) chunks).

(** What a decoder starting with [pending] hands out for a sequence of
    chunks, escape sequences stripped chunk by chunk, and what it keeps. *)
Fixpoint decodeStream (h : ProcessorHost) (pending : Buffer)
         (datas : list Buffer) : jsstring * Buffer :=
  match datas with
  | [] => ([], pending)
  | d :: rest =>
      let w := decoderWrite h pending d in
      let r := decodeStream h (snd w) rest in
      (stripAnsiP h (fst w) ++ fst r, snd r)
  end.

(** The chunk an event delivers, with its stream. *)
Definition chunkOf (e : ShellCommandProcessor.Event)
  : list (Stream * Buffer) :=
  match e with
  | ShellCommandProcessor.Data stream data => [(stream, data)]
  | _ => []
  end.

(** The chunks of a trace, whatever events come between them. *)
Definition chunksOf (events : list ShellCommandProcessor.Event)
  : list (Stream * Buffer) :=
  flat_map chunkOf events.

(** An exit event is among the events. *)
Definition exitSeen (events : list ShellCommandProcessor.Event) : bool :=
  existsb (fun e => match e with
                    | ShellCommandProcessor.ExitEvent _ _ _ => true
                    | _ => false
                    end) events.

(** The chunks delivered before the first exit event. *)
Fixpoint liveChunks (events : list ShellCommandProcessor.Event)
  : list (Stream * Buffer) :=
  match events with
  | [] => []
  | ShellCommandProcessor.ExitEvent _ _ _ :: _ => []
  | e :: rest => chunkOf e ++ liveChunks rest
  end.

(** The decoded text of the chunks: what stdout gave, then, when stderr
    gave anything, a line feed and what stderr gave. *)
Definition liveText (h : ProcessorHost) (chunks : list (Stream * Buffer))
  : jsstring :=
  match fst (decodeStream h [] (streamData Stderr chunks)) with
  | [] => fst (decodeStream h [] (streamData Stdout chunks))
  | errText =>
      fst (decodeStream h [] (streamData Stdout chunks))
        ++ [10%N] ++ errText
  end.

(** The message is a byte-count progress notice. *)
Definition isProgressNotice (h : ProcessorHost) (m : jsstring) : Prop :=
  exists n, m = ShellCommandProcessor.progressNotice h n.

(** The transcript of a cancelled run of the tool whose combined output
    is [out]. *)
Definition cancelledTranscript (out : jsstring) : jsstring :=
  #"Command was cancelled by user before it could complete."
    ++ (if truthy (trim out)
        then #" Below is the output (on stdout and stderr) before it was cancelled:"
               ++ NL ++ out
        else #" There was no output before it was cancelled.").

(** No exit event in the trace. *)
Definition noExitP (events : list ShellCommandProcessor.Event) : Prop :=
  forall c s f, ~ In (ShellCommandProcessor.ExitEvent c s f) events.
Definition noExitT (events : list ShellToolExecute.Event) : Prop :=
  forall c s pids, ~ In (ShellToolExecute.ExitEvent c s pids) events.

(** A configuration with the given allow and deny lists. *)
Definition policy (coreTools excludeTools : option (list jsstring))
  : Config :=
  {| getCoreTools := coreTools; getExcludeTools := excludeTools;
     getTargetDir := #"/project"; getDebugMode := false |}.

End Vocabulary.

(* ================================================================== *)
(** ** Concrete collaborators and policies *)
(* ================================================================== *)

Module Samples.
Import ShellTool Vocabulary.

Definition decimal (z : Z) : jsstring :=
  str (NilZero.string_of_int (Z.to_int z)).

(** [Number(text)] for a text of decimal digits; anything else is taken
    for NaN. *)
Definition digitsValue (text : jsstring) : option Z :=
  fold_left
    (fun acc c =>
       match acc with
       | Some v => if ((48 <=? c) && (c <=? 57))%N
                   then Some (10 * v + (Z.of_N c - 48))%Z else None
       | None => None
       end)
    text (Some 0%Z).

Definition parseDigits (text : jsstring) : JsNumber :=
  match text, digitsValue text with
  | _ :: _, Some v => Integer v
  | _, _ => NotInteger #"NaN"
  end.

(** A POSIX host whose output carries no escape sequences and whose
    bytes are all ASCII. *)
Definition posixHost : Host :=
  {| platformIsWin32 := false;
     schemaValidate := fun _ => true;
     pathIsAbsolute := fun d => startsWith d #"/";
     pathResolve := fun base d => base ++ #"/" ++ d;
     fsExistsSync := fun _ => true;
     stripAnsi := fun s => s;
     bufferToString := fun b => b;
     numberToString := decimal;
     stringToNumber := parseDigits;
     errorToString := fun e => #"Error: " ++ message e;
     getErrorMessage := message |}.

(** A POSIX processor host: ASCII output decoded as it comes, a buffer
    taken for binary when a NUL byte is among its first 512 bytes. *)
Definition posixProcessor : ProcessorHost :=
  {| isWindows := false;
     isBinary := fun b => existsb (N.eqb 0) (firstn 512 b);
     formatMemoryUsage := fun n => decimal (Z.of_N n) ++ #" B";
     stripAnsiP := fun s => s;
     decoderWrite := fun pending data => (pending ++ data, []);
     decoderEnd := fun pending => pending;
     pidToString := decimal |}.

Definition request (c : jsstring) : ShellToolParams :=
  {| command := c; description := None; directory := None |}.

Definition emptyTool : ShellToolState :=
  {| whitelist := []; sudoPassword := None;
     sudoPasswordTimestamp := None |}.

Definition noPolicy : Config := policy None None.

(** The cache after an empty password was confirmed at time 1000. *)
Definition emptySecretTool : ShellToolState :=
  passwordOnConfirm [] 1000 emptyTool.

(** The cache after [hunter2] was confirmed at time 1000. *)
Definition hunter2Tool : ShellToolState :=
  passwordOnConfirm #"hunter2" 1000 emptyTool.

(** [sudo ls] spawned by the tool, with a progress callback. *)
Definition sudoLsSpawn : ShellToolExecute.Spawn :=
  {| ShellToolExecute.host := posixHost;
     ShellToolExecute.config := noPolicy;
     ShellToolExecute.params := request #"sudo ls";
     ShellToolExecute.spawnedCommand :=
       pgrepWrap (wrapSudo #"hunter2" #"sudo ls") #"/tmp/shell_pgrep.tmp";
     ShellToolExecute.pid := Some 4242%Z;
     ShellToolExecute.hasUpdateOutput := true |}.

(** The spawn failed: no process id. *)
Definition failedSpawn : ShellToolExecute.Spawn :=
  {| ShellToolExecute.host := posixHost;
     ShellToolExecute.config := noPolicy;
     ShellToolExecute.params := request #"ls";
     ShellToolExecute.spawnedCommand := pgrepWrap #"ls" #"/tmp/shell_pgrep.tmp";
     ShellToolExecute.pid := None;
     ShellToolExecute.hasUpdateOutput := true |}.

Definition spawnError : JsError := {| message := #"spawn bash EAGAIN" |}.

(** Twenty chunks of text, then a chunk with a NUL byte. *)
Definition textThenBinary : list (Stream * Buffer) :=
  repeat (Stdout, #"ab") 20 ++ [(Stdout, [0%N; 255%N])].

Definition allowGitStatus : Config :=
  policy (Some [Name ++ #"(git status)"]) None.

(** An allow list whose only entry is the tool with an empty prefix. *)
Definition allowEmptyPrefix : Config :=
  policy (Some [Name ++ #"()"]) None.

(** A scoped allow entry, and the tool denied outright. *)
Definition allowedButDenied : Config :=
  policy (Some [Name ++ #"(git status)"]) (Some [Name]).

End Samples.

(* ================================================================== *)
(** ** The shell tool: description of a call *)
(* ================================================================== *)

Module ShellToolDescription.

Definition LF : N := 10.

(** [getDescription]: the command, then the directory and the description
    when they are given (and not empty), line breaks of the description
    replaced by spaces. *)
Definition getDescription (params : ShellToolParams) : jsstring :=
  let d1 := command params in
  let d2 :=
    match directory params with
    | Some dir => if truthy dir then d1 ++ #" [in " ++ dir ++ #"]" else d1
    | None => d1
    end in
  match description params with
  | Some text =>
      if truthy text
      then d2 ++ #" (" ++ replaceAllChar LF #" " text ++ #")"
      else d2
  | None => d2
  end.

End ShellToolDescription.

(* ================================================================== *)
(** ** The interactive processor: history of a command *)
(* ================================================================== *)

Inductive HistoryItemType := InfoItem | ErrorItem | UserShellItem.

Record HistoryItem := {
  itemType : HistoryItemType;
  itemText : jsstring
}.

Module ShellHistory.

Definition OUTPUT_UPDATE_INTERVAL_MS : Z := 1000.
Definition MAX_OUTPUT_LENGTH : N := 10000.
Definition NL : jsstring := [10%N].

(** The text [addShellCommandToGeminiHistory] keeps of a result. *)
Definition modelContent (resultText : jsstring) : jsstring :=
  if (MAX_OUTPUT_LENGTH <? N.of_nat (List.length resultText))%N
  then firstn (N.to_nat MAX_OUTPUT_LENGTH) resultText
         ++ NL ++ #"... (truncated)"
  else resultText.

(** The text of the history entry handed to [geminiClient.addHistory]. *)
Definition geminiHistoryText (rawQuery resultText : jsstring) : jsstring :=
  #"I ran the following shell command:" ++ NL ++ #"```sh" ++ NL
    ++ rawQuery ++ NL ++ #"```" ++ NL ++ NL
    ++ #"This produced the following result:" ++ NL ++ #"```" ++ NL
    ++ modelContent resultText ++ NL ++ #"```".

(** [`${result.exitCode}`] *)
Definition exitCodeText (h : ProcessorHost) (c : option Z) : jsstring :=
  match c with
  | Some z => pidToString h z
  | None => #"null"
  end.

Definition truthyOpt (s : option jsstring) : bool :=
  match s with Some x => truthy x | None => false end.

Definition textOf (s : option jsstring) : jsstring :=
  match s with Some x => x | None => [] end.

(** The body of the [then] callback of [handleShellCommand]: the item
    added to the history for a result. *)
Definition resultItem (h : ProcessorHost) (targetDir : jsstring)
           (result : ShellExecutionResult) : HistoryItem :=
  let mainContent :=
    if isBinary h (rawOutput result)
    then #"[Command produced binary output, which is not shown.]"
    else if truthy (trim (resultOutput result))
         then trim (resultOutput result)
         else #"(Command produced no output)" in
  let classified : HistoryItemType * jsstring :=
    match resultError result with
    | Some e => (ErrorItem, message e ++ NL ++ mainContent)
    | None =>
        if resultAborted result
        then (InfoItem, #"Command was cancelled." ++ NL ++ mainContent)
        else if truthyOpt (resultSignal result)
        then (ErrorItem,
              #"Command terminated by signal: "
                ++ textOf (resultSignal result) ++ #"." ++ NL ++ mainContent)
        else match exitCode result with
             | Some 0%Z => (InfoItem, mainContent)
             | c => (ErrorItem,
                     #"Command exited with code " ++ exitCodeText h c
                       ++ #"." ++ NL ++ mainContent)
             end
    end in
  let finalOutput :=
    if truthyOpt (finalPwd result)
       && negb (JS.eqb (textOf (finalPwd result)) targetDir)
    then #"WARNING: shell mode is stateless; the directory change to '"
           ++ textOf (finalPwd result) ++ #"' will not persist."
           ++ NL ++ NL ++ snd classified
    else snd classified in
  {| itemType := fst classified; itemText := finalOutput |}.

(** The context's password after the [then] callback has looked at the
    result. *)
Definition afterResult (now : Z) (result : ShellExecutionResult)
           (st : SudoProvider.State) : SudoProvider.State :=
  if includes (resultOutput result) #"sudo: sorry, try again"
  then SudoProvider.setPassword [] now st
  else st.

(** The guard of [handleShellCommand]: a query that is no string ([None])
    or is blank is not run. *)
Definition handleShellCommandRuns (rawQuery : option jsstring) : bool :=
  match rawQuery with
  | Some q => negb (JS.eqb (trim q) [])
  | None => false
  end.

(** The live callback of [handleShellCommand]: [streamed] holds the calls
    of [onOutputChunk] with the clock of each; the result is the state of
    [lastUpdateTime] and the calls of [setPendingHistoryItem] made, with
    their clock. *)
Fixpoint pendingUpdates (lastUpdateTime : Z) (streamed : list (Z * jsstring))
  : list (Z * jsstring) :=
  match streamed with
  | [] => []
  | (now, text) :: rest =>
      if (OUTPUT_UPDATE_INTERVAL_MS <? now - lastUpdateTime)%Z
      then (now, text) :: pendingUpdates now rest
      else pendingUpdates lastUpdateTime rest
  end.

End ShellHistory.

(* ================================================================== *)
(** ** The processor that pipes the password (ui/hooks) *)
(* ================================================================== *)

Module PipedProcessor.

Definition NL : jsstring := [10%N].
Definition DQUOTE : jsstring := [34%N].

(** Either the promise is resolved at once, or [spawn] is called with the
    shell and its arguments, and [stdinWrite] is written to the child's
    standard input. *)
Inductive Start :=
| Immediate (result : ShellExecutionResult)
| Spawned (shell : jsstring) (shellArgs : list jsstring)
          (stdinWrite : option jsstring).

Definition pwdWrap (commandToExecute pwdFilePath : jsstring) : jsstring :=
  let command := trim commandToExecute in
  let command' :=
    if negb (endsWith command #";") && negb (endsWith command #"&")
    then command ++ #";" else command in
  #"{ " ++ command' ++ #" }; __code=$?; pwd > " ++ DQUOTE ++ pwdFilePath
    ++ DQUOTE ++ #"; exit $__code".

Definition executeStart (h : ProcessorHost) (rawCommand : jsstring)
           (sudoPassword : option jsstring) (pwdFilePath : jsstring)
           (hasStdin : bool) : Start :=
  let isSudo :=
    negb (isWindows h) && startsWith (trim rawCommand) #"sudo " in
  let usable :=
    match sudoPassword with
    | Some pw => truthy pw
    | None => false
    end in
  if isSudo && negb usable then
    Immediate
      {| rawOutput := [];
         resultOutput :=
           #"Error: sudo password required, but not provided or has expired."
             ++ NL
             ++ #"Run a sudo command through the AI first to cache the password.";
         exitCode := Some 1%Z;
         resultSignal := None;
         resultError := Some {| message := #"Sudo password required." |};
         resultAborted := false;
         finalPwd := None |}
  else
    let commandToExecute :=
      if isSudo then #"sudo -S " ++ skipn 5 (trim rawCommand)
      else rawCommand in
    let finalWrappedCommand :=
      if isWindows h then commandToExecute
      else pwdWrap commandToExecute pwdFilePath in
    let stdin :=
      if isSudo && hasStdin
      then match sudoPassword with
           | Some pw => Some (pw ++ NL)
           | None => None
           end
      else None in
    if isWindows h
    then Spawned #"cmd.exe" [#"/c"; finalWrappedCommand] stdin
    else Spawned #"bash" [#"-c"; finalWrappedCommand] stdin.

End PipedProcessor.

(* ================================================================== *)
(** ** The confirmation message (ui/components/messages) *)
(* ================================================================== *)

Module ConfirmationMessage.

(** [availableBodyContentHeight()], for the number of options pushed so
    far; [None] is [undefined]. *)
Definition availableBodyContentHeight (optionsLength : Z)
           (availableTerminalHeight : option Z) : option Z :=
  match availableTerminalHeight with
  | None => None
  | Some height =>
      if (optionsLength =? 0)%Z
      then Some (Z.max (height - 2 - 1) 1)
      else Some (Z.max (height - (2 + 1 + 1 + 1 + optionsLength)) 1)
  end.

(** The [bodyContentHeight] of the exec prompt: three options are pushed,
    then 2 is taken off for the padding. *)
Definition execBodyContentHeight (availableTerminalHeight : option Z)
  : option Z :=
  match availableBodyContentHeight 3 availableTerminalHeight with
  | Some height => Some (height - 2)%Z
  | None => None
  end.

(** [handleSubmit] of the password prompt: the context is given the
    value, then the tool's continuation; [t1] and [t2] are the clock of
    each. *)
Definition handleSubmit
           (onConfirm : jsstring -> Z -> ShellToolState -> ShellToolState)
           (value : jsstring) (t1 t2 : Z)
           (st : SudoProvider.State * ShellToolState)
  : SudoProvider.State * ShellToolState :=
  (SudoProvider.setPassword value t1 (fst st), onConfirm value t2 (snd st)).

End ConfirmationMessage.

(* ================================================================== *)
(** ** Katharine configuration *)
(* ================================================================== *)

Module Katharine.

Inductive Personality := Professional | Casual | Friendly.
Inductive ConfirmationLevel := Always | Sensitive | Never.

Record Theme := { useVioletTheme : bool; persistTheme : bool }.
Record Assistant := {
  personality : Personality;
  confirmationLevel : ConfirmationLevel;
  autoExecuteWorkflows : bool
}.
Record Browser := {
  extensionEnabled : bool;
  websocketPort : Z;
  captureScreenshots : bool
}.
Record Privacy := {
  privacyMode : bool;
  storeConversations : bool;
  encryptStorage : bool
}.
Record KatharineConfig := {
  enabled : bool;
  theme : Theme;
  assistant : Assistant;
  browser : Browser;
  privacy : Privacy
}.

(** Settings as they are read: every object and every field may be
    missing ([None] is [undefined] or [null]). *)
Record ThemeSettings := {
  sUseVioletTheme : option bool; sPersistTheme : option bool }.
Record AssistantSettings := {
  sPersonality : option Personality;
  sConfirmationLevel : option ConfirmationLevel;
  sAutoExecuteWorkflows : option bool
}.
Record BrowserSettings := {
  sExtensionEnabled : option bool;
  sWebsocketPort : option Z;
  sCaptureScreenshots : option bool
}.
Record PrivacySettings := {
  sPrivacyMode : option bool;
  sStoreConversations : option bool;
  sEncryptStorage : option bool
}.
Record KatharineSettings := {
  sEnabled : option bool;
  sTheme : option ThemeSettings;
  sAssistant : option AssistantSettings;
  sBrowser : option BrowserSettings;
  sPrivacy : option PrivacySettings
}.

Definition DEFAULT_KATHARINE_CONFIG : KatharineConfig :=
  {| enabled := false;
     theme := {| useVioletTheme := true; persistTheme := true |};
     assistant := {| personality := Friendly;
                     confirmationLevel := Sensitive;
                     autoExecuteWorkflows := false |};
     browser := {| extensionEnabled := false; websocketPort := 8765;
                   captureScreenshots := false |};
     privacy := {| privacyMode := true; storeConversations := true;
                   encryptStorage := true |} |}.

(** [config.enabled === true] on a partial configuration. *)
Definition isKatharineEnabled (enabledField : option bool) : bool :=
  match enabledField with Some true => true | _ => false end.

(** [obj?.field ?? dflt] *)
Definition field {O A : Type} (obj : option O) (get : O -> option A)
           (dflt : A) : A :=
  match obj with
  | Some o => match get o with Some v => v | None => dflt end
  | None => dflt
  end.

(** [getKatharineConfig(settings)]: [katharine] is [settings?.katharine];
    a missing one reads as the empty object. *)
Definition getKatharineConfig (katharine : option KatharineSettings)
  : KatharineConfig :=
  let d := DEFAULT_KATHARINE_CONFIG in
  let sub {O : Type} (get : KatharineSettings -> option O) : option O :=
    match katharine with Some k => get k | None => None end in
  {| enabled := field katharine sEnabled (enabled d);
     theme :=
       {| useVioletTheme :=
            field (sub sTheme) sUseVioletTheme (useVioletTheme (theme d));
          persistTheme :=
            field (sub sTheme) sPersistTheme (persistTheme (theme d)) |};
     assistant :=
       {| personality :=
            field (sub sAssistant) sPersonality (personality (assistant d));
          confirmationLevel :=
            field (sub sAssistant) sConfirmationLevel
                  (confirmationLevel (assistant d));
          autoExecuteWorkflows :=
            field (sub sAssistant) sAutoExecuteWorkflows
                  (autoExecuteWorkflows (assistant d)) |};
     browser :=
       {| extensionEnabled :=
            field (sub sBrowser) sExtensionEnabled
                  (extensionEnabled (browser d));
          websocketPort :=
            field (sub sBrowser) sWebsocketPort (websocketPort (browser d));
          captureScreenshots :=
            field (sub sBrowser) sCaptureScreenshots
                  (captureScreenshots (browser d)) |};
     privacy :=
       {| privacyMode :=
            field (sub sPrivacy) sPrivacyMode (privacyMode (privacy d));
          storeConversations :=
            field (sub sPrivacy) sStoreConversations
                  (storeConversations (privacy d));
          encryptStorage :=
            field (sub sPrivacy) sEncryptStorage
                  (encryptStorage (privacy d)) |} |}.

(** A configuration written out as settings, every field present. *)
Definition toSettings (c : KatharineConfig) : KatharineSettings :=
  {| sEnabled := Some (enabled c);
     sTheme := Some {| sUseVioletTheme := Some (useVioletTheme (theme c));
                       sPersistTheme := Some (persistTheme (theme c)) |};
     sAssistant :=
       Some {| sPersonality := Some (personality (assistant c));
               sConfirmationLevel := Some (confirmationLevel (assistant c));
               sAutoExecuteWorkflows :=
                 Some (autoExecuteWorkflows (assistant c)) |};
     sBrowser :=
       Some {| sExtensionEnabled := Some (extensionEnabled (browser c));
               sWebsocketPort := Some (websocketPort (browser c));
               sCaptureScreenshots := Some (captureScreenshots (browser c)) |};
     sPrivacy :=
       Some {| sPrivacyMode := Some (privacyMode (privacy c));
               sStoreConversations := Some (storeConversations (privacy c));
               sEncryptStorage := Some (encryptStorage (privacy c)) |} |}.

End Katharine.

(* ================================================================== *)
(** ** The workflow engine *)
(* ================================================================== *)

Module WorkflowEngine.

Inductive WorkflowStatus :=
| Pending | Running | Paused | Completed | Failed | Cancelled.

Record WorkflowDefinition := {
  id : jsstring;
  name : jsstring;
  wdescription : jsstring;
  steps : list jsstring;
  dependencies : list jsstring
}.

Record WorkflowResult := {
  workflowId : jsstring;
  status : WorkflowStatus;
  results : list jsstring;
  executionTime : Z
}.

(** A [Map] with string keys: [set] replaces the value of a key that is
    there and adds a new key at the end. *)
Fixpoint mapSet {V : Type} (k : jsstring) (v : V)
         (m : list (jsstring * V)) : list (jsstring * V) :=
  match m with
  | [] => [(k, v)]
  | (k', v') :: rest =>
      if JS.eqb k' k then (k, v) :: rest else (k', v') :: mapSet k v rest
  end.

Fixpoint mapGet {V : Type} (k : jsstring) (m : list (jsstring * V))
  : option V :=
  match m with
  | [] => None
  | (k', v') :: rest => if JS.eqb k' k then Some v' else mapGet k rest
  end.

(** The two maps of a [WorkflowEngineImpl]. *)
Record Engine := {
  workflows : list (jsstring * WorkflowDefinition);
  executions : list (jsstring * WorkflowStatus)
}.

Definition empty : Engine := {| workflows := []; executions := [] |}.

(** [createWorkflow(description)]; [stamp] is the text of [Date.now()]. *)
Definition createWorkflow (description stamp : jsstring) (e : Engine)
  : WorkflowDefinition * Engine :=
  let workflow :=
    {| id := #"workflow-" ++ stamp; name := #"Generated Workflow";
       wdescription := description; steps := []; dependencies := [] |} in
  (workflow,
   {| workflows := mapSet (id workflow) workflow (workflows e);
      executions := executions e |}).

Definition setStatus (workflowId : jsstring) (st : WorkflowStatus)
           (e : Engine) : Engine :=
  {| workflows := workflows e;
     executions := mapSet workflowId st (executions e) |}.

(** [executeWorkflow(workflow)]: the value returned and the engine left;
    the timer it starts is [executeTimer]. *)
Definition executeWorkflow (workflow : WorkflowDefinition) (e : Engine)
  : WorkflowResult * Engine :=
  ({| workflowId := id workflow; status := Completed; results := [];
      executionTime := 1000 |},
   setStatus (id workflow) Running e).

(** The callback of the one-second timer of [executeWorkflow]. *)
Definition executeTimer (workflow : WorkflowDefinition) (e : Engine)
  : Engine :=
  setStatus (id workflow) Completed e.

Definition pauseWorkflow (workflowId : jsstring) (e : Engine) : Engine :=
  setStatus workflowId Paused e.

Definition resumeWorkflow (workflowId : jsstring) (e : Engine) : Engine :=
  setStatus workflowId Running e.

(** [this.executions.get(workflowId) || 'pending'] *)
Definition getWorkflowStatus (workflowId : jsstring) (e : Engine)
  : WorkflowStatus :=
  match mapGet workflowId (executions e) with
  | Some st => st
  | None => Pending
  end.

End WorkflowEngine.

(* ================================================================== *)
(** ** Vocabulary of the further statements *)
(* ================================================================== *)

Module MoreVocabulary.

(** The stripped text of a chunk as the tool's listeners read it. *)
Definition chunkText (sp : ShellToolExecute.Spawn) (data : Buffer)
  : jsstring :=
  stripAnsi (ShellToolExecute.host sp)
            (bufferToString (ShellToolExecute.host sp) data).

(** The text of the chunks delivered before the first exit event, in
    order of arrival: of stdout, of stderr, or of both. *)
Fixpoint receivedText (sp : ShellToolExecute.Spawn) (out err : bool)
         (events : list ShellToolExecute.Event) : jsstring :=
  match events with
  | [] => []
  | ShellToolExecute.StdoutData d _ :: rest =>
      (if out then chunkText sp d else []) ++ receivedText sp out err rest
  | ShellToolExecute.StderrData d _ :: rest =>
      (if err then chunkText sp d else []) ++ receivedText sp out err rest
  | ShellToolExecute.ExitEvent _ _ _ :: _ => []
  | _ :: rest => receivedText sp out err rest
  end.

(** [lines] are the lines of [content]: put back together with a line
    feed between them they give [content], and none holds a line feed. *)
Definition linesOf (content : jsstring) (lines : list jsstring) : Prop :=
  lines <> []
  /\ join [10%N] lines = content
  /\ Forall (fun line => ~ In 10%N line) lines.

(** [u] is the beginning of [s]. *)
Definition isPrefixOf (u s : jsstring) : Prop := exists rest, s = u ++ rest.

(** Each time is more than a second after the one before. *)
Fixpoint spaced (previous : Z) (times : list Z) : Prop :=
  match times with
  | [] => True
  | t :: rest => (previous + 1000 < t)%Z /\ spaced t rest
  end.

(** [l] is [m] with some elements left out. *)
Fixpoint isSublist {A : Type} (l m : list A) : Prop :=
  match l, m with
  | [], _ => True
  | _ :: _, [] => False
  | x :: l', y :: m' => (x = y /\ isSublist l' m') \/ isSublist l m'
  end.

(** The calls made on a workflow engine; [CallTimer] is the timer of an
    earlier [executeWorkflow] firing. *)
Inductive WorkflowCall :=
| CallCreate (description stamp : jsstring)
| CallExecute (workflow : WorkflowEngine.WorkflowDefinition)
| CallTimer (workflow : WorkflowEngine.WorkflowDefinition)
| CallPause (workflowId : jsstring)
| CallResume (workflowId : jsstring).

Definition callEngine (e : WorkflowEngine.Engine) (c : WorkflowCall)
  : WorkflowEngine.Engine :=
  match c with
  | CallCreate description stamp =>
      snd (WorkflowEngine.createWorkflow description stamp e)
  | CallExecute workflow => snd (WorkflowEngine.executeWorkflow workflow e)
  | CallTimer workflow => WorkflowEngine.executeTimer workflow e
  | CallPause workflowId => WorkflowEngine.pauseWorkflow workflowId e
  | CallResume workflowId => WorkflowEngine.resumeWorkflow workflowId e
  end.

Definition callsEngine (e : WorkflowEngine.Engine)
           (calls : list WorkflowCall) : WorkflowEngine.Engine :=
  fold_left callEngine calls e.

(** The status a call writes, and the id it writes it for. *)
Definition statusWritten (c : WorkflowCall)
  : option (jsstring * WorkflowEngine.WorkflowStatus) :=
  match c with
  | CallCreate _ _ => None
  | CallExecute workflow =>
      Some (WorkflowEngine.id workflow, WorkflowEngine.Running)
  | CallTimer workflow =>
      Some (WorkflowEngine.id workflow, WorkflowEngine.Completed)
  | CallPause workflowId => Some (workflowId, WorkflowEngine.Paused)
  | CallResume workflowId => Some (workflowId, WorkflowEngine.Running)
  end.

(** The definition a call stores, and the id it stores it under. *)
Definition definitionStored (c : WorkflowCall)
  : option (jsstring * WorkflowEngine.WorkflowDefinition) :=
  match c with
  | CallCreate description stamp =>
      Some (#"workflow-" ++ stamp,
            {| WorkflowEngine.id := #"workflow-" ++ stamp;
               WorkflowEngine.name := #"Generated Workflow";
               WorkflowEngine.wdescription := description;
               WorkflowEngine.steps := [];
               WorkflowEngine.dependencies := [] |})
  | _ => None
  end.

(** The value the last of the calls put under the key [k], and [before]
    when none of them did. *)
Fixpoint lastPut {V : Type} (put : WorkflowCall -> option (jsstring * V))
         (k : jsstring) (calls : list WorkflowCall) (before : V) : V :=
  match calls with
  | [] => before
  | c :: rest =>
      lastPut put k rest
        match put c with
        | Some (k', v) =>
            if list_eq_dec N.eq_dec k' k then v else before
        | None => before
        end
  end.

(** The kill is a signal to the process group or the child (not the
    Windows tree kill). *)
Definition isSignal (k : KillAction) : Prop :=
  match k with TaskKill _ => False | _ => True end.

(** The result [r] with another text as its output. *)
Definition withOutput (r : ShellExecutionResult) (text : jsstring)
  : ShellExecutionResult :=
  {| rawOutput := rawOutput r; resultOutput := text;
     exitCode := exitCode r; resultSignal := resultSignal r;
     resultError := resultError r; resultAborted := resultAborted r;
     finalPwd := finalPwd r |}.

(** [s] ends with [suffix]. *)
Definition isSuffixOf (suffix s : jsstring) : Prop :=
  exists front, s = front ++ suffix.

End MoreVocabulary.

(* ================================================================== *)
(** * Properties *)
(* ================================================================== *)

(** ** String primitives against their list readings *)

Module JSFacts.

Lemma eqb_eq (a b : jsstring) : JS.eqb a b = true <-> a = b.
Proof.
  revert b; induction a as [|x a IH]; intros [|y b]; simpl;
    try (split; [discriminate | congruence]); try tauto.
  rewrite andb_true_iff, N.eqb_eq, IH.
  split; [intros [-> ->]; reflexivity | intros H; inversion H; auto].
Qed.

Lemma eqb_refl (a : jsstring) : JS.eqb a a = true.
Proof. apply eqb_eq; reflexivity. Qed.

Lemma arrayIncludes_In (arr : list jsstring) (x : jsstring) :
  arrayIncludes arr x = true <-> In x arr.
Proof.
  unfold arrayIncludes; rewrite existsb_exists; split.
  - intros (y & Hy & E); apply eqb_eq in E; subst; assumption.
  - intros H; exists x; split; [assumption | apply eqb_refl].
Qed.

Lemma startsWith_app (p r : jsstring) : startsWith (p ++ r) p = true.
Proof.
  induction p as [|y p IH]; simpl; [reflexivity|].
  rewrite N.eqb_refl; exact IH.
Qed.

Lemma startsWith_iff (s p : jsstring) :
  startsWith s p = true <-> exists r, s = p ++ r.
Proof.
  split.
  - revert s; induction p as [|y p IH]; intros s H; simpl in *.
    + exists s; reflexivity.
    + destruct s as [|x s]; [discriminate|].
      apply andb_true_iff in H as [E H]; apply N.eqb_eq in E; subst.
      destruct (IH _ H) as [r ->]; exists r; reflexivity.
  - intros [r ->]; apply startsWith_app.
Qed.

Lemma includes_unfold (s p : jsstring) :
  includes s p =
  startsWith s p || match s with [] => false | _ :: s' => includes s' p end.
Proof. destruct s; reflexivity. Qed.

Lemma includes_iff (s p : jsstring) :
  includes s p = true <-> exists a b, s = a ++ p ++ b.
Proof.
  split.
  - induction s as [|x s IH]; simpl; rewrite orb_true_iff.
    + intros [H|H]; [|discriminate].
      apply startsWith_iff in H as [r Hr]; exists [], r; exact Hr.
    + intros [H|H].
      * apply startsWith_iff in H as [r Hr]; exists [], r; exact Hr.
      * destruct (IH H) as (a & b & ->); exists (x :: a), b; reflexivity.
  - intros (a & b & ->).
    induction a as [|x a IH]; simpl.
    + rewrite includes_unfold, startsWith_app; reflexivity.
    + rewrite IH; apply orb_true_r.
Qed.

End JSFacts.

(** ** The command gate *)

Module GateFacts.
Import ShellTool Vocabulary JSFacts.

Lemma isPrefixedBy_iff (cmd prefix : jsstring) :
  isPrefixedBy cmd prefix = true <-> PrefixMatch cmd prefix.
Proof.
  unfold isPrefixedBy, PrefixMatch.
  destruct (startsWith cmd prefix) eqn:E; simpl.
  - apply startsWith_iff in E as [r ->].
    unfold charAtIs.
    rewrite length_app, nth_error_app2, Nat.sub_diag by lia.
    split.
    + intros H; exists r; split; [reflexivity|].
      destruct r as [|x r]; [left; reflexivity|right].
      simpl in H. apply orb_true_iff in H as [H|H].
      * apply Nat.eqb_eq in H; lia.
      * apply N.eqb_eq in H; subst; exists r; reflexivity.
    + intros (rest & Heq & Hrest).
      apply app_inv_head in Heq; subst rest.
      destruct Hrest as [->|[r' ->]]; simpl.
      * rewrite Nat.add_0_r, Nat.eqb_refl; reflexivity.
      * apply orb_true_iff; right; reflexivity.
  - split; [discriminate|].
    intros (rest & -> & _); rewrite startsWith_app in E; discriminate.
Qed.

Lemma existsb_newSet (f : jsstring -> bool) (arr seen : list jsstring) :
  existsb f (newSet seen arr) || existsb f seen
  = existsb f arr || existsb f seen.
Proof.
  revert seen; induction arr as [|x arr IH]; intros seen; simpl;
    [reflexivity|].
  destruct (arrayIncludes seen x) eqn:E.
  - rewrite IH. destruct (f x) eqn:Fx; [|reflexivity].
    apply arrayIncludes_In in E.
    assert (existsb f seen = true) as ->
        by (apply existsb_exists; exists x; auto).
    rewrite !orb_true_r; reflexivity.
  - simpl. specialize (IH (x :: seen)); simpl in IH.
    destruct (f x); simpl; [reflexivity|].
    simpl in IH; exact IH.
Qed.

Lemma existsb_newSet_nil (f : jsstring -> bool) (arr : list jsstring) :
  existsb f (newSet [] arr) = existsb f arr.
Proof.
  pose proof (existsb_newSet f arr []) as H; simpl in H.
  rewrite !orb_false_r in H; exact H.
Qed.

Lemma newSet_nil_size (arr : list jsstring) :
  Nat.eqb (List.length (newSet [] arr)) 0 = true <-> arr = [].
Proof.
  destruct arr as [|x arr]; simpl; split; auto; discriminate.
Qed.

Lemma existsb_names (arr : list jsstring) :
  existsb (fun name => arrayIncludes arr name) SHELL_TOOL_NAMES = true
  <-> exists name, In name SHELL_TOOL_NAMES /\ In name arr.
Proof.
  rewrite existsb_exists; split; intros (n & Hn & H); exists n;
    (split; [assumption | apply arrayIncludes_In; assumption]).
Qed.

Lemma validateCommands_true (blocked allowed : list jsstring)
      (strict : bool) (cmds : list jsstring) :
  validateCommands blocked allowed strict cmds = true <->
  forall cmd, In cmd cmds ->
    existsb (fun b => isPrefixedBy cmd b) blocked = false
    /\ (strict = true ->
        existsb (fun a => isPrefixedBy cmd a) allowed = true).
Proof.
  induction cmds as [|cmd cmds IH]; simpl.
  - split; [intros _ ? [] | reflexivity].
  - destruct (existsb (fun b => isPrefixedBy cmd b) blocked) eqn:B.
    + split; [discriminate|].
      intros H; destruct (H cmd (or_introl eq_refl)); congruence.
    + destruct strict; simpl.
      * destruct (existsb (fun a => isPrefixedBy cmd a) allowed) eqn:A;
          simpl.
        -- rewrite IH; split.
           ++ intros H c [<-|Hc]; [auto | apply H; assumption].
           ++ intros H c Hc; apply H; right; assumption.
        -- split; [discriminate|].
           intros H; destruct (H cmd (or_introl eq_refl)) as [_ H'].
           specialize (H' eq_refl); congruence.
      * rewrite IH; split.
        -- intros H c [<-|Hc]; [split; [assumption | discriminate]
                               | apply H; assumption].
        -- intros H c Hc; apply H; right; assumption.
Qed.

Lemma existsb_prefix (cmd : jsstring) (entries : list jsstring) :
  existsb (fun e => isPrefixedBy cmd e) entries = true
  <-> exists e, In e entries /\ PrefixMatch cmd e.
Proof.
  rewrite existsb_exists; split; intros (e & He & H); exists e;
    (split; [assumption | apply isPrefixedBy_iff; assumption]).
Qed.

(** The gate accepts exactly the commands without command substitution,
    for a tool not denied outright, all of whose normalized sub-commands
    pass the deny and allow prefixes. *)
Lemma isCommandAllowed_iff (config : Config) (command : jsstring) :
  isCommandAllowed config command = true <->
  ~ HasSubstring command #"$(" /\ ~ HasSubstring command #"`"
  /\ ~ toolDenied config
  /\ forall sub, In sub (subCommands command) ->
                 subCommandPasses config sub.
Proof.
  unfold isCommandAllowed, subCommandPasses, strictAllowlist,
    toolDenied, wildcardAllowed, subCommands, denyEntries, allowEntries.
  set (core := orEmpty (getCoreTools config)).
  set (excl := orEmpty (getExcludeTools config)).
  destruct (includes command #"$(") eqn:S1; cbn [orb].
  { split; [discriminate|]. intros (H & _).
    exfalso; apply H, includes_iff; assumption. }
  destruct (includes command #"`") eqn:S2; cbn [orb].
  { split; [discriminate|]. intros (_ & H & _).
    exfalso; apply H, includes_iff; assumption. }
  destruct (existsb (fun name => arrayIncludes excl name) SHELL_TOOL_NAMES)
    eqn:D.
  { split; [discriminate|]. intros (_ & _ & H & _).
    exfalso; apply H, existsb_names; assumption. }
  rewrite validateCommands_true.
  assert (N1 : ~ HasSubstring command #"$(")
    by (intros H; apply includes_iff in H; congruence).
  assert (N2 : ~ HasSubstring command #"`")
    by (intros H; apply includes_iff in H; congruence).
  assert (N3 : ~ exists name, In name SHELL_TOOL_NAMES /\ In name excl)
    by (intros H; apply existsb_names in H; congruence).
  split.
  - intros H; repeat (split; [assumption|]).
    intros sub Hsub; destruct (H sub Hsub) as [Hb Ha]; split.
    + intros d Hd Hm.
      rewrite existsb_newSet_nil in Hb.
      assert (existsb (fun b => isPrefixedBy sub b) (extractCommands excl)
              = true) by (apply existsb_prefix; eauto).
      congruence.
    + intros [Hne Hnw].
      rewrite existsb_newSet_nil in Ha.
      apply existsb_prefix, Ha.
      apply andb_true_iff; split.
      * apply negb_true_iff.
        destruct (Nat.eqb _ 0) eqn:E; [|reflexivity].
        apply newSet_nil_size in E; contradiction.
      * apply negb_true_iff.
        destruct (existsb (fun name => arrayIncludes core name)
                          SHELL_TOOL_NAMES) eqn:E; [|reflexivity].
        apply existsb_names in E; contradiction.
  - intros (_ & _ & _ & H) cmd Hcmd.
    destruct (H cmd Hcmd) as [Hd Ha].
    rewrite !existsb_newSet_nil; split.
    + destruct (existsb _ (extractCommands excl)) eqn:E; [|reflexivity].
      apply existsb_prefix in E as (d & Hin & Hm).
      exfalso; exact (Hd d Hin Hm).
    + intros Hs. apply andb_true_iff in Hs as [Hs1 Hs2].
      apply existsb_prefix, Ha; split.
      * intros E. apply negb_true_iff in Hs1.
        assert (Nat.eqb (List.length (newSet [] (extractCommands core))) 0
                = true) by (apply newSet_nil_size; assumption).
        congruence.
      * intros E. apply negb_true_iff in Hs2.
        apply existsb_names in E; congruence.
Qed.

End GateFacts.

(** ** Splitting a command into sub-commands *)

Module SplitFacts.
Import ShellTool Vocabulary JSFacts.

Lemma splitCommands_unfold (s : jsstring) :
  splitCommands s =
  match s with
  | [] => [[]]
  | c :: r =>
      match r with
      | d :: r' =>
          if (c =? AMP)%N && (d =? AMP)%N then [] :: splitCommands r'
          else if (c =? BAR)%N && (d =? BAR)%N then [] :: splitCommands r'
          else if (c =? BAR)%N then [] :: splitCommands r
          else if (c =? SEMI)%N then [] :: splitCommands r
          else consHead c (splitCommands r)
      | [] =>
          if (c =? BAR)%N then [] :: splitCommands r
          else if (c =? SEMI)%N then [] :: splitCommands r
          else consHead c (splitCommands r)
      end
  end.
Proof. destruct s as [|c [|d r']]; reflexivity. Qed.

Lemma not_sub_tail (c : N) (s p : jsstring) :
  ~ HasSubstring (c :: s) p -> ~ HasSubstring s p.
Proof.
  intros H (a & b & ->); apply H; exists (c :: a), b; reflexivity.
Qed.

Lemma not_sub_cons (c : N) (s p : jsstring) :
  startsWith (c :: s) p = false -> ~ HasSubstring s p ->
  ~ HasSubstring (c :: s) p.
Proof.
  intros Hs Hn H. apply includes_iff in H.
  rewrite includes_unfold, Hs in H; simpl in H.
  apply Hn, includes_iff; assumption.
Qed.

Lemma not_sub_char (c x : N) (s : jsstring) :
  ~ HasSubstring (c :: s) [x] -> c <> x.
Proof.
  intros H ->; apply H; exists [], s; reflexivity.
Qed.

(** A command without [&&], [|] and [;] is a single sub-command: a lone
    [&] does not split it. *)
Lemma splitCommands_single (s : jsstring) :
  separatorFree s -> splitCommands s = [s].
Proof.
  unfold separatorFree.
  induction s as [|c r IH]; intros (H1 & H2 & H3); [reflexivity|].
  rewrite splitCommands_unfold.
  assert (Hc1 : (c =? BAR)%N = false)
    by (apply N.eqb_neq; exact (not_sub_char _ _ _ H2)).
  assert (Hc2 : (c =? SEMI)%N = false)
    by (apply N.eqb_neq; exact (not_sub_char _ _ _ H3)).
  rewrite IH
    by (repeat split; eapply not_sub_tail; eassumption).
  rewrite Hc1, Hc2; simpl.
  destruct r as [|d r']; [reflexivity|].
  destruct ((c =? AMP)%N && (d =? AMP)%N) eqn:E; [|reflexivity].
  apply andb_true_iff in E as [E1 E2].
  apply N.eqb_eq in E1, E2; subst.
  exfalso; apply H1; exists [], r'; reflexivity.
Qed.

Lemma interleave_head (h : jsstring) (t seps : list jsstring) :
  exists rest, interleave (h :: t) seps = h ++ rest.
Proof.
  destruct seps as [|s ss]; simpl.
  - exists []; rewrite app_nil_r; reflexivity.
  - eexists; reflexivity.
Qed.

Lemma interleave_consHead (c : N) (h : jsstring) (t seps : list jsstring) :
  interleave (consHead c (h :: t)) seps = c :: interleave (h :: t) seps.
Proof. destruct seps; reflexivity. Qed.

Lemma separatorFree_nil : separatorFree [].
Proof.
  repeat split; intros (a & b & H); destruct a; discriminate.
Qed.

(** The pieces of the split, put back together with the separators that
    were removed, give the command; no piece holds a separator. *)
Lemma splitCommands_sound_bounded (n : nat) :
  forall s, List.length s <= n ->
  exists seps,
    List.length (splitCommands s) = S (List.length seps)
    /\ Forall isSeparator seps
    /\ interleave (splitCommands s) seps = s
    /\ Forall separatorFree (splitCommands s).
Proof.
  induction n as [|n IH]; intros s Hlen.
  { destruct s; [|simpl in Hlen; lia].
    exists []; split; [reflexivity|]; split; [constructor|].
    split; [reflexivity|]; repeat constructor; apply separatorFree_nil. }
  destruct s as [|c r].
  { exists []; split; [reflexivity|]; split; [constructor|].
    split; [reflexivity|]; repeat constructor; apply separatorFree_nil. }
  simpl in Hlen.
  assert (Hr : List.length r <= n) by lia.
  destruct (IH r Hr) as (seps & L & Sp & I & F).
  assert (Sep : forall sep rest,
    isSeparator sep -> List.length rest <= n ->
    splitCommands (c :: r) = [] :: splitCommands rest ->
    c :: r = sep ++ rest ->
    exists seps0,
      List.length (splitCommands (c :: r)) = S (List.length seps0)
      /\ Forall isSeparator seps0
      /\ interleave (splitCommands (c :: r)) seps0 = c :: r
      /\ Forall separatorFree (splitCommands (c :: r))).
  { intros sep rest Hsep Hrest Heq Hcr.
    destruct (IH rest Hrest) as (seps' & L' & Sp' & I' & F').
    exists (sep :: seps'); rewrite Heq; simpl.
    split; [congruence|]; split; [constructor; assumption|].
    split; [|constructor; [apply separatorFree_nil | assumption]].
    destruct (splitCommands rest) as [|h t]; [discriminate|].
    rewrite I'; symmetry; exact Hcr. }
  assert (Plain : (c =? BAR)%N = false -> (c =? SEMI)%N = false ->
    (forall d r', r = d :: r' -> (c =? AMP)%N && (d =? AMP)%N = false) ->
    splitCommands (c :: r) = consHead c (splitCommands r) ->
    exists seps0,
      List.length (splitCommands (c :: r)) = S (List.length seps0)
      /\ Forall isSeparator seps0
      /\ interleave (splitCommands (c :: r)) seps0 = c :: r
      /\ Forall separatorFree (splitCommands (c :: r))).
  { intros Hb Hs Ha Heq. rewrite Heq.
    destruct (splitCommands r) as [|h t] eqn:E; [discriminate|].
    exists seps. rewrite interleave_consHead, I. simpl.
    split; [exact L|]; split; [exact Sp|]; split; [reflexivity|].
    apply Forall_cons_iff in F as [(F1 & F2 & F3) Ft].
    constructor; [|assumption].
    destruct (interleave_head h t seps) as [rest Hrest].
    rewrite I in Hrest.
    repeat split; apply not_sub_cons; auto.
    - destruct h as [|d h']; simpl; [apply andb_false_r|].
      rewrite andb_true_r. simpl in Hrest.
      exact (Ha d _ Hrest).
    - simpl; rewrite andb_true_r; exact Hb.
    - simpl; rewrite andb_true_r; exact Hs. }
  destruct r as [|d r'].
  - destruct (N.eqb_spec c BAR) as [->|Hb].
    { apply (Sep #"|" []);
        [unfold isSeparator; auto | simpl; lia | reflexivity..]. }
    destruct (N.eqb_spec c SEMI) as [->|Hs].
    { apply (Sep #";" []);
        [unfold isSeparator; auto | simpl; lia | reflexivity..]. }
    apply N.eqb_neq in Hb, Hs.
    apply Plain; [auto | auto | intros ? ? ?; discriminate |].
    rewrite splitCommands_unfold, Hb, Hs; reflexivity.
  - assert (Hr' : List.length r' <= n) by (simpl in Hr; lia).
    destruct ((c =? AMP)%N && (d =? AMP)%N) eqn:E1.
    { apply andb_true_iff in E1 as [Ec Ed].
      apply N.eqb_eq in Ec, Ed; subst.
      apply (Sep #"&&" r');
        [unfold isSeparator; auto | assumption | reflexivity..]. }
    destruct ((c =? BAR)%N && (d =? BAR)%N) eqn:E2.
    { apply andb_true_iff in E2 as [Ec Ed].
      apply N.eqb_eq in Ec, Ed; subst.
      apply (Sep #"||" r');
        [unfold isSeparator; auto | assumption | reflexivity..]. }
    destruct (N.eqb_spec c BAR) as [->|Hb].
    { apply (Sep #"|" (d :: r'));
        [unfold isSeparator; auto | assumption | | reflexivity].
      rewrite splitCommands_unfold.
      change (BAR =? AMP)%N with false; change (BAR =? BAR)%N with true.
      cbn [andb]; simpl in E2; rewrite E2; reflexivity. }
    destruct (N.eqb_spec c SEMI) as [->|Hs].
    { apply (Sep #";" (d :: r'));
        [unfold isSeparator; auto | assumption | | reflexivity].
      rewrite splitCommands_unfold.
      change (SEMI =? AMP)%N with false; change (SEMI =? BAR)%N with false.
      change (SEMI =? SEMI)%N with true; reflexivity. }
    apply N.eqb_neq in Hb, Hs.
    apply Plain; [auto | auto | |].
    + intros d0 r0 Heq; inversion Heq; subst; assumption.
    + rewrite splitCommands_unfold, E1, Hb, Hs; reflexivity.
Qed.

Lemma splitCommands_sound (s : jsstring) :
  exists seps,
    List.length (splitCommands s) = S (List.length seps)
    /\ Forall isSeparator seps
    /\ interleave (splitCommands s) seps = s
    /\ Forall separatorFree (splitCommands s).
Proof. exact (splitCommands_sound_bounded _ s (le_n (List.length s))). Qed.

Lemma separator_nonempty (sep : jsstring) : isSeparator sep -> sep <> [].
Proof. intros [->|[->|[->| ->]]]; discriminate. Qed.

(** In front of a separator taken leftmost, a separator-free piece comes
    out of the split as it is. *)
Lemma splitCommands_at (piece sep rest : jsstring) :
  separatorFree piece -> isSeparator sep ->
  (sep = #"&&" -> forall front, piece <> front ++ #"&") ->
  (sep = #"|" -> forall back, rest <> #"|" ++ back) ->
  splitCommands (piece ++ sep ++ rest) = piece :: splitCommands rest.
Proof.
  intros Hf Hs H3 H4; induction piece as [|c p IH].
  - destruct Hs as [->|[->|[->| ->]]]; simpl app;
      rewrite splitCommands_unfold; try reflexivity.
    + destruct rest as [|d r']; [reflexivity|].
      destruct (N.eqb_spec d BAR) as [->|Hd];
        [exfalso; exact (H4 eq_refl r' eq_refl)|].
      reflexivity.
    + destruct rest; reflexivity.
  - destruct Hf as (F1 & F2 & F3).
    assert (Hc1 : (c =? BAR)%N = false)
      by (apply N.eqb_neq; exact (not_sub_char _ _ _ F2)).
    assert (Hc2 : (c =? SEMI)%N = false)
      by (apply N.eqb_neq; exact (not_sub_char _ _ _ F3)).
    assert (IH' : splitCommands (p ++ sep ++ rest)
                  = p :: splitCommands rest).
    { apply IH.
      - repeat split; eapply not_sub_tail; eassumption.
      - intros E front ->. exact (H3 E (c :: front) eq_refl). }
    simpl app. rewrite splitCommands_unfold, IH'.
    destruct (p ++ sep ++ rest) as [|d r'] eqn:R.
    { exfalso. apply app_eq_nil in R as [_ R].
      apply app_eq_nil in R as [R _].
      exact (separator_nonempty sep Hs R). }
    assert (T : (c =? AMP)%N && (d =? AMP)%N = false).
    { destruct ((c =? AMP)%N && (d =? AMP)%N) eqn:E; [|reflexivity].
      apply andb_true_iff in E as [Ec Ed].
      apply N.eqb_eq in Ec, Ed; subst c d. exfalso.
      destruct p as [|d0 p0].
      - simpl in R.
        destruct Hs as [->|[->|[->| ->]]]; try discriminate R.
        exact (H3 eq_refl [] eq_refl).
      - inversion R; subst. apply F1; exists [], p0; reflexivity. }
    rewrite T, Hc1, Hc2; cbn [andb]. reflexivity.
Qed.

(** The split is the leftmost one, and there is no other. *)
Lemma SplitsInto_splitCommands (s : jsstring) (pieces : list jsstring) :
  SplitsInto s pieces -> splitCommands s = pieces.
Proof.
  induction 1 as [piece Hf|piece sep rest pieces Hf Hs H3 H4 _ IH].
  - apply splitCommands_single, Hf.
  - rewrite splitCommands_at by assumption. rewrite IH; reflexivity.
Qed.

Lemma splitCommands_leftmost_bounded (n : nat) :
  forall s, List.length s <= n -> SplitsInto s (splitCommands s).
Proof.
  induction n as [|n IH]; intros s Hlen.
  { destruct s; [|simpl in Hlen; lia].
    apply splits_last, separatorFree_nil. }
  destruct s as [|c r]; [apply splits_last, separatorFree_nil|].
  simpl in Hlen.
  assert (Hr : List.length r <= n) by lia.
  assert (Sep : forall sep rest,
    isSeparator sep -> List.length rest <= n ->
    (sep = #"|" -> forall back, rest <> #"|" ++ back) ->
    splitCommands (c :: r) = [] :: splitCommands rest ->
    c :: r = sep ++ rest ->
    SplitsInto (c :: r) (splitCommands (c :: r))).
  { intros sep rest Hsep Hrest H4 Heq Hcr.
    rewrite Heq, Hcr.
    apply (splits_at [] sep rest (splitCommands rest));
      [apply separatorFree_nil | exact Hsep | | exact H4
      | apply IH, Hrest].
    intros _ front E; destruct front; discriminate E. }
  assert (Plain : (c =? BAR)%N = false -> (c =? SEMI)%N = false ->
    (forall d r', r = d :: r' -> (c =? AMP)%N && (d =? AMP)%N = false) ->
    splitCommands (c :: r) = consHead c (splitCommands r) ->
    SplitsInto (c :: r) (splitCommands (c :: r))).
  { intros Hb Hs Ha Heq. rewrite Heq.
    assert (Free : forall piece tail,
      separatorFree piece -> r = piece ++ tail ->
      separatorFree (c :: piece)).
    { intros piece tail (F1 & F2 & F3) E.
      repeat split; apply not_sub_cons; auto.
      - destruct piece as [|d p]; simpl; [apply andb_false_r|].
        rewrite andb_true_r. exact (Ha d _ E).
      - simpl; rewrite andb_true_r; exact Hb.
      - simpl; rewrite andb_true_r; exact Hs. }
    pose proof (IH r Hr) as S.
    inversion S as [piece Hf|piece sep rest pieces Hf Hsep H3 H4 Hrest].
    - simpl. apply splits_last.
      apply (Free r []); [exact Hf | rewrite app_nil_r; reflexivity].
    - simpl.
      change (c :: piece ++ sep ++ rest) with ((c :: piece) ++ sep ++ rest).
      apply splits_at; try assumption.
      + apply (Free piece (sep ++ rest));
          [exact Hf | first [reflexivity | assumption | symmetry; assumption]].
      + intros E front Hfr.
        destruct front as [|x front]; simpl in Hfr.
        * inversion Hfr; subst.
          specialize (Ha 38%N (38%N :: rest) eq_refl).
          discriminate Ha.
        * inversion Hfr; subst. exact (H3 eq_refl front eq_refl). }
  destruct r as [|d r'].
  - destruct (N.eqb_spec c BAR) as [->|Hb].
    { apply (Sep #"|" []);
        [unfold isSeparator; auto | simpl; lia
        | intros _ back E; discriminate E | reflexivity..]. }
    destruct (N.eqb_spec c SEMI) as [->|Hs].
    { apply (Sep #";" []);
        [unfold isSeparator; auto | simpl; lia
        | intros E; discriminate E | reflexivity..]. }
    apply N.eqb_neq in Hb, Hs.
    apply Plain; [auto | auto | intros ? ? ?; discriminate |].
    rewrite splitCommands_unfold, Hb, Hs; reflexivity.
  - assert (Hr' : List.length r' <= n) by (simpl in Hr; lia).
    destruct ((c =? AMP)%N && (d =? AMP)%N) eqn:E1.
    { apply andb_true_iff in E1 as [Ec Ed].
      apply N.eqb_eq in Ec, Ed; subst.
      apply (Sep #"&&" r');
        [unfold isSeparator; auto | assumption
        | intros E; discriminate E | reflexivity..]. }
    destruct ((c =? BAR)%N && (d =? BAR)%N) eqn:E2.
    { apply andb_true_iff in E2 as [Ec Ed].
      apply N.eqb_eq in Ec, Ed; subst.
      apply (Sep #"||" r');
        [unfold isSeparator; auto | assumption
        | intros E; discriminate E | reflexivity..]. }
    destruct (N.eqb_spec c BAR) as [->|Hb].
    { apply (Sep #"|" (d :: r'));
        [unfold isSeparator; auto | assumption | | | reflexivity].
      - intros _ back E; inversion E; subst.
        vm_compute in E2; discriminate E2.
      - rewrite splitCommands_unfold.
        change (BAR =? AMP)%N with false; change (BAR =? BAR)%N with true.
        cbn [andb]; simpl in E2; rewrite E2; reflexivity. }
    destruct (N.eqb_spec c SEMI) as [->|Hs].
    { apply (Sep #";" (d :: r'));
        [unfold isSeparator; auto | assumption
        | intros E; discriminate E | | reflexivity].
      rewrite splitCommands_unfold.
      change (SEMI =? AMP)%N with false; change (SEMI =? BAR)%N with false.
      change (SEMI =? SEMI)%N with true; reflexivity. }
    apply N.eqb_neq in Hb, Hs.
    apply Plain; [auto | auto | |].
    + intros d0 r0 Heq; inversion Heq; subst; assumption.
    + rewrite splitCommands_unfold, E1, Hb, Hs; reflexivity.
Qed.

Lemma splitCommands_leftmost (s : jsstring) :
  SplitsInto s (splitCommands s).
Proof.
  exact (splitCommands_leftmost_bounded _ s (le_n (List.length s))).
Qed.

End SplitFacts.

(** ** Normalization of commands *)

Module NormalizeFacts.
Import ShellTool Vocabulary JSFacts.

Lemma dropWhile_app_keep (f : N -> bool) (w : jsstring) (c : N)
      (t : jsstring) :
  f c = false -> dropWhile f (w ++ c :: t) = dropWhile f w ++ c :: t.
Proof.
  intros Hc; induction w as [|x w IH]; simpl.
  - rewrite Hc; reflexivity.
  - destruct (f x); [exact IH | reflexivity].
Qed.

Lemma dropWhile_head (f : N -> bool) (s : jsstring) (c : N)
      (t : jsstring) :
  dropWhile f s = c :: t -> f c = false.
Proof.
  induction s as [|x s IH]; simpl; [discriminate|].
  destruct (f x) eqn:E; [exact IH|].
  intros H; inversion H; subst; exact E.
Qed.

Lemma trimEnd_app_keep (u : jsstring) (c : N) (v : jsstring) :
  isWhiteSpace c = false -> trimEnd (u ++ c :: v) = u ++ c :: trimEnd v.
Proof.
  intros Hc; unfold trimEnd.
  rewrite rev_app_distr; simpl rev; rewrite <- app_assoc; simpl app.
  rewrite dropWhile_app_keep by assumption.
  rewrite rev_app_distr; simpl rev.
  rewrite rev_involutive, <- app_assoc; reflexivity.
Qed.

Lemma collapseFrom_app_keep (b : bool) (u : jsstring) (c : N)
      (v : jsstring) :
  isWhiteSpace c = false ->
  collapseFrom b (u ++ c :: v)
  = collapseFrom b u ++ c :: collapseFrom false v.
Proof.
  intros Hc; revert b; induction u as [|x u IH]; intros b; simpl.
  - rewrite Hc; reflexivity.
  - destruct (isWhiteSpace x); [destruct b|]; simpl; rewrite IH;
      reflexivity.
Qed.

(** Collapsing whitespace runs is idempotent. *)
Lemma collapseFrom_idem (u : jsstring) :
  (forall b, collapseFrom false (collapseFrom b u) = collapseFrom b u)
  /\ collapseFrom true (collapseFrom true u) = collapseFrom true u.
Proof.
  induction u as [|x u [IH1 IH2]]; [split; [intros b|]; reflexivity|].
  split; [intros b|]; simpl.
  - destruct (isWhiteSpace x) eqn:E; [destruct b|]; simpl.
    + apply IH1.
    + change (isWhiteSpace SPACE) with true; cbv iota.
      rewrite IH2; reflexivity.
    + rewrite E, IH1; reflexivity.
  - destruct (isWhiteSpace x) eqn:E; simpl.
    + exact IH2.
    + rewrite E, IH1; reflexivity.
Qed.

Lemma trim_first (y : jsstring) :
  trim y = [] \/ exists c t, trim y = c :: t /\ isWhiteSpace c = false.
Proof.
  unfold trim, trimStart.
  destruct (dropWhile isWhiteSpace y) as [|c t] eqn:E; [left; reflexivity|].
  right. pose proof (dropWhile_head _ _ _ _ E) as Hc.
  exists c, (trimEnd t); split; [|assumption].
  exact (trimEnd_app_keep [] c t Hc).
Qed.

Lemma trim_last (y : jsstring) :
  trim y = [] \/ exists t c, trim y = t ++ [c] /\ isWhiteSpace c = false.
Proof.
  unfold trim, trimEnd.
  destruct (dropWhile isWhiteSpace (rev (trimStart y))) as [|c t] eqn:E;
    [left; reflexivity|].
  right; exists (rev t), c; split; [reflexivity|].
  exact (dropWhile_head _ _ _ _ E).
Qed.

(** A non-empty normalized command starts with a non-blank, and stays as
    it is in front of a space when the whole is collapsed again. *)
Lemma normalize_shape (y : jsstring) :
  normalize y <> [] ->
  (exists c t, normalize y = c :: t /\ isWhiteSpace c = false)
  /\ forall rest,
      collapseFrom false (normalize y ++ SPACE :: rest)
      = normalize y ++ SPACE :: collapseFrom true rest.
Proof.
  unfold normalize, collapseWhiteSpace; intros Hne; split.
  - destruct (trim_first y) as [E|(c & t & E & Hc)].
    + rewrite E in Hne; contradiction.
    + rewrite E; simpl; rewrite Hc; eauto.
  - intros rest.
    destruct (trim_last y) as [E|(t & c & E & Hc)].
    + rewrite E in Hne; contradiction.
    + rewrite E, (collapseFrom_app_keep false t c [] Hc); simpl.
      rewrite <- app_assoc; simpl.
      rewrite (collapseFrom_app_keep false _ c (SPACE :: rest) Hc).
      rewrite (proj1 (collapseFrom_idem t)); simpl.
      rewrite <- app_assoc; reflexivity.
Qed.

(** The normal form of [a & s] for a non-empty normalized [a]. *)
Lemma normalize_background (y s : jsstring) :
  normalize y <> [] ->
  normalize (normalize y ++ #" & " ++ s)
  = normalize y ++ SPACE :: AMP
      :: collapseFrom false (trimEnd (SPACE :: s)).
Proof.
  intros Hne.
  destruct (normalize_shape y Hne) as [(c & t & E & Hc) Hcol].
  change (#" & " ++ s) with (SPACE :: AMP :: SPACE :: s).
  unfold normalize at 1, collapseWhiteSpace, trim.
  assert (T : trimStart (normalize y ++ SPACE :: AMP :: SPACE :: s)
              = normalize y ++ SPACE :: AMP :: SPACE :: s).
  { rewrite E; unfold trimStart; simpl; rewrite Hc; reflexivity. }
  rewrite T.
  replace (normalize y ++ SPACE :: AMP :: SPACE :: s)
    with ((normalize y ++ [SPACE]) ++ AMP :: SPACE :: s)
    by (rewrite <- app_assoc; reflexivity).
  rewrite trimEnd_app_keep by reflexivity.
  rewrite <- app_assoc; simpl app.
  rewrite Hcol; reflexivity.
Qed.

Lemma extractCommand_normalized (names : list jsstring)
      (tool a : jsstring) :
  In a (extractCommand names tool) -> exists y, a = normalize y.
Proof.
  induction names as [|n names IH]; simpl; [intros []|].
  destruct (startsWith tool (n ++ #"(") && endsWith tool #")").
  - intros [<-|[]]; eauto.
  - exact IH.
Qed.

Lemma extractCommands_normalized (tools : list jsstring) (a : jsstring) :
  In a (extractCommands tools) -> exists y, a = normalize y.
Proof.
  unfold extractCommands; rewrite in_flat_map.
  intros (tool & _ & H); exact (extractCommand_normalized _ _ _ H).
Qed.

Lemma collapseFrom_word (w rest : jsstring) (b : bool) :
  w <> [] -> Forall (fun c => isWhiteSpace c = false) w ->
  collapseFrom b (w ++ rest) = w ++ collapseFrom false rest.
Proof.
  intros Hne F; revert b; induction w as [|c w IH]; intros b;
    [contradiction|].
  apply Forall_cons_iff in F as [Hc F]. simpl; rewrite Hc.
  destruct w as [|d w]; [reflexivity|].
  rewrite IH; [reflexivity | discriminate | exact F].
Qed.

Lemma trimEnd_word (w rest : jsstring) :
  w <> [] -> Forall (fun c => isWhiteSpace c = false) w ->
  trimEnd (w ++ rest) = w ++ trimEnd rest.
Proof.
  intros Hne F.
  destruct (exists_last Hne) as (u & c & ->).
  apply Forall_app in F as [_ Fc]. apply Forall_cons_iff in Fc as [Hc _].
  rewrite <- !app_assoc; simpl. apply trimEnd_app_keep, Hc.
Qed.

Lemma dropWhile_all (f : N -> bool) (s : jsstring) :
  forallb f s = true -> dropWhile f s = [].
Proof.
  induction s as [|c s IH]; simpl; [reflexivity|].
  destruct (f c); simpl; [exact IH | discriminate].
Qed.

Lemma dropWhile_split (f : N -> bool) (s : jsstring) :
  exists ws, s = ws ++ dropWhile f s /\ forallb f ws = true.
Proof.
  induction s as [|c s (ws & E & F)]; simpl.
  - exists []; auto.
  - destruct (f c) eqn:Fc.
    + exists (c :: ws); simpl; rewrite Fc, F; split; [congruence | auto].
    + exists []; auto.
Qed.

Lemma trimEnd_white (s : jsstring) :
  forallb isWhiteSpace s = true -> trimEnd s = [].
Proof.
  intros H; unfold trimEnd. rewrite dropWhile_all; [reflexivity|].
  rewrite forallb_forall in *. intros x Hx; apply H, in_rev, Hx.
Qed.

Lemma collapseFrom_white (ws : jsstring) :
  forallb isWhiteSpace ws = true -> collapseFrom true ws = [].
Proof.
  induction ws as [|c ws IH]; simpl; [reflexivity|].
  destruct (isWhiteSpace c); simpl; [exact IH | discriminate].
Qed.

(** A white-space run in front of a text: gone when nothing but white
    space follows, one space otherwise. *)
Lemma collapse_after_word (c : N) (s : jsstring) :
  isWhiteSpace c = true ->
  collapseFrom false (trimEnd (c :: s))
  = match normalize s with [] => [] | n => SPACE :: n end.
Proof.
  intros Hc. unfold normalize, collapseWhiteSpace, trim, trimStart.
  destruct (dropWhile_split isWhiteSpace s) as (ws & E & F).
  destruct (dropWhile isWhiteSpace s) as [|d t] eqn:D.
  - rewrite app_nil_r in E; subst ws.
    rewrite trimEnd_white by (simpl; rewrite Hc, F; reflexivity).
    reflexivity.
  - pose proof (dropWhile_head _ _ _ _ D) as Hd.
    rewrite E.
    change (c :: ws ++ d :: t) with ((c :: ws) ++ d :: t).
    rewrite (trimEnd_app_keep (c :: ws) d t Hd).
    pose proof (trimEnd_app_keep [] d t Hd) as T0; simpl in T0.
    rewrite T0.
    rewrite (collapseFrom_app_keep false (c :: ws) d _ Hd).
    simpl; rewrite Hc, Hd, (collapseFrom_white ws F). reflexivity.
Qed.

Lemma wordsFrom_nonempty (s w : jsstring) :
  Forall (fun word => word <> []) (wordsFrom w s).
Proof.
  revert w; induction s as [|c s IH]; intros w; simpl.
  - destruct w; constructor; [discriminate | constructor].
  - destruct (isWhiteSpace c); [|apply IH].
    destruct w; [apply IH|]. constructor; [discriminate | apply IH].
Qed.

Lemma join_nonempty (sep x : jsstring) (xs : list jsstring) :
  x <> [] -> join sep (x :: xs) <> [].
Proof.
  intros Hx; destruct xs; simpl; [exact Hx|].
  destruct x; [contradiction | discriminate].
Qed.

Lemma normalize_words (s : jsstring) :
  normalize s = join [SPACE] (wordsFrom [] s)
  /\ forall w, w <> [] -> Forall (fun c => isWhiteSpace c = false) w ->
      collapseFrom false (trimEnd (w ++ s))
      = join [SPACE] (wordsFrom w s).
Proof.
  induction s as [|c s [IHa IHb]].
  - split; [reflexivity|]. intros w Hne F.
    rewrite trimEnd_word by assumption.
    rewrite collapseFrom_word by assumption.
    destruct w; [contradiction | simpl; rewrite app_nil_r; reflexivity].
  - destruct (isWhiteSpace c) eqn:Hc.
    + split.
      * transitivity (normalize s); [|simpl; rewrite Hc; exact IHa].
        unfold normalize, trim, trimStart; simpl; rewrite Hc; reflexivity.
      * intros w Hne F.
        rewrite trimEnd_word by assumption.
        rewrite collapseFrom_word by assumption.
        rewrite (collapse_after_word c s Hc), IHa.
        simpl; rewrite Hc.
        pose proof (wordsFrom_nonempty s []) as Fw.
        destruct w as [|x w]; [contradiction|].
        destruct (wordsFrom [] s) as [|y ys] eqn:W.
        -- simpl; rewrite app_nil_r; reflexivity.
        -- apply Forall_cons_iff in Fw as [Hy _].
           pose proof (join_nonempty [SPACE] y ys Hy) as J.
           destruct (join [SPACE] (y :: ys)) eqn:JE; [contradiction|].
           change (join [SPACE] ((x :: w) :: y :: ys))
             with ((x :: w) ++ [SPACE] ++ join [SPACE] (y :: ys)).
           rewrite JE; reflexivity.
    + split.
      * transitivity (collapseFrom false (trimEnd ([c] ++ s))).
        -- unfold normalize, collapseWhiteSpace, trim, trimStart; simpl.
           rewrite Hc; reflexivity.
        -- rewrite IHb; [simpl; rewrite Hc; reflexivity | discriminate|].
           constructor; [exact Hc | constructor].
      * intros w Hne F.
        replace (w ++ c :: s) with ((w ++ [c]) ++ s)
          by (rewrite <- app_assoc; reflexivity).
        rewrite IHb.
        -- simpl; rewrite Hc; reflexivity.
        -- destruct w; discriminate.
        -- apply Forall_app; split; [exact F|].
           constructor; [exact Hc | constructor].
Qed.

(** The code's normalization gives the normal form: the words of the
    text, one space between them. *)
Lemma normalize_normalForm (s : jsstring) : normalize s = normalForm s.
Proof. exact (proj1 (normalize_words s)). Qed.

End NormalizeFacts.

(** ** The entries of the policy *)

Module PolicyFacts.
Import ShellTool Vocabulary JSFacts.

Lemma endsWith_last (s : jsstring) (x c : N) :
  endsWith (s ++ [x]) [c] = (x =? c)%N.
Proof.
  unfold endsWith; rewrite rev_app_distr; simpl.
  apply andb_true_r.
Qed.

Lemma skipn_length_app (a b : jsstring) :
  skipn (List.length a) (a ++ b) = b.
Proof. induction a as [|x a IH]; simpl; [reflexivity | exact IH]. Qed.

(** An entry [tool(body)] passes the two tests, and its slice is
    [body]. *)
Lemma entry_shape (toolName body : jsstring) :
  startsWith (toolName ++ #"(" ++ body ++ #")") (toolName ++ #"(") = true
  /\ endsWith (toolName ++ #"(" ++ body ++ #")") #")" = true
  /\ sliceToLast (List.length toolName + 1)
                 (toolName ++ #"(" ++ body ++ #")") = body.
Proof.
  split; [|split].
  - rewrite app_assoc; apply startsWith_app.
  - rewrite !app_assoc. exact (endsWith_last _ 41%N 41%N).
  - unfold sliceToLast.
    replace (List.length toolName + 1)
      with (List.length (toolName ++ #"("))
      by (rewrite length_app; reflexivity).
    rewrite app_assoc, skipn_length_app.
    apply removelast_last.
Qed.

(** An entry that passes the two tests is [tool(body)], with its slice
    for [body]. *)
Lemma entry_shape_inv (toolName tool : jsstring) :
  startsWith tool (toolName ++ #"(") && endsWith tool #")" = true ->
  tool = toolName ++ #"("
           ++ sliceToLast (List.length toolName + 1) tool ++ #")".
Proof.
  intros H; apply andb_true_iff in H as [Hs He].
  apply startsWith_iff in Hs as [r ->].
  destruct r as [|x0 r0] using rev_ind.
  - rewrite app_nil_r in He.
    assert (X : endsWith (toolName ++ #"(") #")" = false)
      by exact (endsWith_last toolName 40%N 41%N).
    congruence.
  - clear IHr0. rewrite app_assoc in He.
    assert (X : endsWith (((toolName ++ #"(") ++ r0) ++ [x0]) #")"
                = (x0 =? 41)%N)
      by exact (endsWith_last ((toolName ++ #"(") ++ r0) x0 41%N).
    rewrite X in He.
    apply N.eqb_eq in He; subst x0.
    unfold sliceToLast.
    replace (List.length toolName + 1)
      with (List.length (toolName ++ #"("))
      by (rewrite length_app; reflexivity).
    rewrite skipn_length_app, removelast_last, <- !app_assoc.
    reflexivity.
Qed.

Lemma extractCommand_scoped (tool d : jsstring) :
  In d (extractCommand SHELL_TOOL_NAMES tool) <->
  exists toolName body,
    In toolName SHELL_TOOL_NAMES
    /\ tool = toolName ++ #"(" ++ body ++ #")"
    /\ d = normalize body.
Proof.
  split.
  - unfold SHELL_TOOL_NAMES; cbn [extractCommand].
    destruct (startsWith tool (name ++ #"(") && endsWith tool #")") eqn:T1.
    { intros [<-|[]]. exists name; eexists.
      split; [left; reflexivity|]. split; [|reflexivity].
      apply entry_shape_inv, T1. }
    destruct (startsWith tool (Name ++ #"(") && endsWith tool #")") eqn:T2.
    { intros [<-|[]]. exists Name; eexists.
      split; [right; left; reflexivity|]. split; [|reflexivity].
      apply entry_shape_inv, T2. }
    intros [].
  - intros (toolName & body & Hin & -> & ->).
    destruct (entry_shape toolName body) as (S & E & L).
    unfold SHELL_TOOL_NAMES in *; cbn [extractCommand].
    destruct Hin as [<-|[<-|[]]].
    + rewrite S, E, L; left; reflexivity.
    + assert (Other : startsWith (Name ++ #"(" ++ body ++ #")")
                                 (name ++ #"(") = false)
        by (vm_compute; reflexivity).
      rewrite Other; cbn [andb]. rewrite S, E, L; left; reflexivity.
Qed.

(** The prefixes the code extracts from a list of entries are those of
    the entries scoped to the tool, in normal form. *)
Lemma extractCommands_scoped (entries : list jsstring) (d : jsstring) :
  In d (extractCommands entries) <-> scopedPrefix entries d.
Proof.
  unfold extractCommands, scopedPrefix; rewrite in_flat_map; split.
  - intros (tool & Hin & H).
    apply extractCommand_scoped in H as (toolName & body & Hn & -> & ->).
    exists toolName, body; split; [exact Hn|]. split; [exact Hin|].
    apply NormalizeFacts.normalize_normalForm.
  - intros (toolName & body & Hn & Hin & ->).
    eexists; split; [exact Hin|].
    apply extractCommand_scoped. exists toolName, body.
    split; [exact Hn|]. split; [reflexivity|].
    symmetry; apply NormalizeFacts.normalize_normalForm.
Qed.

End PolicyFacts.

(** ** The gate: claims *)

Import ShellTool Vocabulary Samples.

Ltac no_substring :=
  let H := fresh in
  intros H; apply JSFacts.includes_iff in H; vm_compute in H; discriminate.

Ltac not_listed :=
  let n := fresh in let H := fresh in let E := fresh in
  intros (n & [<-|[<-|[]]] & H); simpl in H;
  repeat (destruct H as [E|H]; [vm_compute in E; discriminate|]);
  exact H.

(** C3.  A command that contains [$(] or a backtick is rejected, whatever
    the allow and deny lists hold: the gate answers false, validation
    returns the "not allowed" error, no confirmation is asked and
    [execute] returns the rejection without spawning. *)
Theorem command_substitution_rejected :
  forall (host : Host) (config : Config) (params : ShellToolParams),
    HasSubstring (command params) #"$("
    \/ HasSubstring (command params) #"`" ->
    isCommandAllowed config (command params) = false
    /\ validateToolParams host config params
       = Some (#"Command is not allowed: " ++ command params)
    /\ (forall self now, shouldConfirmExecute host config self params now
                         = None)
    /\ (forall self aborted now tmp,
           executeStart host config self params aborted now tmp
           = Returned
               {| llmContent := #"Command rejected: " ++ command params
                                  ++ NL ++ #"Reason: "
                                  ++ #"Command is not allowed: "
                                  ++ command params;
                  returnDisplay := #"Error: "
                                     ++ #"Command is not allowed: "
                                     ++ command params |}).
Proof.
  intros host config params H.
  assert (G : isCommandAllowed config (command params) = false).
  { unfold isCommandAllowed.
    destruct H as [H|H]; apply JSFacts.includes_iff in H; rewrite H;
      [reflexivity | rewrite orb_true_r; reflexivity]. }
  assert (V : validateToolParams host config params
              = Some (#"Command is not allowed: " ++ command params))
    by (unfold validateToolParams; rewrite G; reflexivity).
  split; [exact G|]; split; [exact V|]; split.
  - intros; unfold shouldConfirmExecute; rewrite V; reflexivity.
  - intros; unfold executeStart; rewrite V; reflexivity.
Qed.

Lemma command_substitution_rejected_witness :
  isCommandAllowed (policy (Some [Name ++ #"(echo)"]) None) #"echo $(id)"
  = false.
Proof.
  refine (proj1 (command_substitution_rejected posixHost
                   (policy (Some [Name ++ #"(echo)"]) None)
                   (request #"echo $(id)") _)).
  left; exists #"echo ", #"id)"; reflexivity.
Defined.

(** C2.  The gate validates the normalized pieces obtained by splitting the
    command at [&&], [||], [|] and [;]: it rejects when a piece
    prefix-matches a deny entry, and, under a strict allow list, when a
    piece prefix-matches no allow entry; otherwise (no substitution, tool
    not denied outright) it accepts.  The split is the leftmost one and
    the only one; a normalized piece is the piece with its words one space
    apart; the deny and allow prefixes are those of the entries
    [tool(body)] for a name of the tool, in the same normal form.  With
    deny entry [tool(rm -rf /)], [rm -rf / ; ls] is rejected, and so is
    the command with other blanks or behind another sub-command, while
    [rmdir x] passes a deny entry [tool(rm)]; with the allow list
    [tool(git status)] alone, [git status] passes, with any blanks and in
    every sub-command, and [git push] fails. *)
Theorem gate_prefix_policy :
  (forall (config : Config) (command : jsstring),
      (exists seps,
          List.length (splitCommands command) = S (List.length seps)
          /\ Forall isSeparator seps
          /\ interleave (splitCommands command) seps = command
          /\ Forall separatorFree (splitCommands command))
      /\ ((exists sub d, In sub (subCommands command)
                         /\ In d (denyEntries config)
                         /\ PrefixMatch sub d) ->
          isCommandAllowed config command = false)
      /\ (strictAllowlist config ->
          (exists sub, In sub (subCommands command)
                       /\ forall a, In a (allowEntries config) ->
                                    ~ PrefixMatch sub a) ->
          isCommandAllowed config command = false)
      /\ (isCommandAllowed config command = true <->
          ~ HasSubstring command #"$(" /\ ~ HasSubstring command #"`"
          /\ ~ toolDenied config
          /\ forall sub, In sub (subCommands command) ->
                         subCommandPasses config sub)
      /\ SplitsInto command (splitCommands command)
      /\ (forall pieces, SplitsInto command pieces ->
                         pieces = splitCommands command)
      /\ subCommands command = List.map normalForm (splitCommands command)
      /\ (forall d, In d (denyEntries config)
                    <-> scopedPrefix (orEmpty (getExcludeTools config)) d)
      /\ (forall a, In a (allowEntries config)
                    <-> scopedPrefix (orEmpty (getCoreTools config)) a)
      /\ (isCommandAllowed config command = true <->
          ~ HasSubstring command #"$(" /\ ~ HasSubstring command #"`"
          /\ ~ toolDenied config
          /\ forall pieces piece,
              SplitsInto command pieces -> In piece pieces ->
              (forall d, scopedPrefix (orEmpty (getExcludeTools config)) d ->
                         ~ PrefixMatch (normalForm piece) d)
              /\ ((exists a, scopedPrefix (orEmpty (getCoreTools config)) a)
                  /\ ~ wildcardAllowed config ->
                  exists a, scopedPrefix (orEmpty (getCoreTools config)) a
                            /\ PrefixMatch (normalForm piece) a)))
  /\ (forall toolName coreTools,
         In toolName SHELL_TOOL_NAMES ->
         isCommandAllowed
           (policy coreTools (Some [toolName ++ #"(rm -rf /)"]))
           #"rm -rf / ; ls" = false)
  /\ (forall toolName,
         In toolName SHELL_TOOL_NAMES ->
         isCommandAllowed (policy (Some [toolName ++ #"(git status)"]) None)
                          #"git status" = true)
  /\ (forall toolName excludeTools,
         In toolName SHELL_TOOL_NAMES ->
         isCommandAllowed
           (policy (Some [toolName ++ #"(git status)"]) excludeTools)
           #"git push" = false)
  /\ (forall s, normalize s = normalForm s)
  /\ (forall toolName,
         In toolName SHELL_TOOL_NAMES ->
         isCommandAllowed (policy None (Some [toolName ++ #"(rm -rf /)"]))
                          #"ls;   rm   -rf  /  " = false
         /\ isCommandAllowed
              (policy None (Some [toolName ++ #"(rm -rf /)"]))
              #"rm  -rf /" = false
         /\ isCommandAllowed
              (policy None (Some [toolName ++ #"(  rm   -rf / )"]))
              #"ls && rm -rf / --no-preserve-root" = false
         /\ isCommandAllowed (policy None (Some [toolName ++ #"(rm)"]))
                             #"rmdir x" = true
         /\ isCommandAllowed
              (policy (Some [toolName ++ #"(git status)"]) None)
              #"  git   status " = true
         /\ isCommandAllowed
              (policy (Some [toolName ++ #"(git status)"]) None)
              #"git status --short || git  status&&git status -s|git status"
            = true
         /\ isCommandAllowed
              (policy (Some [toolName ++ #"(git status)"]) None)
              #"git status & git push" = true
         /\ isCommandAllowed
              (policy (Some [toolName ++ #"(git status)"]) None)
              #"git status || git push" = false).
Proof.
  assert (Deny : forall config command,
    (exists sub d, In sub (subCommands command)
                   /\ In d (denyEntries config) /\ PrefixMatch sub d) ->
    isCommandAllowed config command = false).
  { intros config command (sub & d & Hs & Hd & Hm).
    destruct (isCommandAllowed config command) eqn:E; [|reflexivity].
    apply GateFacts.isCommandAllowed_iff in E as (_ & _ & _ & E).
    destruct (E sub Hs) as [E' _]; exfalso; exact (E' d Hd Hm). }
  assert (Allow : forall config command,
    strictAllowlist config ->
    (exists sub, In sub (subCommands command)
                 /\ forall a, In a (allowEntries config) ->
                              ~ PrefixMatch sub a) ->
    isCommandAllowed config command = false).
  { intros config command Hstrict (sub & Hs & Hn).
    destruct (isCommandAllowed config command) eqn:E; [|reflexivity].
    apply GateFacts.isCommandAllowed_iff in E as (_ & _ & _ & E).
    destruct (E sub Hs) as [_ E'].
    destruct (E' Hstrict) as (a & Ha & Hm); exfalso; exact (Hn a Ha Hm). }
  assert (Subs : forall command,
    subCommands command = List.map normalForm (splitCommands command)).
  { intros command; unfold subCommands. apply map_ext.
    exact NormalizeFacts.normalize_normalForm. }
  assert (Unique : forall command pieces,
    SplitsInto command pieces -> pieces = splitCommands command)
    by (intros command pieces H; symmetry;
        apply SplitFacts.SplitsInto_splitCommands, H).
  assert (Strict : forall config,
    strictAllowlist config <->
    (exists a, scopedPrefix (orEmpty (getCoreTools config)) a)
    /\ ~ wildcardAllowed config).
  { intros config; unfold strictAllowlist, allowEntries. split.
    - intros [Hne Hw]; split; [|exact Hw].
      destruct (extractCommands (orEmpty (getCoreTools config)))
        as [|a l] eqn:E; [contradiction|].
      exists a; apply PolicyFacts.extractCommands_scoped.
      rewrite E; left; reflexivity.
    - intros [[a Ha] Hw]; split; [|exact Hw].
      apply PolicyFacts.extractCommands_scoped in Ha.
      intros E; rewrite E in Ha; exact Ha. }
  split; [|split; [|split; [|split; [|split]]]].
  - intros config command.
    split; [apply SplitFacts.splitCommands_sound|].
    split; [apply Deny|]; split; [apply Allow|].
    split; [apply GateFacts.isCommandAllowed_iff|].
    split; [apply SplitFacts.splitCommands_leftmost|].
    split; [apply Unique|]. split; [apply Subs|].
    split; [intros d; apply PolicyFacts.extractCommands_scoped|].
    split; [intros a; apply PolicyFacts.extractCommands_scoped|].
    rewrite GateFacts.isCommandAllowed_iff. split.
    + intros (N1 & N2 & N3 & P). repeat (split; [assumption|]).
      intros pieces piece Hsp Hin.
      apply Unique in Hsp; subst pieces.
      assert (Hsub : In (normalForm piece) (subCommands command))
        by (rewrite Subs; apply in_map, Hin).
      destruct (P _ Hsub) as [Pd Pa]. split.
      * intros d Hd. apply Pd, PolicyFacts.extractCommands_scoped, Hd.
      * intros Hst. apply Strict in Hst.
        destruct (Pa Hst) as (a & Ha & Hm). exists a; split; [|exact Hm].
        apply PolicyFacts.extractCommands_scoped, Ha.
    + intros (N1 & N2 & N3 & P). repeat (split; [assumption|]).
      intros sub Hsub. rewrite Subs in Hsub.
      apply in_map_iff in Hsub as (piece & <- & Hin).
      destruct (P _ piece (SplitFacts.splitCommands_leftmost command) Hin)
        as [Pd Pa].
      split.
      * intros d Hd. apply Pd, PolicyFacts.extractCommands_scoped, Hd.
      * intros Hst. apply Strict in Hst.
        destruct (Pa Hst) as (a & Ha & Hm). exists a; split; [|exact Hm].
        apply PolicyFacts.extractCommands_scoped, Ha.
  - intros toolName coreTools Hin. apply Deny.
    exists #"rm -rf /", #"rm -rf /".
    split; [vm_compute; auto|]; split.
    + destruct Hin as [<-|[<-|[]]]; vm_compute; auto.
    + exists []; split; [reflexivity | left; reflexivity].
  - intros toolName [<-|[<-|[]]]; vm_compute; reflexivity.
  - intros toolName excludeTools Hin. apply Allow.
    + split.
      * destruct Hin as [<-|[<-|[]]]; vm_compute; discriminate.
      * destruct Hin as [<-|[<-|[]]]; not_listed.
    + exists #"git push"; split; [vm_compute; auto|].
      intros a Ha Hm. apply GateFacts.isPrefixedBy_iff in Hm.
      destruct Hin as [<-|[<-|[]]]; vm_compute in Ha;
        destruct Ha as [<-|[]]; vm_compute in Hm; discriminate.
  - exact NormalizeFacts.normalize_normalForm.
  - intros toolName [<-|[<-|[]]]; repeat split; vm_compute; reflexivity.
Qed.

Lemma gate_prefix_policy_witness :
  isCommandAllowed (policy None (Some [Name ++ #"(rm -rf /)"]))
                   #"rm -rf / ; ls" = false
  /\ isCommandAllowed allowGitStatus #"git push" = false
  /\ isCommandAllowed (policy None (Some [Name ++ #"( rm  -rf / )"]))
                      #"ls ;   rm   -rf  /  " = false
  /\ splitCommands #"a&&&b || c|d" = [#"a"; #"&b "; #" c"; #"d"].
Proof.
  split; [|split; [|split]].
  - refine (proj1 (proj2 (proj1 gate_prefix_policy
                            (policy None (Some [Name ++ #"(rm -rf /)"]))
                            #"rm -rf / ; ls")) _).
    exists #"rm -rf /", #"rm -rf /".
    split; [vm_compute; auto|]; split; [vm_compute; auto|].
    exists []; split; [reflexivity | left; reflexivity].
  - refine (proj1 (proj2 (proj2 (proj1 gate_prefix_policy allowGitStatus
                                   #"git push"))) _ _).
    + split; [vm_compute; discriminate | not_listed].
    + exists #"git push"; split; [vm_compute; auto|].
      intros a Ha Hm. apply GateFacts.isPrefixedBy_iff in Hm.
      vm_compute in Ha; destruct Ha as [<-|[]].
      vm_compute in Hm; discriminate.
  - refine (proj1 (proj2 (proj1 gate_prefix_policy
                            (policy None
                                    (Some [Name ++ #"( rm  -rf / )"]))
                            #"ls ;   rm   -rf  /  ")) _).
    exists #"rm -rf /", #"rm -rf /".
    split; [vm_compute; auto|]; split; [vm_compute; auto|].
    exists []; split; [reflexivity | left; reflexivity].
  - symmetry.
    refine (proj1 (proj2 (proj2 (proj2 (proj2 (proj2
              (proj1 gate_prefix_policy (policy None None)
                     #"a&&&b || c|d"))))))
              [#"a"; #"&b "; #" c"; #"d"] _).
    apply (splits_at #"a" #"&&" #"&b || c|d");
      [repeat split; no_substring | unfold isSeparator; auto
      | intros _ front E; destruct front as [|x [|y front]]; discriminate E
      | intros E; discriminate E |].
    apply (splits_at #"&b " #"||" #" c|d");
      [repeat split; no_substring | unfold isSeparator; auto
      | intros E; discriminate E | intros E; discriminate E |].
    apply (splits_at #" c" #"|" #"d");
      [repeat split; no_substring | unfold isSeparator; auto
      | intros E; discriminate E
      | intros _ back E; discriminate E |].
    apply splits_last; repeat split; no_substring.
Defined.

(** C8, as stated, fails in two ways.  An allow entry with an empty prefix
    ([run_shell_command()]) meets every premise for the command [ & ls],
    which the gate rejects: its normal form [& ls] does not continue the
    empty prefix with a space.  And a tool denied outright is rejected
    whatever its scoped entries say. *)
Lemma background_suffix_counterexample :
  (backgroundPremises allowEmptyPrefix [] #"ls"
   /\ isCommandAllowed allowEmptyPrefix (background [] #"ls") = false)
  /\ (backgroundPremises allowedButDenied #"git status" #"ls"
      /\ isCommandAllowed allowedButDenied
                          (background #"git status" #"ls") = false).
Proof.
  split; (split; [|vm_compute; reflexivity]).
  - split; [vm_compute; auto|].
    split; [split; [vm_compute; discriminate | not_listed]|].
    split; [no_substring|]; split; [no_substring|].
    split; [repeat split; no_substring|].
    intros d Hd; vm_compute in Hd; contradiction.
  - split; [vm_compute; auto|].
    split; [split; [vm_compute; discriminate | not_listed]|].
    split; [no_substring|]; split; [no_substring|].
    split; [repeat split; no_substring|].
    intros d Hd; vm_compute in Hd; contradiction.
Qed.

(** C8, amended.  A lone [&] is no separator: for a non-empty allow entry
    [a] of a strict allow list, when the tool is not denied outright and
    the command [a & s] holds no [$(], backtick, [&&], [|] or [;] and
    prefix-matches no deny entry, the command is a single sub-command and
    the gate accepts it, whatever [s] is. *)
Theorem background_suffix_accepted :
  forall (config : Config) (a s : jsstring),
    backgroundPremises config a s ->
    a <> [] ->
    ~ toolDenied config ->
    splitCommands (background a s) = [background a s]
    /\ PrefixMatch (normalize (background a s)) a
    /\ isCommandAllowed config (background a s) = true.
Proof.
  intros config a s (Ha & Hstrict & H1 & H2 & Hfree & Hdeny) Hne Hnd.
  pose proof (SplitFacts.splitCommands_single _ Hfree) as Hsplit.
  destruct (NormalizeFacts.extractCommands_normalized _ _ Ha) as [y ->].
  assert (Hm : PrefixMatch (normalize (background (normalize y) s))
                           (normalize y)).
  { unfold background.
    rewrite NormalizeFacts.normalize_background by assumption.
    eexists; split; [reflexivity|]; right; eexists; reflexivity. }
  split; [exact Hsplit|]; split; [exact Hm|].
  apply GateFacts.isCommandAllowed_iff.
  repeat (split; [assumption|]).
  unfold subCommands; rewrite Hsplit; simpl.
  intros sub [<-|[]]; split.
  - exact Hdeny.
  - intros _; exists (normalize y); split; assumption.
Qed.

Lemma background_suffix_accepted_witness :
  isCommandAllowed allowGitStatus (background #"git status" #"rm -rf /")
  = true.
Proof.
  refine (proj2 (proj2 (background_suffix_accepted allowGitStatus
                          #"git status" #"rm -rf /" _ _ _))).
  - split; [vm_compute; auto|].
    split; [split; [vm_compute; discriminate | not_listed]|].
    split; [no_substring|]; split; [no_substring|].
    split; [repeat split; no_substring|].
    intros d Hd; vm_compute in Hd; contradiction.
  - discriminate.
  - not_listed.
Defined.

(** ** The confirmation step: claims *)

(** The sudo context hands out its password under the same test as the
    tool: a non-empty password with a non-zero timestamp less than 15
    minutes old; otherwise it answers [undefined], and forgets a password
    that is there. *)
Lemma getPassword_spec (now : Z) (st : SudoProvider.State) (p : jsstring) :
  fst (SudoProvider.getPassword now st) = Some p <->
  SudoProvider.password st = Some p /\ p <> []
  /\ exists t, SudoProvider.timestamp st = Some t /\ t <> 0%Z
               /\ (now - t < 15 * 60 * 1000)%Z.
Proof.
  unfold SudoProvider.getPassword, SudoProvider.SUDO_CACHE_DURATION_MS.
  destruct (SudoProvider.password st) as [q|]; simpl;
    [|split; [discriminate | intros (H & _); discriminate]].
  destruct q as [|x q]; simpl.
  { split; [discriminate|]. intros (H & Hne & _); inversion H; subst.
    contradiction. }
  destruct (SudoProvider.timestamp st) as [t|]; simpl.
  - destruct (t =? 0)%Z eqn:E0; simpl.
    + split; [discriminate|].
      intros (_ & _ & t' & H & Hne & _); inversion H; subst.
      apply Z.eqb_eq in E0; contradiction.
    + destruct (now - t <? 900000)%Z eqn:E1; simpl.
      * split.
        -- intros H; inversion H; subst; split; [reflexivity|].
           split; [discriminate|]. exists t; split; [reflexivity|].
           apply Z.eqb_neq in E0; apply Z.ltb_lt in E1; split; assumption.
        -- intros (H & _); inversion H; reflexivity.
      * split; [discriminate|].
        intros (_ & _ & t' & H & _ & Hlt); inversion H; subst.
        apply Z.ltb_ge in E1; lia.
  - split; [discriminate|]. intros (_ & _ & t' & H & _); discriminate.
Qed.

Lemma isPasswordCached_true (self : ShellToolState) (now : Z) :
  isPasswordCached self now = true <->
  exists secret issuedAt,
    sudoPassword self = Some secret /\ secret <> []
    /\ sudoPasswordTimestamp self = Some issuedAt /\ issuedAt <> 0%Z
    /\ (now - issuedAt < 15 * 60 * 1000)%Z.
Proof.
  unfold isPasswordCached, SUDO_CACHE_DURATION_MS.
  destruct (sudoPassword self) as [secret|];
    [|split; [discriminate | intros (? & ? & ? & _); discriminate]].
  destruct (sudoPasswordTimestamp self) as [t|].
  - rewrite !andb_true_iff, negb_true_iff, Z.eqb_neq, Z.ltb_lt.
    split.
    + intros (H1 & H2 & H3); exists secret, t.
      repeat split; auto. destruct secret; [discriminate | discriminate].
    + intros (s' & t' & E1 & Hs & E2 & Ht & Hlt).
      inversion E1; inversion E2; subst.
      destruct s'; [contradiction|]; auto.
  - rewrite andb_false_r.
    split; [discriminate | intros (? & ? & _ & _ & ? & _); discriminate].
Qed.

(** C4, as stated, fails in two ways.  A confirmed empty password is a
    cached secret younger than 15 minutes, and the next sudo command is
    asked for the password again.  And a sudo command that fails the gate
    gets no confirmation at all, Password or other, even with an empty
    cache. *)
Lemma sudo_prompt_counterexample :
  (sudoOnPosix posixHost (request #"sudo ls")
   /\ holdsSecretYoungerThanTTL emptySecretTool 2000
   /\ promptsForPassword
        (shouldConfirmExecute posixHost noPolicy emptySecretTool
                              (request #"sudo ls") 2000))
  /\ (sudoOnPosix posixHost (request #"sudo `id`")
      /\ sudoPassword emptyTool = None
      /\ shouldConfirmExecute posixHost noPolicy emptyTool
                              (request #"sudo `id`") 0 = None).
Proof.
  split.
  - split; [split; reflexivity|]; split.
    + exists [], 1000%Z; repeat split; reflexivity.
    + do 3 eexists; vm_compute; reflexivity.
  - split; [split; reflexivity|].
    split; [reflexivity | vm_compute; reflexivity].
Qed.

(** C4, amended.  For a sudo command on a POSIX platform that passes
    validation: when the tool holds a non-empty secret with a non-zero
    timestamp less than 15 minutes old, no password is asked; when it holds
    no secret, an empty one, no timestamp, a zero one, or one 15 minutes
    old or more, a Password confirmation is returned, and its continuation
    stores the secret given to it with the time of the confirmation. *)
Theorem sudo_prompt_follows_cache :
  forall (host : Host) (config : Config) (self : ShellToolState)
         (params : ShellToolParams) (now : Z),
    validateToolParams host config params = None ->
    sudoOnPosix host params ->
    ((exists secret issuedAt,
         sudoPassword self = Some secret /\ secret <> []
         /\ sudoPasswordTimestamp self = Some issuedAt /\ issuedAt <> 0%Z
         /\ (now - issuedAt < 15 * 60 * 1000)%Z) ->
     ~ promptsForPassword (shouldConfirmExecute host config self params now))
    /\ ((sudoPassword self = None \/ sudoPassword self = Some []
         \/ sudoPasswordTimestamp self = None
         \/ sudoPasswordTimestamp self = Some 0%Z
         \/ exists issuedAt,
             sudoPasswordTimestamp self = Some issuedAt
             /\ (now - issuedAt >= 15 * 60 * 1000)%Z) ->
        exists onConfirm,
          shouldConfirmExecute host config self params now
          = Some (PasswordConfirmation #"Sudo Password Required" #"sudo"
                                       onConfirm)
          /\ forall secret confirmedAt tool,
              onConfirm secret confirmedAt tool
              = {| whitelist := whitelist tool;
                   sudoPassword := Some secret;
                   sudoPasswordTimestamp := Some confirmedAt |}).
Proof.
  intros host config self params now V [Hsudo Hposix].
  unfold shouldConfirmExecute; rewrite V, Hsudo, Hposix; simpl.
  split.
  - intros Hc. apply isPasswordCached_true in Hc. rewrite Hc; simpl.
    intros (t & r & k & E).
    destruct (arrayIncludes (whitelist self) (getCommandRoot (command params)));
      discriminate.
  - intros Habsent.
    assert (Hc : isPasswordCached self now = false).
    { destruct (isPasswordCached self now) eqn:E; [|reflexivity].
      apply isPasswordCached_true in E
        as (s0 & t0 & E1 & Hs & E2 & Ht & Hlt).
      destruct Habsent as [H|[H|[H|[H|(t & H & Hge)]]]]; try congruence.
      rewrite E2 in H; inversion H; subst; lia. }
    rewrite Hc; simpl.
    exists passwordOnConfirm; split; reflexivity.
Qed.

Lemma sudo_prompt_follows_cache_witness :
  ~ promptsForPassword
      (shouldConfirmExecute posixHost noPolicy hunter2Tool
                            (request #"sudo ls") 2000)
  /\ exists onConfirm,
      shouldConfirmExecute posixHost noPolicy emptyTool
                           (request #"sudo ls") 2000
      = Some (PasswordConfirmation #"Sudo Password Required" #"sudo"
                                   onConfirm).
Proof.
  split.
  - refine (proj1 (sudo_prompt_follows_cache posixHost noPolicy hunter2Tool
                     (request #"sudo ls") 2000 _ _) _).
    + vm_compute; reflexivity.
    + split; reflexivity.
    + exists #"hunter2", 1000%Z.
      repeat split; try reflexivity; discriminate.
  - destruct (proj2 (sudo_prompt_follows_cache posixHost noPolicy emptyTool
                       (request #"sudo ls") 2000 eq_refl
                       (conj eq_refl eq_refl))
                    (or_introl eq_refl)) as (k & E & _).
    exists k; exact E.
Defined.

(** ** Elevation: where the secret goes *)

Lemma replaceAllChar_absent (c : N) (rep s : jsstring) :
  ~ In c s -> replaceAllChar c rep s = s.
Proof.
  unfold replaceAllChar; induction s as [|x s IH]; intros H; simpl;
    [reflexivity|].
  destruct (N.eqb_spec x c) as [->|_]; [exfalso; apply H; left; reflexivity|].
  simpl; rewrite IH; [reflexivity|].
  intros Hin; apply H; right; exact Hin.
Qed.

(** Both executors put a secret without quote into the command text. *)
Lemma wrapSudo_holds_secret (secret userCommand : jsstring) :
  ~ In QUOTE secret ->
  HasSubstring (wrapSudo secret userCommand) secret
  /\ HasSubstring (ShellCommandProcessor.wrapSudo secret userCommand) secret.
Proof.
  intros H; unfold wrapSudo, ShellCommandProcessor.wrapSudo.
  rewrite (replaceAllChar_absent QUOTE _ _ H).
  rewrite (replaceAllChar_absent ShellCommandProcessor.QUOTE _ _ H).
  split; exists #"echo '"; eexists; reflexivity.
Qed.

Lemma HasSubstring_inside (pre s post p : jsstring) :
  HasSubstring s p -> HasSubstring (pre ++ s ++ post) p.
Proof.
  intros (a & b & ->); exists (pre ++ a), (b ++ post).
  rewrite <- !app_assoc; reflexivity.
Qed.

(** For every sudo command a POSIX host runs with a cached secret free of
    quotes, the secret is a substring of the [-c] argument of the spawned
    shell. *)
Lemma sudo_secret_reaches_argv
      (host : Host) (config : Config) (self : ShellToolState)
      (params : ShellToolParams) (now : Z) (tmp secret : jsstring) :
  validateToolParams host config params = None ->
  sudoOnPosix host params ->
  isPasswordCached self now = true ->
  sudoPassword self = Some secret ->
  ~ In QUOTE secret ->
  exists arg,
    executeStart host config self params false now tmp
    = Spawned #"bash" [#"-c"; arg]
    /\ HasSubstring arg secret.
Proof.
  intros V [Hsudo Hposix] Hc Hs Hq.
  unfold executeStart; rewrite V, Hposix, Hsudo, Hc, Hs; simpl.
  eexists; split; [reflexivity|].
  unfold pgrepWrap.
  destruct (negb (endsWith _ _)).
  - rewrite <- app_assoc.
    apply HasSubstring_inside, (wrapSudo_holds_secret _ _ Hq).
  - apply HasSubstring_inside, (wrapSudo_holds_secret _ _ Hq).
Qed.

(** C1 (the code departs from the claim).  With the secret [hunter2]
    cached, [sudo ls] is spawned as [bash -c "{ echo 'hunter2' | sudo -S --
    ls; }; ..."] by the tool and by the interactive processor alike: the
    secret reaches sudo on its standard input, but it is written in the
    argument vector handed to [spawn]. *)
Theorem sudo_secret_in_spawn_arguments :
  executeStart posixHost noPolicy hunter2Tool (request #"sudo ls") false
               2000 #"/tmp/shell_pgrep_0a1b2c3d4e5f.tmp"
  = Spawned #"bash"
      [#"-c";
       #"{ echo 'hunter2' | sudo -S -- ls; }; __code=$?; pgrep -g 0 >/tmp/shell_pgrep_0a1b2c3d4e5f.tmp 2>&1; exit $__code;"]
  /\ ShellCommandProcessor.executeStart
       posixProcessor #"sudo ls" #"/project" (Some #"hunter2")
       #"/tmp/shell_pwd_0a1b2c3d4e5f.tmp"
     = ShellCommandProcessor.Spawned #"bash"
         [#"-c";
          #"{ echo 'hunter2' | sudo -S -- ls; }; __code=$?; pwd > "
            ++ ShellCommandProcessor.DQUOTE
            ++ #"/tmp/shell_pwd_0a1b2c3d4e5f.tmp"
            ++ ShellCommandProcessor.DQUOTE ++ #"; exit $__code"]
         (#"Executing in /project: { echo 'hunter2' | sudo -S -- ls; }; __code=$?; pwd > "
            ++ ShellCommandProcessor.DQUOTE
            ++ #"/tmp/shell_pwd_0a1b2c3d4e5f.tmp"
            ++ ShellCommandProcessor.DQUOTE ++ #"; exit $__code")
  /\ HasSubstring
       #"{ echo 'hunter2' | sudo -S -- ls; }; __code=$?; pgrep -g 0 >/tmp/shell_pgrep_0a1b2c3d4e5f.tmp 2>&1; exit $__code;"
       #"hunter2".
Proof.
  split; [vm_compute; reflexivity|].
  split; [vm_compute; reflexivity|].
  exists #"{ echo '"; eexists; vm_compute; reflexivity.
Qed.

(** ** The run of the shell tool: claims *)

Module ShellToolRunFacts.
Import ShellToolExecute.






Lemma step_frozen (sp : Spawn) (r : Run) (e : Event) :
  exited r = true -> frozen r (step sp r e).
Proof.
  unfold frozen; intros Hex.
  destruct e as [data now|data now|err|k|k|c s pids]; simpl.
  - unfold onData; rewrite Hex; cbv iota; auto 10.
  - unfold onData; rewrite Hex; cbv iota; auto 10.
  - auto 10.
  - unfold onAbort; rewrite Hex.
    destruct (returned r) eqn:E; [|destruct (pidTruthy (pid sp))];
      repeat split; simpl; auto; intros; congruence.
  - unfold onGraceElapsed; rewrite Hex.
    destruct (graceArmed r); [|auto 10].
    destruct (pidTruthy (pid sp)); repeat split; simpl; auto.
  - unfold onExit.
    destruct (returned r) eqn:E; repeat split; simpl; auto;
      intros; congruence.
Qed.

Lemma run_frozen (sp : Spawn) (events : list Event) (r : Run) :
  exited r = true -> frozen r (run sp r events).
Proof.
  revert r; induction events as [|e events IH]; intros r Hex; simpl.
  - unfold frozen; auto 10.
  - destruct (step_frozen sp r e Hex) as (E & A & B & C & D & F).
    destruct (IH _ E) as (E' & A' & B' & C' & D' & F').
    unfold frozen; repeat split; try congruence.
    intros res Hres; apply F', F, Hres.
Qed.

(** C9.  The exit listener sets [exited]; from then on a data listener
    returns without touching anything, so whatever events follow, the
    accumulated stdout, stderr and combined output (and the updates sent)
    stay as they were at the exit; the result [execute] returns is built
    at the exit from those strings and is not changed either. *)
Theorem output_frozen_after_exit :
  forall (sp : Spawn) (r : Run),
    exited r = true ->
    (forall onStdout data now, onData sp onStdout data now r = r)
    /\ forall events : list Event,
        exited (run sp r events) = true
        /\ stdout (run sp r events) = stdout r
        /\ stderr (run sp r events) = stderr r
        /\ output (run sp r events) = output r
        /\ forall res, returned r = Some res ->
                       returned (run sp r events) = Some res.
Proof.
  intros sp r Hex; split.
  - intros; unfold onData; rewrite Hex; reflexivity.
  - intros events.
    destruct (run_frozen sp events r Hex) as (E & A & B & C & _ & F).
    auto.
Qed.

(** The exit listener freezes the strings it found and, the first time,
    builds the result from them. *)
Lemma exit_builds_result (sp : Spawn) (r : Run) (c : option Z)
      (s : option jsstring) (pids : option jsstring) :
  exited (onExit sp c s pids r) = true
  /\ stdout (onExit sp c s pids r) = stdout r
  /\ stderr (onExit sp c s pids r) = stderr r
  /\ output (onExit sp c s pids r) = output r
  /\ (returned r = None ->
      exists r1,
        returned (onExit sp c s pids r) = Some (buildResult sp r1 pids)
        /\ stdout r1 = stdout r /\ stderr r1 = stderr r
        /\ output r1 = output r /\ aborted r1 = aborted r).
Proof.
  unfold onExit; destruct (returned r) eqn:E; simpl;
    repeat split; try discriminate.
  intros _; eexists; split; [reflexivity|]; simpl; auto.
Qed.

Lemma output_frozen_after_exit_witness :
  stdout (run sudoLsSpawn
              (onExit sudoLsSpawn (Some 0%Z) None None
                      (onData sudoLsSpawn true #"a.txt" 1100%Z
                              (start hunter2Tool 1000%Z)))
              [StdoutData #"late" 1300%Z; StderrData #"later" 1400%Z])
  = #"a.txt".
Proof.
  refine (proj1 (proj2 (proj2 (output_frozen_after_exit sudoLsSpawn
            (onExit sudoLsSpawn (Some 0%Z) None None
                    (onData sudoLsSpawn true #"a.txt" 1100%Z
                            (start hunter2Tool 1000%Z)))
            eq_refl)
            [StdoutData #"late" 1300%Z; StderrData #"later" 1400%Z]))).
Defined.

End ShellToolRunFacts.


(** ** The interactive processor: claims *)

Module ProcessorFacts.
Import ShellCommandProcessor.

Lemma run_app (h : ProcessorHost) (pid : option Z) (p : Proc)
      (a b : list Event) :
  run h pid p (a ++ b) = run h pid (run h pid p a) b.
Proof. unfold run; apply fold_left_app. Qed.

Lemma run_snoc (h : ProcessorHost) (pid : option Z) (p : Proc)
      (a : list Event) (e : Event) :
  run h pid p (a ++ [e]) = step h pid (run h pid p a) e.
Proof. rewrite run_app; reflexivity. Qed.

(** Once the stream is flagged binary, a chunk only produces a progress
    notice (none after the exit), and the flag stays. *)
Lemma handleOutput_flagged (h : ProcessorHost) (data : Buffer)
      (stream : Stream) (p : Proc) :
  streamToUi p = false ->
  streamToUi (handleOutput h data stream p) = false
  /\ chunksOut (handleOutput h data stream p)
     = chunksOut p
         ++ (if exited p then []
             else [progressNotice h (totalBytes (outputChunks p ++ [data]))]).
Proof.
  intros Hf; unfold handleOutput; rewrite Hf; simpl.
  split; [reflexivity|].
  destruct (exited p); simpl; [rewrite app_nil_r|]; reflexivity.
Qed.

Lemma step_flagged (h : ProcessorHost) (pid : option Z) (p : Proc)
      (e : Event) :
  streamToUi p = false ->
  streamToUi (step h pid p e) = false
  /\ exists notices,
      chunksOut (step h pid p e) = chunksOut p ++ notices
      /\ Forall (isProgressNotice h) notices.
Proof.
  intros Hf.
  assert (Same : forall q, streamToUi q = false -> chunksOut q = chunksOut p ->
                           streamToUi q = false
                           /\ exists notices,
                               chunksOut q = chunksOut p ++ notices
                               /\ Forall (isProgressNotice h) notices).
  { intros q H1 H2; split; [exact H1|].
    exists []; rewrite app_nil_r; split; [exact H2 | constructor]. }
  destruct e as [stream data|err|k|k|c s f]; simpl.
  - destruct (handleOutput_flagged h data stream p Hf) as [H1 H2].
    split; [exact H1|]. eexists; split; [exact H2|].
    destruct (exited p); repeat constructor.
    eexists; reflexivity.
  - apply Same; [exact Hf | reflexivity].
  - unfold onAbort.
    destruct (listening p); [|apply Same; [exact Hf | reflexivity]].
    destruct (pidTruthy pid); [|apply Same; [exact Hf | reflexivity]].
    destruct (exited p); [apply Same; [exact Hf | reflexivity]|].
    destruct (isWindows h); [apply Same; [exact Hf | reflexivity]|].
    destruct k; apply Same; solve [exact Hf | reflexivity].
  - unfold onGraceElapsed.
    destruct (graceArmed p); [|apply Same; [exact Hf | reflexivity]].
    destruct (exited p); [apply Same; [exact Hf | reflexivity]|].
    destruct pid; [destruct k|]; apply Same; solve [exact Hf | reflexivity].
  - apply Same; [exact Hf | reflexivity].
Qed.

Lemma run_flagged (h : ProcessorHost) (pid : option Z)
      (events : list Event) (p : Proc) :
  streamToUi p = false ->
  streamToUi (run h pid p events) = false
  /\ exists notices,
      chunksOut (run h pid p events) = chunksOut p ++ notices
      /\ Forall (isProgressNotice h) notices.
Proof.
  revert p; induction events as [|e events IH]; intros p Hf; simpl.
  - split; [exact Hf|]. exists []; rewrite app_nil_r; split;
      [reflexivity | constructor].
  - destruct (step_flagged h pid p e Hf) as (H1 & n1 & E1 & F1).
    destruct (IH _ H1) as (H2 & n2 & E2 & F2).
    split; [exact H2|]. exists (n1 ++ n2); split.
    + unfold run in E2; simpl in E2. unfold run.
      rewrite E2, E1, app_assoc; reflexivity.
    + apply Forall_app; split; assumption.
Qed.

(** Every chunk is kept, whatever the flags say. *)
Lemma step_chunks (h : ProcessorHost) (pid : option Z) (p : Proc)
      (e : Event) :
  outputChunks (step h pid p e) = outputChunks p ++ dataOf [e].
Proof.
  destruct e as [stream data|err|k|k|c s f]; simpl;
    try (rewrite app_nil_r; reflexivity).
  - reflexivity.
  - unfold onAbort.
    destruct (listening p); [|rewrite app_nil_r; reflexivity].
    destruct (pidTruthy pid); [|rewrite app_nil_r; reflexivity].
    destruct (exited p); [rewrite app_nil_r; reflexivity|].
    destruct (isWindows h); [rewrite app_nil_r; reflexivity|].
    destruct k; rewrite app_nil_r; reflexivity.
  - unfold onGraceElapsed.
    destruct (graceArmed p); [|rewrite app_nil_r; reflexivity].
    destruct (exited p); [rewrite app_nil_r; reflexivity|].
    destruct pid; [destruct k|]; rewrite app_nil_r; reflexivity.
Qed.

Lemma dataOf_app (a b : list Event) : dataOf (a ++ b) = dataOf a ++ dataOf b.
Proof.
  induction a as [|e a IH]; simpl; [reflexivity|].
  destruct e; simpl; rewrite IH; reflexivity.
Qed.

Lemma run_chunks (h : ProcessorHost) (pid : option Z) (events : list Event)
      (p : Proc) :
  outputChunks (run h pid p events) = outputChunks p ++ dataOf events.
Proof.
  revert p; induction events as [|e events IH]; intros p.
  - simpl; rewrite app_nil_r; reflexivity.
  - change (e :: events) with ([e] ++ events).
    rewrite run_app, IH, dataOf_app, app_assoc.
    f_equal. exact (step_chunks h pid p e).
Qed.

Lemma exit_resolves (h : ProcessorHost) (c : option Z)
      (s : option jsstring) (f : option jsstring) (p : Proc) :
  resolved p = None ->
  exists r,
    resolved (onExit h c s f p) = Some r
    /\ rawOutput r = bufferConcat (outputChunks p)
    /\ resultOutput r
       = combined (stdout p ++ decoderEnd h (stdoutDecoder p))
                  (stderr p ++ decoderEnd h (stderrDecoder p))
    /\ resultAborted r = aborted p
    /\ exitCode r = c /\ resultSignal r = s /\ resultError r = error p.
Proof.
  intros H; unfold onExit; rewrite H; simpl.
  eexists; split; [reflexivity|]; simpl; auto 10.
Qed.

(** C6.  Once the stream is flagged binary the flag stays for the rest of
    the run, and everything the live callback receives from then on is a
    byte-count progress notice; in the call that sets the flag the callback
    receives the halt notice followed by a progress notice; and the raw
    buffer of the result, built at the exit, is the concatenation of every
    chunk received, flagged or not. *)
Theorem binary_flag_is_one_way :
  forall (h : ProcessorHost) (pid : option Z),
    (forall (p : Proc) (events : list Event),
        streamToUi p = false ->
        streamToUi (run h pid p events) = false
        /\ exists notices,
            chunksOut (run h pid p events) = chunksOut p ++ notices
            /\ Forall (isProgressNotice h) notices)
    /\ (forall (p : Proc) (data : Buffer) (stream : Stream),
           streamToUi p = true ->
           streamToUi (handleOutput h data stream p) = false ->
           chunksOut (handleOutput h data stream p)
           = chunksOut p
               ++ HALT_NOTICE
               :: (if exited p then []
                   else [progressNotice h
                           (totalBytes (outputChunks p ++ [data]))]))
    /\ (forall (events : list Event) (c : option Z)
               (s f : option jsstring),
           resolved (run h pid start events) = None ->
           exists r,
             resolved (run h pid start (events ++ [ExitEvent c s f]))
             = Some r
             /\ rawOutput r = bufferConcat (dataOf events)).
Proof.
  intros h pid; split; [|split].
  - intros p events Hf; exact (run_flagged h pid events p Hf).
  - intros p data stream Ht Hf.
    unfold handleOutput in *; rewrite Ht in *; cbn [andb] in *.
    destruct ((sniffedBytes p <? MAX_SNIFF_SIZE)%N
              && isBinary h (bufferConcat
                               (firstn 20 (outputChunks p ++ [data]))));
      simpl in *; [|discriminate].
    destruct (exited p); simpl; rewrite <- ?app_assoc; reflexivity.
  - intros events c s f Hr.
    rewrite run_snoc; simpl.
    destruct (exit_resolves h c s f _ Hr) as (r & E & Raw & _).
    exists r; split; [exact E|].
    rewrite Raw, run_chunks; reflexivity.
Qed.

Lemma binary_flag_is_one_way_witness :
  streamToUi (run posixProcessor (Some 7%Z)
                  (run posixProcessor (Some 7%Z) start
                       [Data Stdout [0%N; 159%N; 146%N]])
                  [Data Stdout #"plain text"; Data Stderr #"more text"])
  = false.
Proof.
  refine (proj1 (proj1 (binary_flag_is_one_way posixProcessor (Some 7%Z))
                       (run posixProcessor (Some 7%Z) start
                            [Data Stdout [0%N; 159%N; 146%N]])
                       [Data Stdout #"plain text"; Data Stderr #"more text"]
                       eq_refl)).
Defined.

Lemma decodeStream_snoc (h : ProcessorHost) (datas : list Buffer)
      (d : Buffer) (pending : Buffer) :
  decodeStream h pending (datas ++ [d])
  = (fst (decodeStream h pending datas)
       ++ stripAnsiP h
            (fst (decoderWrite h (snd (decodeStream h pending datas)) d)),
     snd (decoderWrite h (snd (decodeStream h pending datas)) d)).
Proof.
  revert pending; induction datas as [|x datas IH]; intros pending; simpl.
  - rewrite app_nil_r; reflexivity.
  - rewrite IH; simpl; rewrite app_assoc; reflexivity.
Qed.

Lemma streamData_snoc (s st : Stream) (chunks : list (Stream * Buffer))
      (d : Buffer) :
  streamData s (chunks ++ [(st, d)])
  = streamData s chunks ++ (if sameStream st s then [d] else []).
Proof.
  unfold streamData; rewrite filter_app, map_app; simpl.
  destruct (sameStream st s); reflexivity.
Qed.

Lemma firstn_snoc_le {A : Type} (k : nat) (l : list A) (x : A) :
  k <= List.length l -> firstn k (l ++ [x]) = firstn k l.
Proof.
  intros H; rewrite firstn_app.
  replace (k - List.length l) with 0 by lia.
  simpl; apply app_nil_r.
Qed.

Lemma chunksOf_snoc (events : list Event) (e : Event) :
  chunksOf (events ++ [e]) = chunksOf events ++ chunkOf e.
Proof.
  unfold chunksOf; rewrite flat_map_app; simpl; rewrite app_nil_r.
  reflexivity.
Qed.

Lemma exitSeen_snoc (events : list Event) (e : Event) :
  exitSeen (events ++ [e])
  = exitSeen events || match e with ExitEvent _ _ _ => true | _ => false end.
Proof.
  unfold exitSeen; rewrite existsb_app; simpl; rewrite orb_false_r.
  reflexivity.
Qed.

Lemma liveChunks_snoc (events : list Event) (e : Event) :
  liveChunks (events ++ [e])
  = if exitSeen events then liveChunks events
    else liveChunks events ++ chunkOf e.
Proof.
  induction events as [|x events IH]; simpl.
  - destruct e; simpl; rewrite ?app_nil_r; reflexivity.
  - destruct x; simpl; rewrite ?IH; try reflexivity.
    destruct (exitSeen events); reflexivity.
Qed.

Lemma liveChunks_all (events : list Event) :
  exitSeen events = false -> liveChunks events = chunksOf events.
Proof.
  induction events as [|x events IH]; simpl; [reflexivity|].
  destruct x; simpl; try discriminate; intros H; rewrite (IH H);
    reflexivity.
Qed.

Lemma chunksOf_dataEvents (chunks : list (Stream * Buffer)) :
  chunksOf (dataEvents chunks) = chunks
  /\ liveChunks (dataEvents chunks) = chunks.
Proof.
  induction chunks as [|[st d] chunks [IH1 IH2]]; [split; reflexivity|].
  split; simpl; [fold (chunksOf (dataEvents chunks)); rewrite IH1
                | fold (dataEvents chunks); rewrite IH2]; reflexivity.
Qed.

Lemma combined_liveText (h : ProcessorHost)
      (chunks : list (Stream * Buffer)) :
  combined (fst (decodeStream h [] (streamData Stdout chunks)))
           (fst (decodeStream h [] (streamData Stderr chunks)))
  = liveText h chunks.
Proof.
  unfold combined, liveText.
  destruct (fst (decodeStream h [] (streamData Stderr chunks)));
    simpl; [apply app_nil_r | reflexivity].
Qed.

(** An event that is neither a chunk nor the exit leaves the decoding and
    the live callback alone. *)
Lemma step_quiet (h : ProcessorHost) (pid : option Z) (p : Proc)
      (e : Event) :
  chunkOf e = [] ->
  match e with ExitEvent _ _ _ => false | _ => true end = true ->
  outputChunks (step h pid p e) = outputChunks p
  /\ streamToUi (step h pid p e) = streamToUi p
  /\ sniffedBytes (step h pid p e) = sniffedBytes p
  /\ exited (step h pid p e) = exited p
  /\ stdout (step h pid p e) = stdout p
  /\ stdoutDecoder (step h pid p e) = stdoutDecoder p
  /\ stderr (step h pid p e) = stderr p
  /\ stderrDecoder (step h pid p e) = stderrDecoder p
  /\ chunksOut (step h pid p e) = chunksOut p.
Proof.
  destruct e as [stream data|err|k|k|c s f]; simpl; try discriminate;
    intros _ _.
  - repeat split.
  - unfold onAbort.
    destruct (listening p); [|repeat split].
    destruct (pidTruthy pid); [|repeat split].
    destruct (exited p) eqn:X; [repeat split; exact X|].
    destruct (isWindows h); [repeat split; exact X|].
    destruct k; repeat split; exact X.
  - unfold onGraceElapsed.
    destruct (graceArmed p); [|repeat split].
    destruct (exited p) eqn:X; [repeat split; exact X|].
    destruct pid; [destruct k|]; repeat split; exact X.
Qed.

(** While every sniff of the first 20 chunks finds text, the processor
    streams whatever events come between the chunks: every chunk is kept,
    the flag stays, until the exit the state holds the decoded text of each
    stream, and the callback has received the decoded text after each
    chunk that came before the exit. *)
Lemma trace_invariant (h : ProcessorHost) (pid : option Z)
      (events : list Event) :
  (forall k, 1 <= k <= 20 -> k <= List.length (chunksOf events) ->
             isBinary h (bufferConcat
                           (firstn k (List.map snd (chunksOf events))))
             = false) ->
  outputChunks (run h pid start events) = List.map snd (chunksOf events)
  /\ streamToUi (run h pid start events) = true
  /\ exited (run h pid start events) = exitSeen events
  /\ (exitSeen events = false ->
      (stdout (run h pid start events),
       stdoutDecoder (run h pid start events))
      = decodeStream h [] (streamData Stdout (chunksOf events))
      /\ (stderr (run h pid start events),
          stderrDecoder (run h pid start events))
         = decodeStream h [] (streamData Stderr (chunksOf events)))
  /\ chunksOut (run h pid start events)
     = List.map (fun k => liveText h (firstn k (liveChunks events)))
                (seq 1 (List.length (liveChunks events))).
Proof.
  induction events as [|e events IH] using rev_ind; intros H.
  - repeat split; reflexivity.
  - assert (H' : forall k, 1 <= k <= 20 ->
                 k <= List.length (chunksOf events) ->
                 isBinary h (bufferConcat
                               (firstn k (List.map snd (chunksOf events))))
                 = false).
    { intros k Hk Hle.
      assert (E : firstn k (List.map snd (chunksOf (events ++ [e])))
                  = firstn k (List.map snd (chunksOf events))).
      { rewrite chunksOf_snoc, map_app, firstn_app.
        replace (k - List.length (List.map snd (chunksOf events))) with 0
          by (rewrite length_map; lia).
        simpl; apply app_nil_r. }
      rewrite <- E; apply H; [exact Hk|].
      rewrite chunksOf_snoc, length_app; lia. }
    destruct (IH H') as (I1 & I2 & I3 & I4 & I6); clear IH.
    rewrite run_snoc, chunksOf_snoc, exitSeen_snoc, liveChunks_snoc.
    set (p := run h pid start events) in *.
    destruct e as [st d|err|k|k|c s f].
    + (* a chunk *)
      cbn [chunkOf]; rewrite orb_false_r. simpl step.
      assert (NB : isBinary h (bufferConcat
                                 (firstn 20 (outputChunks p ++ [d])))
                   = false).
      { rewrite I1.
        replace (List.map snd (chunksOf events) ++ [d])
          with (List.map snd (chunksOf (events ++ [Data st d])))
          by (rewrite chunksOf_snoc, map_app; reflexivity).
        destruct (Nat.le_gt_cases
                    (List.length (chunksOf (events ++ [Data st d]))) 20)
          as [Hs|Hl].
        - rewrite firstn_all2 by (rewrite length_map; exact Hs).
          rewrite <- (firstn_all
                        (List.map snd (chunksOf (events ++ [Data st d])))).
          rewrite length_map.
          apply H; [|lia].
          rewrite chunksOf_snoc, length_app in *; simpl in *; lia.
        - apply H; lia. }
      assert (Base : outputChunks (handleOutput h d st p)
                     = List.map snd (chunksOf events ++ [(st, d)])
                     /\ streamToUi (handleOutput h d st p) = true
                     /\ exited (handleOutput h d st p) = exitSeen events).
      { unfold handleOutput; rewrite I2, NB, andb_false_r; simpl.
        rewrite I1, map_app; auto. }
      destruct Base as (B1 & B2 & B3).
      split; [exact B1|]. split; [exact B2|]. split; [exact B3|].
      destruct (exitSeen events) eqn:X.
      * split; [discriminate|].
        unfold handleOutput; rewrite I2, I3, NB, andb_false_r; simpl.
        exact I6.
      * destruct (I4 eq_refl) as [I4o I4e].
        rewrite (liveChunks_all events X) in *.
        assert (Last : forall txt,
          liveText h (chunksOf events ++ [(st, d)]) = txt ->
          chunksOut p ++ [txt]
          = List.map
              (fun k => liveText h (firstn k (chunksOf events ++ [(st, d)])))
              (seq 1 (List.length (chunksOf events ++ [(st, d)])))).
        { intros txt <-. rewrite length_app, seq_app, map_app.
          change (seq (1 + List.length (chunksOf events))
                      (List.length [(st, d)]))
            with [1 + List.length (chunksOf events)].
          cbn [List.map].
          rewrite (firstn_all2 (n := 1 + List.length (chunksOf events)))
            by (rewrite length_app; simpl; lia).
          rewrite I6; f_equal.
          apply map_ext_in; intros k Hk; apply in_seq in Hk.
          rewrite firstn_snoc_le by lia; reflexivity. }
        destruct st; unfold handleOutput;
          rewrite I2, I3, NB, andb_false_r; simpl;
          rewrite !streamData_snoc; simpl; rewrite ?app_nil_r.
        -- split; [intros _; split;
                   [rewrite decodeStream_snoc, <- I4o; reflexivity
                   | exact I4e]|].
           apply Last; rewrite <- combined_liveText.
           rewrite !streamData_snoc; simpl; rewrite app_nil_r.
           rewrite decodeStream_snoc, <- I4o, <- I4e; reflexivity.
        -- split; [intros _; split;
                   [exact I4o
                   | rewrite decodeStream_snoc, <- I4e; reflexivity]|].
           apply Last; rewrite <- combined_liveText.
           rewrite !streamData_snoc; simpl; rewrite app_nil_r.
           rewrite decodeStream_snoc, <- I4o, <- I4e; reflexivity.
    + destruct (step_quiet h pid p (ErrorEvent err) eq_refl eq_refl)
        as (Q1 & Q2 & _ & Q3 & Q4 & Q5 & Q6 & Q7 & Q8).
      cbn [chunkOf]; rewrite !app_nil_r, orb_false_r.
      rewrite Q1, Q2, Q3, Q4, Q5, Q6, Q7, Q8.
      repeat (split; [assumption|]).
      destruct (exitSeen events); exact I6.
    + destruct (step_quiet h pid p (AbortEvent k) eq_refl eq_refl)
        as (Q1 & Q2 & _ & Q3 & Q4 & Q5 & Q6 & Q7 & Q8).
      cbn [chunkOf]; rewrite !app_nil_r, orb_false_r.
      rewrite Q1, Q2, Q3, Q4, Q5, Q6, Q7, Q8.
      repeat (split; [assumption|]).
      destruct (exitSeen events); exact I6.
    + destruct (step_quiet h pid p (GraceElapsed k) eq_refl eq_refl)
        as (Q1 & Q2 & _ & Q3 & Q4 & Q5 & Q6 & Q7 & Q8).
      cbn [chunkOf]; rewrite !app_nil_r, orb_false_r.
      rewrite Q1, Q2, Q3, Q4, Q5, Q6, Q7, Q8.
      repeat (split; [assumption|]).
      destruct (exitSeen events); exact I6.
    + cbn [chunkOf]; rewrite !app_nil_r, orb_true_r. simpl.
      split; [exact I1|]. split; [exact I2|]. split; [reflexivity|].
      split; [discriminate|].
      destruct (exitSeen events); exact I6.
Qed.

(** C10.  The sniff looks at the concatenation of the first 20 chunks at
    most: in every execution, whatever error, cancellation, timer and exit
    events come between the chunks, when each sniff taken while the first
    20 chunks arrive finds text, no later chunk can flag the stream, and
    the live callback has received, after every chunk that came before the
    exit, the text decoded so far: what stdout gave, then, when stderr gave
    anything, a line feed and what stderr gave. *)
Theorem sniff_limited_to_first_chunks :
  forall (h : ProcessorHost) (pid : option Z) (events : list Event),
    (forall k, 1 <= k <= 20 -> k <= List.length (chunksOf events) ->
               isBinary h (bufferConcat
                             (firstn k (List.map snd (chunksOf events))))
               = false) ->
    streamToUi (run h pid start events) = true
    /\ chunksOut (run h pid start events)
       = List.map (fun k => liveText h (firstn k (liveChunks events)))
                  (seq 1 (List.length (liveChunks events)))
    /\ forall data stream,
        sniffedBytes (handleOutput h data stream (run h pid start events))
        = (if (sniffedBytes (run h pid start events) <? MAX_SNIFF_SIZE)%N
           then N.of_nat (List.length (bufferConcat
                   (firstn 20 (List.map snd (chunksOf events) ++ [data]))))
           else sniffedBytes (run h pid start events)).
Proof.
  intros h pid events H.
  destruct (trace_invariant h pid events H) as (I1 & I2 & _ & _ & I6).
  split; [exact I2|]; split; [exact I6|].
  intros data stream; unfold handleOutput; rewrite I1, I2; simpl.
  reflexivity.
Qed.

Lemma sniff_limited_to_first_chunks_witness :
  streamToUi (run posixProcessor (Some 7%Z) start (dataEvents textThenBinary))
  = true
  /\ chunksOut
       (run posixProcessor (Some 7%Z) start
          [Data Stdout #"ab"; ErrorEvent spawnError; Data Stderr #"cd";
           AbortEvent false; Data Stdout #"ef";
           ExitEvent None (Some #"SIGTERM") None; Data Stdout #"late"])
     = [#"ab"; #"ab" ++ NL ++ #"cd"; #"abef" ++ NL ++ #"cd"].
Proof.
  split.
  - refine (proj1 (sniff_limited_to_first_chunks posixProcessor (Some 7%Z)
                     (dataEvents textThenBinary) _)).
    intros k Hk _.
    do 21 (destruct k as [|k]; [try lia; vm_compute; reflexivity|]).
    lia.
  - refine (eq_trans
              (proj1 (proj2 (sniff_limited_to_first_chunks posixProcessor
                               (Some 7%Z)
                               [Data Stdout #"ab"; ErrorEvent spawnError;
                                Data Stderr #"cd"; AbortEvent false;
                                Data Stdout #"ef";
                                ExitEvent None (Some #"SIGTERM") None;
                                Data Stdout #"late"] _))) _).
    + intros k Hk _.
      do 21 (destruct k as [|k]; [try lia; vm_compute; reflexivity|]).
      lia.
    + vm_compute; reflexivity.
Defined.

(** With a classifier that never takes back a binary verdict when bytes
    are appended, text for the whole of the first 20 chunks means text at
    every sniff. *)
Lemma sniffs_text_of_monotone (h : ProcessorHost)
      (chunks : list (Stream * Buffer)) :
  (forall a b, isBinary h a = true -> isBinary h (a ++ b) = true) ->
  isBinary h (bufferConcat (firstn 20 (List.map snd chunks))) = false ->
  forall k, 1 <= k <= 20 -> k <= List.length chunks ->
            isBinary h (bufferConcat (firstn k (List.map snd chunks)))
            = false.
Proof.
  intros Hmono H20 k Hk _.
  destruct (isBinary h (bufferConcat (firstn k (List.map snd chunks))))
    eqn:E; [|reflexivity].
  rewrite <- H20.
  rewrite <- (firstn_skipn k (firstn 20 (List.map snd chunks))).
  rewrite firstn_firstn, (Nat.min_l k 20) by lia.
  unfold bufferConcat in *; rewrite concat_app.
  symmetry; apply Hmono; exact E.
Qed.

Lemma step_grows (h : ProcessorHost) (pid : option Z) (p : Proc)
      (e : Event) :
  exists mo me,
    stdout (step h pid p e) = stdout p ++ mo
    /\ stderr (step h pid p e) = stderr p ++ me.
Proof.
  assert (Same : forall q, stdout q = stdout p -> stderr q = stderr p ->
                           exists mo me, stdout q = stdout p ++ mo
                                         /\ stderr q = stderr p ++ me).
  { intros q -> ->; exists [], []; rewrite !app_nil_r; auto. }
  destruct e as [stream data|err|k|k|c s f]; simpl.
  - unfold handleOutput; simpl.
    destruct stream; do 2 eexists; split; try reflexivity;
      rewrite app_nil_r; reflexivity.
  - apply Same; reflexivity.
  - unfold onAbort.
    destruct (listening p); [|apply Same; reflexivity].
    destruct (pidTruthy pid); [|apply Same; reflexivity].
    destruct (exited p); [apply Same; reflexivity|].
    destruct (isWindows h); [apply Same; reflexivity|].
    destruct k; apply Same; reflexivity.
  - unfold onGraceElapsed.
    destruct (graceArmed p); [|apply Same; reflexivity].
    destruct (exited p); [apply Same; reflexivity|].
    destruct pid; [destruct k|]; apply Same; reflexivity.
  - do 2 eexists; split; reflexivity.
Qed.

Lemma run_grows (h : ProcessorHost) (pid : option Z) (events : list Event)
      (p : Proc) :
  exists mo me,
    stdout (run h pid p events) = stdout p ++ mo
    /\ stderr (run h pid p events) = stderr p ++ me.
Proof.
  revert p; induction events as [|e events IH]; intros p; simpl.
  - exists [], []; rewrite !app_nil_r; auto.
  - destruct (step_grows h pid p e) as (mo & me & A & B).
    destruct (IH (step h pid p e)) as (mo' & me' & A' & B').
    exists (mo ++ mo'), (me ++ me'); unfold run in *; simpl.
    rewrite A', B', A, B, !app_assoc; auto.
Qed.

Lemma step_aborted (h : ProcessorHost) (pid : option Z) (p : Proc)
      (e : Event) :
  aborted p = true -> aborted (step h pid p e) = true.
Proof.
  intros H; destruct e as [stream data|err|k|k|c s f]; simpl; auto.
  - unfold onAbort.
    destruct (listening p); [|reflexivity].
    destruct (pidTruthy pid); [|reflexivity].
    destruct (exited p); [reflexivity|].
    destruct (isWindows h); [reflexivity|]. destruct k; reflexivity.
  - unfold onGraceElapsed.
    destruct (graceArmed p); [|exact H].
    destruct (exited p); [exact H|].
    destruct pid; [destruct k|]; exact H.
Qed.

Lemma run_aborted (h : ProcessorHost) (pid : option Z) (events : list Event)
      (p : Proc) :
  aborted p = true -> aborted (run h pid p events) = true.
Proof.
  revert p; induction events as [|e events IH]; intros p H; simpl;
    [exact H|].
  apply IH, step_aborted, H.
Qed.

Lemma abort_sets_flag (h : ProcessorHost) (pid : option Z) (k : bool)
      (p : Proc) :
  aborted (onAbort h pid k p) = true.
Proof.
  unfold onAbort.
  destruct (listening p); [|reflexivity].
  destruct (pidTruthy pid); [|reflexivity].
  destruct (exited p); [reflexivity|].
  destruct (isWindows h); [reflexivity|]. destruct k; reflexivity.
Qed.

(** Only the exit listener resolves the promise. *)
Lemma resolved_needs_exit (h : ProcessorHost) (pid : option Z)
      (events : list Event) (p : Proc) :
  resolved p = None -> noExitP events ->
  resolved (run h pid p events) = None.
Proof.
  revert p; induction events as [|e events IH]; intros p H Hn; simpl;
    [exact H|].
  apply IH.
  - destruct e as [stream data|err|k|k|c s f]; simpl; auto.
    + unfold onAbort.
      destruct (listening p); [|exact H].
      destruct (pidTruthy pid); [|exact H].
      destruct (exited p); [exact H|].
      destruct (isWindows h); [exact H|]. destruct k; exact H.
    + unfold onGraceElapsed.
      destruct (graceArmed p); [|exact H].
      destruct (exited p); [exact H|].
      destruct pid; [destruct k|]; exact H.
    + exfalso; apply (Hn c s f); left; reflexivity.
  - intros c s f Hin; apply (Hn c s f); right; exact Hin.
Qed.

(** A cancelled run of the processor resolves at the exit event, marked
    aborted, with all that was received before the cancellation and
    after. *)
Lemma processor_cancelled_then_exit (h : ProcessorHost) (pid : option Z)
      (before after : list Event) (k : bool) (c : option Z)
      (s f : option jsstring) :
  resolved (run h pid start (before ++ AbortEvent k :: after)) = None ->
  exists r moreBytes moreOut moreErr,
    resolved (run h pid start
                  (before ++ AbortEvent k :: after ++ [ExitEvent c s f]))
    = Some r
    /\ resultAborted r = true
    /\ rawOutput r
       = bufferConcat (outputChunks (run h pid start before) ++ moreBytes)
    /\ resultOutput r
       = combined (stdout (run h pid start before) ++ moreOut)
                  (stderr (run h pid start before) ++ moreErr).
Proof.
  intros Hr.
  replace (before ++ AbortEvent k :: after ++ [ExitEvent c s f])
    with ((before ++ AbortEvent k :: after) ++ [ExitEvent c s f])
    by (rewrite <- app_assoc; reflexivity).
  rewrite run_snoc; simpl.
  destruct (exit_resolves h c s f _ Hr) as (r & E & Raw & Out & Ab & _).
  rewrite run_app in Raw, Out, Ab.
  set (pb := run h pid start before) in *.
  destruct (run_grows h pid (AbortEvent k :: after) pb)
    as (mo & me & A & B).
  exists r, (dataOf (AbortEvent k :: after)).
  exists (mo ++ decoderEnd h (stdoutDecoder
                                (run h pid pb (AbortEvent k :: after)))).
  exists (me ++ decoderEnd h (stderrDecoder
                                (run h pid pb (AbortEvent k :: after)))).
  split; [exact E|]; split; [|split].
  - rewrite Ab. unfold run; simpl.
    apply (run_aborted h pid after), abort_sets_flag.
  - rewrite Raw, run_chunks; reflexivity.
  - rewrite Out, A, B, !app_assoc; reflexivity.
Qed.

End ProcessorFacts.

(** ** Cancellation: claims *)

Module ToolCancellationFacts.
Import ShellToolExecute.

Lemma tool_run_app (sp : Spawn) (r : Run) (a b : list Event) :
  run sp r (a ++ b) = run sp (run sp r a) b.
Proof. unfold run; apply fold_left_app. Qed.

Lemma step_output_grows (sp : Spawn) (r : Run) (e : Event) :
  exists more, output (step sp r e) = output r ++ more.
Proof.
  assert (Same : forall q, output q = output r ->
                           exists more, output q = output r ++ more)
    by (intros q ->; exists []; rewrite app_nil_r; reflexivity).
  destruct e as [data now|data now|err|k|k|c s pids]; simpl.
  - unfold onData; destruct (exited r); [apply Same; reflexivity|].
    eexists; reflexivity.
  - unfold onData; destruct (exited r); [apply Same; reflexivity|].
    eexists; reflexivity.
  - apply Same; reflexivity.
  - unfold onAbort.
    destruct (returned r); [apply Same; reflexivity|].
    destruct (pidTruthy (pid sp)); [|apply Same; reflexivity].
    destruct (exited r); [apply Same; reflexivity|].
    destruct (platformIsWin32 (host sp)); [apply Same; reflexivity|].
    destruct k; apply Same; reflexivity.
  - unfold onGraceElapsed.
    destruct (graceArmed r); [|apply Same; reflexivity].
    destruct (pidTruthy (pid sp)); [|apply Same; reflexivity].
    destruct (exited r); [apply Same; reflexivity|].
    destruct k; apply Same; reflexivity.
  - unfold onExit; destruct (returned r); apply Same; reflexivity.
Qed.

Lemma run_output_grows (sp : Spawn) (events : list Event) (r : Run) :
  exists more, output (run sp r events) = output r ++ more.
Proof.
  revert r; induction events as [|e events IH]; intros r; simpl.
  - exists []; rewrite app_nil_r; reflexivity.
  - destruct (step_output_grows sp r e) as (m & A).
    destruct (IH (step sp r e)) as (m' & A').
    exists (m ++ m'); unfold run in *; simpl.
    rewrite A', A, app_assoc; reflexivity.
Qed.

Lemma tool_abort_sets_flag (sp : Spawn) (k : bool) (r : Run) :
  aborted (onAbort sp k r) = true.
Proof.
  unfold onAbort.
  destruct (returned r); [reflexivity|].
  destruct (pidTruthy (pid sp)); [|reflexivity].
  destruct (exited r); [reflexivity|].
  destruct (platformIsWin32 (host sp)); [reflexivity|].
  destruct k; reflexivity.
Qed.

Lemma tool_step_aborted (sp : Spawn) (r : Run) (e : Event) :
  aborted r = true -> aborted (step sp r e) = true.
Proof.
  intros H; destruct e as [data now|data now|err|k|k|c s pids]; simpl;
    auto using tool_abort_sets_flag.
  - unfold onData; destruct (exited r); exact H.
  - unfold onData; destruct (exited r); exact H.
  - unfold onGraceElapsed.
    destruct (graceArmed r); [|exact H].
    destruct (pidTruthy (pid sp)); [|exact H].
    destruct (exited r); [exact H|]. destruct k; exact H.
  - unfold onExit; destruct (returned r); exact H.
Qed.

Lemma tool_run_aborted (sp : Spawn) (events : list Event) (r : Run) :
  aborted r = true -> aborted (run sp r events) = true.
Proof.
  revert r; induction events as [|e events IH]; intros r H; simpl;
    [exact H|].
  apply IH, tool_step_aborted, H.
Qed.

(** Only the exit listener lets [execute] return. *)
Lemma returned_needs_exit (sp : Spawn) (events : list Event) (r : Run) :
  returned r = None -> noExitT events -> returned (run sp r events) = None.
Proof.
  revert r; induction events as [|e events IH]; intros r H Hn; simpl;
    [exact H|].
  apply IH.
  - destruct e as [data now|data now|err|k|k|c s pids]; simpl; auto.
    + unfold onData; destruct (exited r); exact H.
    + unfold onData; destruct (exited r); exact H.
    + unfold onAbort; rewrite H.
      destruct (pidTruthy (pid sp)); [|exact H].
      destruct (exited r); [exact H|].
      destruct (platformIsWin32 (host sp)); [exact H|].
      destruct k; exact H.
    + unfold onGraceElapsed.
      destruct (graceArmed r); [|exact H].
      destruct (pidTruthy (pid sp)); [|exact H].
      destruct (exited r); [exact H|]. destruct k; exact H.
    + exfalso; apply (Hn c s pids); left; reflexivity.
  - intros c s pids Hin; apply (Hn c s pids); right; exact Hin.
Qed.

(** A cancelled run of the tool returns at the exit event the cancelled
    transcript, with the output received before the cancellation and
    after. *)
Lemma tool_cancelled_then_exit (sp : Spawn) (r0 : Run)
      (before after : list Event) (k : bool) (c : option Z)
      (s : option jsstring) (pids : option jsstring) :
  returned (run sp r0 (before ++ AbortEvent k :: after)) = None ->
  exists res more,
    returned (run sp r0
                  (before ++ AbortEvent k :: after ++ [ExitEvent c s pids]))
    = Some res
    /\ llmContent res
       = cancelledTranscript (output (run sp r0 before) ++ more).
Proof.
  intros Hr.
  replace (before ++ AbortEvent k :: after ++ [ExitEvent c s pids])
    with ((before ++ AbortEvent k :: after) ++ [ExitEvent c s pids])
    by (rewrite <- app_assoc; reflexivity).
  rewrite (tool_run_app sp r0 (before ++ AbortEvent k :: after)).
  set (r := run sp r0 (before ++ AbortEvent k :: after)) in *.
  assert (Ab : aborted r = true).
  { unfold r; rewrite tool_run_app; unfold run at 1; simpl.
    apply (tool_run_aborted sp after), tool_abort_sets_flag. }
  destruct (run_output_grows sp (AbortEvent k :: after) (run sp r0 before))
    as (more & Out).
  rewrite <- tool_run_app in Out; fold r in Out.
  unfold run at 1; simpl; unfold onExit; rewrite Hr; simpl.
  eexists; exists more; split; [reflexivity|].
  unfold buildResult; simpl; rewrite Ab, Out; reflexivity.
Qed.

End ToolCancellationFacts.

Lemma processor_no_pid_no_kill (h : ProcessorHost)
      (events : list ShellCommandProcessor.Event)
      (p : ShellCommandProcessor.Proc) :
  ShellCommandProcessor.kills (ShellCommandProcessor.run h None p events)
  = ShellCommandProcessor.kills p.
Proof.
  revert p; induction events as [|e events IH]; intros p; [reflexivity|].
  change (ShellCommandProcessor.run h None p (e :: events))
    with (ShellCommandProcessor.run h None
            (ShellCommandProcessor.step h None p e) events).
  rewrite IH.
  destruct e as [stream data|err|k|k|c s f]; simpl; try reflexivity.
  - unfold ShellCommandProcessor.onAbort; simpl.
    destruct (ShellCommandProcessor.listening p); simpl; apply app_nil_r.
  - unfold ShellCommandProcessor.onGraceElapsed.
    destruct (ShellCommandProcessor.graceArmed p); [|reflexivity].
    destruct (ShellCommandProcessor.exited p); simpl; apply app_nil_r.
Qed.

Lemma tool_no_pid_no_kill (sp : ShellToolExecute.Spawn)
      (events : list ShellToolExecute.Event) (r : ShellToolExecute.Run) :
  ShellToolExecute.pid sp = None ->
  ShellToolExecute.kills (ShellToolExecute.run sp r events)
  = ShellToolExecute.kills r.
Proof.
  intros Hp; revert r; induction events as [|e events IH]; intros r;
    [reflexivity|].
  change (ShellToolExecute.run sp r (e :: events))
    with (ShellToolExecute.run sp (ShellToolExecute.step sp r e) events).
  rewrite IH.
  destruct e as [data now|data now|err|k|k|c s pids]; simpl;
    try reflexivity.
  - unfold ShellToolExecute.onData.
    destruct (ShellToolExecute.exited r); reflexivity.
  - unfold ShellToolExecute.onData.
    destruct (ShellToolExecute.exited r); reflexivity.
  - unfold ShellToolExecute.onAbort; rewrite Hp; simpl.
    destruct (ShellToolExecute.returned r); simpl; apply app_nil_r.
  - unfold ShellToolExecute.onGraceElapsed; rewrite Hp; simpl.
    destruct (ShellToolExecute.graceArmed r); simpl;
      [apply app_nil_r | reflexivity].
  - unfold ShellToolExecute.onExit.
    destruct (ShellToolExecute.returned r); reflexivity.
Qed.

(** C7 (the code departs from the claim).  Nothing but the exit listener
    resolves the promise, in the processor and in the tool alike.  When the
    spawn itself fails the child has no process id, and the runtime
    delivers an error event and no exit event.  A run without a process id
    that is cancelled is marked aborted and sends no signal, whatever came
    before the cancellation and whatever follows it; as long as no exit
    event comes, and for a failed spawn none does, the promise is not
    resolved and the caller stays blocked, although the error has been
    stored for a result. *)
Theorem cancelled_failed_spawn_stays_pending :
  (forall (h : ProcessorHost)
          (before later : list ShellCommandProcessor.Event) (k : bool),
      noExitP (before ++ later) ->
      ShellCommandProcessor.aborted
        (ShellCommandProcessor.run h None ShellCommandProcessor.start
           (before ++ ShellCommandProcessor.AbortEvent k :: later)) = true
      /\ ShellCommandProcessor.kills
           (ShellCommandProcessor.run h None ShellCommandProcessor.start
              (before ++ ShellCommandProcessor.AbortEvent k :: later)) = []
      /\ ShellCommandProcessor.resolved
           (ShellCommandProcessor.run h None ShellCommandProcessor.start
              (before ++ ShellCommandProcessor.AbortEvent k :: later))
         = None)
  /\ (forall (sp : ShellToolExecute.Spawn) (self0 : ShellToolState)
             (t0 : Z) (before later : list ShellToolExecute.Event)
             (k : bool),
         ShellToolExecute.pid sp = None ->
         noExitT (before ++ later) ->
         ShellToolExecute.aborted
           (ShellToolExecute.run sp (ShellToolExecute.start self0 t0)
              (before ++ ShellToolExecute.AbortEvent k :: later)) = true
         /\ ShellToolExecute.kills
              (ShellToolExecute.run sp (ShellToolExecute.start self0 t0)
                 (before ++ ShellToolExecute.AbortEvent k :: later)) = []
         /\ ShellToolExecute.returned
              (ShellToolExecute.run sp (ShellToolExecute.start self0 t0)
                 (before ++ ShellToolExecute.AbortEvent k :: later))
            = None).
Proof.
  split.
  - intros h before later k Hn. split; [|split].
    + rewrite ProcessorFacts.run_app.
      change (ShellCommandProcessor.AbortEvent k :: later)
        with ([ShellCommandProcessor.AbortEvent k] ++ later).
      rewrite ProcessorFacts.run_app.
      apply ProcessorFacts.run_aborted, ProcessorFacts.abort_sets_flag.
    + apply processor_no_pid_no_kill.
    + apply ProcessorFacts.resolved_needs_exit; [reflexivity|].
      intros c s f Hin. apply in_app_or in Hin as [Hin|[Hin|Hin]];
        [|discriminate|]; apply (Hn c s f), in_or_app; auto.
  - intros sp self0 t0 before later k Hp Hn. split; [|split].
    + rewrite ToolCancellationFacts.tool_run_app.
      change (ShellToolExecute.AbortEvent k :: later)
        with ([ShellToolExecute.AbortEvent k] ++ later).
      rewrite ToolCancellationFacts.tool_run_app.
      apply ToolCancellationFacts.tool_run_aborted,
        ToolCancellationFacts.tool_abort_sets_flag.
    + apply tool_no_pid_no_kill, Hp.
    + apply ToolCancellationFacts.returned_needs_exit; [reflexivity|].
      intros c s pids Hin. apply in_app_or in Hin as [Hin|[Hin|Hin]];
        [|discriminate|]; apply (Hn c s pids), in_or_app; auto.
Qed.

Lemma cancelled_failed_spawn_stays_pending_witness :
  ShellToolExecute.returned
    (ShellToolExecute.run failedSpawn (ShellToolExecute.start emptyTool 0)
       ([ShellToolExecute.ErrorEvent spawnError]
          ++ ShellToolExecute.AbortEvent false
          :: [ShellToolExecute.GraceElapsed false;
              ShellToolExecute.AbortEvent false]))
  = None
  /\ ShellCommandProcessor.resolved
       (ShellCommandProcessor.run posixProcessor None
          ShellCommandProcessor.start
          ([ShellCommandProcessor.ErrorEvent spawnError]
             ++ ShellCommandProcessor.AbortEvent false :: []))
     = None.
Proof.
  split.
  - refine (proj2 (proj2 (proj2 cancelled_failed_spawn_stays_pending
                            failedSpawn emptyTool 0%Z
                            [ShellToolExecute.ErrorEvent spawnError]
                            [ShellToolExecute.GraceElapsed false;
                             ShellToolExecute.AbortEvent false]
                            false eq_refl _))).
    intros c s pids [H|[H|[H|[]]]]; discriminate H.
  - refine (proj2 (proj2 (proj1 cancelled_failed_spawn_stays_pending
                            posixProcessor
                            [ShellCommandProcessor.ErrorEvent spawnError]
                            [] false _))).
    intros c s f [H|[]]; discriminate H.
Defined.

(** When the exit event does come, a cancelled run resolves: the
    processor's result is marked aborted and extends the bytes and the
    text received up to the cancellation; the tool returns the cancelled
    transcript over an extension of the output received up to the
    cancellation.  Without an exit event neither of them resolves. *)
Lemma cancelled_run_resolves_at_exit :
  (forall (h : ProcessorHost) (pid : option Z)
          (before after : list ShellCommandProcessor.Event) (k : bool)
          (c : option Z) (s f : option jsstring),
      ShellCommandProcessor.resolved
        (ShellCommandProcessor.run h pid ShellCommandProcessor.start
           (before ++ ShellCommandProcessor.AbortEvent k :: after)) = None ->
      exists r moreBytes moreOut moreErr,
        ShellCommandProcessor.resolved
          (ShellCommandProcessor.run h pid ShellCommandProcessor.start
             (before ++ ShellCommandProcessor.AbortEvent k
                     :: after ++ [ShellCommandProcessor.ExitEvent c s f]))
        = Some r
        /\ resultAborted r = true
        /\ rawOutput r
           = bufferConcat
               (ShellCommandProcessor.outputChunks
                  (ShellCommandProcessor.run h pid
                     ShellCommandProcessor.start before) ++ moreBytes)
        /\ resultOutput r
           = ShellCommandProcessor.combined
               (ShellCommandProcessor.stdout
                  (ShellCommandProcessor.run h pid
                     ShellCommandProcessor.start before) ++ moreOut)
               (ShellCommandProcessor.stderr
                  (ShellCommandProcessor.run h pid
                     ShellCommandProcessor.start before) ++ moreErr))
  /\ (forall (sp : ShellToolExecute.Spawn) (self0 : ShellToolState)
             (t0 : Z) (before after : list ShellToolExecute.Event)
             (k : bool) (c : option Z) (s : option jsstring)
             (pids : option jsstring),
         ShellToolExecute.returned
           (ShellToolExecute.run sp (ShellToolExecute.start self0 t0)
              (before ++ ShellToolExecute.AbortEvent k :: after)) = None ->
         exists res more,
           ShellToolExecute.returned
             (ShellToolExecute.run sp (ShellToolExecute.start self0 t0)
                (before ++ ShellToolExecute.AbortEvent k
                        :: after ++ [ShellToolExecute.ExitEvent c s pids]))
           = Some res
           /\ llmContent res
              = cancelledTranscript
                  (ShellToolExecute.output
                     (ShellToolExecute.run sp
                        (ShellToolExecute.start self0 t0) before) ++ more))
  /\ (forall (h : ProcessorHost) (pid : option Z)
             (events : list ShellCommandProcessor.Event),
         noExitP events ->
         ShellCommandProcessor.resolved
           (ShellCommandProcessor.run h pid ShellCommandProcessor.start
              events) = None)
  /\ (forall (sp : ShellToolExecute.Spawn) (self0 : ShellToolState)
             (t0 : Z) (events : list ShellToolExecute.Event),
         noExitT events ->
         ShellToolExecute.returned
           (ShellToolExecute.run sp (ShellToolExecute.start self0 t0)
              events) = None).
Proof.
  split; [|split; [|split]].
  - intros; apply ProcessorFacts.processor_cancelled_then_exit; assumption.
  - intros; apply ToolCancellationFacts.tool_cancelled_then_exit; assumption.
  - intros; apply ProcessorFacts.resolved_needs_exit;
      [reflexivity | assumption].
  - intros; apply ToolCancellationFacts.returned_needs_exit;
      [reflexivity | assumption].
Qed.

Lemma cancelled_run_resolves_at_exit_witness :
  exists r,
    ShellCommandProcessor.resolved
      (ShellCommandProcessor.run posixProcessor (Some 7%Z)
         ShellCommandProcessor.start
         ([ShellCommandProcessor.Data Stdout #"partial"]
            ++ ShellCommandProcessor.AbortEvent false
            :: [] ++ [ShellCommandProcessor.ExitEvent None (Some #"SIGTERM")
                                                     None]))
    = Some r
    /\ resultAborted r = true.
Proof.
  destruct (proj1 cancelled_run_resolves_at_exit posixProcessor (Some 7%Z)
              [ShellCommandProcessor.Data Stdout #"partial"] []
              false None (Some #"SIGTERM") None eq_refl)
    as (r & _ & _ & _ & E & A & _).
  exists r; split; [exact E | exact A].
Defined.

(* ================================================================== *)
(** * Further properties *)
(* ================================================================== *)

Import MoreVocabulary.

(** ** The root command and validation *)

Module ValidationFacts.

Lemma takeWhile_In (f : N -> bool) (s : jsstring) (x : N) :
  In x (takeWhile f s) -> f x = true /\ In x s.
Proof.
  induction s as [|c s IH]; simpl; [intros []|].
  destruct (f c) eqn:E; [|intros []].
  intros [<-|H]; [auto|]. destruct (IH H); auto.
Qed.

(** X1.  The root command never holds a path separator, a blank, one of
    [;], [&], [|], or a brace or parenthesis. *)
Theorem root_command_is_bare :
  forall (command : jsstring) (x : N),
    In x (getCommandRoot command) ->
    isPathSep x = false /\ isTokenBreak x = false /\ isGrouping x = false.
Proof.
  intros command x H.
  unfold getCommandRoot, lastPathSegment in H.
  apply in_rev, takeWhile_In in H as [H1 H2].
  apply in_rev in H2; unfold firstToken in H2.
  apply takeWhile_In in H2 as [H2 H3].
  unfold removeAll in H3; apply filter_In in H3 as [_ H3].
  repeat split; apply negb_true_iff; assumption.
Qed.

Lemma root_command_is_bare_witness :
  isPathSep 103%N = false /\ isTokenBreak 103%N = false
  /\ isGrouping 103%N = false.
Proof.
  apply (root_command_is_bare #"(/usr/bin/git status)" 103%N).
  vm_compute; auto.
Defined.

Lemma startsWith_sudo (s : jsstring) :
  startsWith s #"sudo " = true -> exists rest, s = #"sudo " ++ rest.
Proof. apply JSFacts.startsWith_iff. Qed.

(** X2.  Every command that starts with [sudo ] once trimmed has the root
    command [sudo]. *)
Theorem root_command_of_sudo :
  forall command : jsstring,
    startsWith (trim command) #"sudo " = true ->
    getCommandRoot command = #"sudo".
Proof.
  intros command H.
  destruct (startsWith_sudo _ H) as [rest E].
  unfold getCommandRoot; rewrite E; reflexivity.
Qed.

Lemma root_command_of_sudo_witness :
  getCommandRoot #"  sudo /usr/bin/apt-get update | tee log" = #"sudo".
Proof.
  apply (root_command_of_sudo #"  sudo /usr/bin/apt-get update | tee log").
  reflexivity.
Defined.

(** X3.  A command that is empty or blank never validates, whatever the
    policy, the schema validator and the directory are. *)
Theorem blank_command_never_validates :
  forall (host : Host) (config : Config) (params : ShellToolParams),
    trim (command params) = [] ->
    validateToolParams host config params <> None.
Proof.
  intros host config params H; unfold validateToolParams.
  destruct (isCommandAllowed config (command params)); [|discriminate].
  destruct (schemaValidate host params); [|discriminate].
  rewrite H; discriminate.
Qed.

Lemma blank_command_never_validates_witness :
  validateToolParams posixHost noPolicy (request #"   ") <> None.
Proof.
  apply (blank_command_never_validates posixHost noPolicy (request #"   ")).
  reflexivity.
Defined.

(** A request validates exactly when the gate allows the command,
    the schema validator accepts the parameters, the command is not blank,
    it has a root command, and the directory, when one is given, is not
    absolute and exists under the target directory. *)
Lemma validated_request :
  forall (host : Host) (config : Config) (params : ShellToolParams),
    validateToolParams host config params = None <->
    isCommandAllowed config (command params) = true
    /\ schemaValidate host params = true
    /\ trim (command params) <> []
    /\ getCommandRoot (command params) <> []
    /\ forall dir, directory params = Some dir -> dir <> [] ->
                   pathIsAbsolute host dir = false
                   /\ fsExistsSync host
                        (pathResolve host (getTargetDir config) dir) = true.
Proof.
  intros host config params; unfold validateToolParams.
  destruct (isCommandAllowed config (command params));
    [|split; [discriminate | intros (H & _); discriminate]].
  destruct (schemaValidate host params);
    [|split; [discriminate | intros (_ & H & _); discriminate]].
  destruct (trim (command params)) as [|c t] eqn:Et;
    [split; [discriminate | intros (_ & _ & H & _); contradiction]|].
  destruct (getCommandRoot (command params)) as [|c' t'] eqn:Er;
    [split; [discriminate | intros (_ & _ & _ & H & _); contradiction]|].
  simpl.
  assert (Front : forall P : Prop, P ->
            true = true /\ true = true /\ c :: t <> [] /\ c' :: t' <> []
            /\ P)
    by (intros P HP; repeat (split; [reflexivity || discriminate|]);
        exact HP).
  destruct (directory params) as [dir|].
  - destruct dir as [|d dir]; simpl.
    + split; [|reflexivity]. intros _; apply Front.
      intros dir' E Hne; inversion E; subst; contradiction.
    + destruct (pathIsAbsolute host (d :: dir)) eqn:Ea.
      * split; [discriminate|]. intros (_ & _ & _ & _ & H).
        destruct (H _ eq_refl) as [H' _]; [discriminate | congruence].
      * destruct (fsExistsSync host _) eqn:Ee; simpl.
        -- split; [|reflexivity]. intros _; apply Front.
           intros dir' E Hne; inversion E; subst; split; assumption.
        -- split; [discriminate|]. intros (_ & _ & _ & _ & H).
           destruct (H _ eq_refl) as [_ H']; [discriminate | congruence].
  - split; [|reflexivity]. intros _; apply Front.
    intros dir' E; discriminate.
Qed.

Lemma grouping_cases (c : N) :
  isGrouping c = true -> isWhiteSpace c = false /\ isTokenBreak c = false.
Proof.
  unfold isGrouping; rewrite !orb_true_iff, !N.eqb_eq.
  intros [[[->| ->]| ->]| ->]; split; reflexivity.
Qed.

Lemma dropWhile_snoc_keep (f : N -> bool) (l : jsstring) (c : N) :
  f c = false -> dropWhile f (l ++ [c]) = dropWhile f l ++ [c].
Proof.
  intros Hc; induction l as [|a l IH]; simpl; [rewrite Hc; reflexivity|].
  destruct (f a); [exact IH | reflexivity].
Qed.

Lemma dropWhile_snoc (f : N -> bool) (l : jsstring) (x : N) :
  dropWhile f (l ++ [x]) = []
  \/ exists l', dropWhile f (l ++ [x]) = l' ++ [x].
Proof.
  induction l as [|a l IH]; simpl.
  - destruct (f x); [left; reflexivity | right; exists []; reflexivity].
  - destruct (f a); [exact IH | right; exists (a :: l); reflexivity].
Qed.

Lemma trimEnd_head (x : N) (s : jsstring) :
  trimEnd (x :: s) = [] \/ exists t, trimEnd (x :: s) = x :: t.
Proof.
  unfold trimEnd; simpl rev.
  destruct (dropWhile_snoc isWhiteSpace (rev s) x) as [->|[l' ->]];
    [left; reflexivity|].
  right; exists (rev l'); rewrite rev_app_distr; reflexivity.
Qed.

(** X29.  A command that opens with a brace or a parenthesis followed by
    a blank or one of [;], [&], [|], such as [{ ls; }], has no root
    command, and is therefore rejected whatever the policy is. *)
Theorem grouped_command_has_no_root :
  forall (host : Host) (config : Config) (params : ShellToolParams)
         (c w : N) (rest : jsstring),
    isGrouping c = true -> isTokenBreak w = true ->
    command params = c :: w :: rest ->
    getCommandRoot (command params) = []
    /\ validateToolParams host config params <> None.
Proof.
  intros host config params c w rest Hc Hw E.
  assert (R : getCommandRoot (command params) = []).
  { rewrite E. destruct (grouping_cases c Hc) as [Wc _].
    unfold getCommandRoot, trim, trimStart; cbn [dropWhile]; rewrite Wc.
    assert (T : trimEnd (c :: w :: rest) = c :: trimEnd (w :: rest)).
    { unfold trimEnd; simpl rev.
      rewrite (dropWhile_snoc_keep _ _ _ Wc), rev_app_distr; reflexivity. }
    rewrite T; unfold removeAll; cbn [filter]; rewrite Hc; cbn [negb].
    destruct (trimEnd_head w rest) as [->|[t ->]]; [reflexivity|].
    cbn [filter].
    destruct (isGrouping w) eqn:Gw.
    - destruct (grouping_cases w Gw) as [_ B]; congruence.
    - cbn [negb]; unfold firstToken; cbn [takeWhile]; rewrite Hw.
      reflexivity. }
  split; [exact R|].
  intros V; apply validated_request in V as (_ & _ & _ & N & _).
  contradiction.
Qed.

Lemma grouped_command_has_no_root_witness :
  validateToolParams posixHost noPolicy (request #"{ ls; }") <> None.
Proof.
  exact (proj2 (grouped_command_has_no_root posixHost noPolicy
                  (request #"{ ls; }") 123%N 32%N #"ls; }"
                  eq_refl eq_refl eq_refl)).
Defined.

End ValidationFacts.

(** ** The whitelist of approved root commands *)

Module WhitelistFacts.

Lemma setAdd_has (s : list jsstring) (x : jsstring) :
  arrayIncludes (setAdd s x) x = true.
Proof.
  unfold setAdd; destruct (arrayIncludes s x) eqn:E; [exact E|].
  apply JSFacts.arrayIncludes_In, in_or_app; right; left; reflexivity.
Qed.

Lemma setAdd_keeps (s : list jsstring) (x y : jsstring) :
  In y s -> In y (setAdd s x).
Proof.
  unfold setAdd; destruct (arrayIncludes s x); [auto|].
  intros H; apply in_or_app; left; exact H.
Qed.

Lemma setAdd_NoDup (s : list jsstring) (x : jsstring) :
  NoDup s -> NoDup (setAdd s x).
Proof.
  unfold setAdd; destruct (arrayIncludes s x) eqn:E; [auto|].
  intros H. apply NoDup_app; [exact H | repeat constructor; intros [] |].
  intros y Hy [<-|[]].
  apply JSFacts.arrayIncludes_In in Hy; congruence.
Qed.

(** The exec confirmation carries the root command and the continuation
    that whitelists it. *)
Lemma exec_confirmation_shape (host : Host) (config : Config)
      (self : ShellToolState) (params : ShellToolParams) (now : Z)
      (title cmd root : jsstring)
      (k : ToolConfirmationOutcome -> ShellToolState -> ShellToolState) :
  shouldConfirmExecute host config self params now
  = Some (ExecConfirmation title cmd root k) ->
  validateToolParams host config params = None
  /\ cmd = command params
  /\ root = getCommandRoot (command params)
  /\ k = execOnConfirm (getCommandRoot (command params))
  /\ arrayIncludes (whitelist self) (getCommandRoot (command params)) = false.
Proof.
  unfold shouldConfirmExecute.
  destruct (validateToolParams host config params); [discriminate|].
  destruct (_ && _ && _); [discriminate|].
  destruct (arrayIncludes _ _) eqn:E; [discriminate|].
  intros H; inversion H; subst; auto.
Qed.

(** X4.  After "allow always" on an exec confirmation, no valid command
    with the same root command is asked for confirmation again, unless it
    is a sudo command on POSIX whose password is not cached (the password
    prompt comes first). *)
Theorem allow_always_approves_root :
  forall (host : Host) (config : Config) (self : ShellToolState)
         (params : ShellToolParams) (now : Z) (title cmd root : jsstring)
         (k : ToolConfirmationOutcome -> ShellToolState -> ShellToolState),
    shouldConfirmExecute host config self params now
    = Some (ExecConfirmation title cmd root k) ->
    forall (params' : ShellToolParams) (later : Z),
      validateToolParams host config params' = None ->
      getCommandRoot (command params') = root ->
      (sudoOnPosix host params' ->
       isPasswordCached (k ProceedAlways self) later = true) ->
      shouldConfirmExecute host config (k ProceedAlways self) params' later
      = None.
Proof.
  intros host config self params now title cmd root k H params' later V R S.
  destruct (exec_confirmation_shape _ _ _ _ _ _ _ _ _ H)
    as (_ & _ & -> & -> & _).
  unfold shouldConfirmExecute; rewrite V, R.
  assert (P : startsWith (trim (command params')) #"sudo "
              && negb (platformIsWin32 host)
              && negb (isPasswordCached
                         (execOnConfirm (getCommandRoot (command params))
                                        ProceedAlways self) later) = false).
  { destruct (startsWith _ _) eqn:E1; [|reflexivity].
    destruct (platformIsWin32 host) eqn:E2; [reflexivity|].
    rewrite S by (split; assumption); reflexivity. }
  rewrite P; simpl. rewrite setAdd_has; reflexivity.
Qed.

Lemma allow_always_approves_root_witness :
  shouldConfirmExecute posixHost noPolicy
    (execOnConfirm #"git" ProceedAlways emptyTool)
    (request #"git push --force") 50 = None.
Proof.
  refine (allow_always_approves_root posixHost noPolicy emptyTool
            (request #"git status") 10
            #"Confirm Shell Command" #"git status" #"git"
            (execOnConfirm #"git") eq_refl
            (request #"git push --force") 50 eq_refl eq_refl _).
  intros [H _]; vm_compute in H; discriminate.
Defined.

(** X5.  The continuation of an exec confirmation changes the tool only on
    "allow always"; whatever the outcome, it keeps every root command
    already approved, adds no duplicate, and leaves the cached password and
    its timestamp alone. *)
Theorem exec_outcome_effect :
  forall (host : Host) (config : Config) (self : ShellToolState)
         (params : ShellToolParams) (now : Z) (title cmd root : jsstring)
         (k : ToolConfirmationOutcome -> ShellToolState -> ShellToolState),
    shouldConfirmExecute host config self params now
    = Some (ExecConfirmation title cmd root k) ->
    forall (outcome : ToolConfirmationOutcome) (tool : ShellToolState),
      (outcome <> ProceedAlways -> k outcome tool = tool)
      /\ (forall x, In x (whitelist tool) ->
                    In x (whitelist (k outcome tool)))
      /\ (NoDup (whitelist tool) -> NoDup (whitelist (k outcome tool)))
      /\ sudoPassword (k outcome tool) = sudoPassword tool
      /\ sudoPasswordTimestamp (k outcome tool) = sudoPasswordTimestamp tool.
Proof.
  intros host config self params now title cmd root k H outcome tool.
  destruct (exec_confirmation_shape _ _ _ _ _ _ _ _ _ H)
    as (_ & _ & _ & -> & _).
  destruct outcome; simpl; repeat split; auto; try contradiction.
  - intros x; apply setAdd_keeps.
  - apply setAdd_NoDup.
Qed.

Lemma exec_outcome_effect_witness :
  execOnConfirm #"git" Cancel hunter2Tool = hunter2Tool.
Proof.
  refine (proj1 (exec_outcome_effect posixHost noPolicy emptyTool
                   (request #"git status") 10
                   #"Confirm Shell Command" #"git status" #"git"
                   (execOnConfirm #"git") eq_refl Cancel hunter2Tool) _).
  discriminate.
Defined.

End WhitelistFacts.

(** ** What [execute] spawns and returns *)

Module ExecuteFacts.

Lemma endsWith_suffix (s p : jsstring) :
  endsWith s p = true <-> isSuffixOf p s.
Proof.
  unfold endsWith, isSuffixOf; rewrite JSFacts.startsWith_iff; split.
  - intros [r E]. exists (rev r).
    rewrite <- (rev_involutive s), E, rev_app_distr, rev_involutive.
    reflexivity.
  - intros [front ->]. exists (rev front); apply rev_app_distr.
Qed.

(** X6.  [execute] spawns a process only for a request that validates
    (no command substitution, tool not denied, every sub-command passing
    the policy, command not blank) and that is not cancelled at the start,
    and a sudo command on POSIX only with a cached password.  On Windows
    the process is [cmd.exe /c] with the command as it was given.
    Elsewhere it is [bash -c] with the text [{ c; }; __code=$?; pgrep -g 0
    >tmp 2>&1; exit $__code;], the [;] after [c] left out when [c] ends
    with [&], where [c] is the command as it was given, or, for [sudo
    rest], the echo of the quoted cached password piped into [sudo -S --
    rest]. *)
Theorem execute_spawn_conditions :
  forall (host : Host) (config : Config) (self : ShellToolState)
         (params : ShellToolParams) (abortedAtStart : bool) (now : Z)
         (tmp file : jsstring) (args : list jsstring),
    executeStart host config self params abortedAtStart now tmp
    = Spawned file args ->
    abortedAtStart = false
    /\ ~ HasSubstring (command params) #"$("
    /\ ~ HasSubstring (command params) #"`"
    /\ ~ toolDenied config
    /\ (forall sub, In sub (subCommands (command params)) ->
                    subCommandPasses config sub)
    /\ trim (command params) <> []
    /\ (sudoOnPosix host params -> isPasswordCached self now = true)
    /\ ((platformIsWin32 host = true /\ file = #"cmd.exe"
         /\ args = [#"/c"; command params])
        \/ (platformIsWin32 host = false /\ file = #"bash"
            /\ exists shellCommand closing,
                args = [#"-c";
                        #"{ " ++ shellCommand ++ closing
                          ++ #" }; __code=$?; pgrep -g 0 >" ++ tmp
                          ++ #" 2>&1; exit $__code;"]
                /\ ((isSuffixOf #"&" (trim shellCommand) /\ closing = [])
                    \/ (~ isSuffixOf #"&" (trim shellCommand)
                        /\ closing = #";"))
                /\ ((startsWith (trim (command params)) #"sudo " = false
                     /\ shellCommand = command params)
                    \/ exists secret rest,
                        trim (command params) = #"sudo " ++ rest
                        /\ sudoPassword self = Some secret
                        /\ shellCommand
                           = #"echo '" ++ replaceAllChar QUOTE #"'\''" secret
                               ++ #"' | sudo -S -- " ++ rest))).
Proof.
  intros host config self params ab now tmp file args H.
  unfold executeStart in H.
  destruct (validateToolParams host config params) eqn:V; [discriminate|].
  apply ValidationFacts.validated_request in V as (Ga & _ & Nb & _).
  apply GateFacts.isCommandAllowed_iff in Ga as (G1 & G2 & G3 & G4).
  destruct ab; [discriminate|].
  split; [reflexivity|].
  repeat (split; [assumption|]).
  assert (Wrapped : forall c,
    exists closing,
      pgrepWrap c tmp
      = #"{ " ++ c ++ closing ++ #" }; __code=$?; pgrep -g 0 >" ++ tmp
          ++ #" 2>&1; exit $__code;"
      /\ ((isSuffixOf #"&" (trim c) /\ closing = [])
          \/ (~ isSuffixOf #"&" (trim c) /\ closing = #";"))).
  { intros c; unfold pgrepWrap.
    destruct (endsWith (trim c) #"&") eqn:E; cbn [negb].
    - exists []; split; [reflexivity|].
      left; split; [apply endsWith_suffix, E | reflexivity].
    - exists #";"; split; [rewrite <- !app_assoc; reflexivity|].
      right; split; [|reflexivity].
      intros S; apply endsWith_suffix in S; congruence. }
  destruct (platformIsWin32 host) eqn:W; cbn [negb andb] in H.
  - inversion H; subst. split; [intros [_ C]; congruence|].
    left; auto.
  - destruct (startsWith (trim (command params)) #"sudo ") eqn:S.
    + destruct (isPasswordCached self now) eqn:C; cbn [negb] in H;
        [|discriminate].
      destruct (sudoPassword self) as [secret|] eqn:P; [|discriminate].
      inversion H; subst. split; [reflexivity|].
      right; split; [reflexivity|]; split; [reflexivity|].
      destruct (Wrapped (wrapSudo secret (trim (command params))))
        as (closing & E & Hc).
      destruct (ValidationFacts.startsWith_sudo _ S) as [rest R].
      assert (Shape : wrapSudo secret (trim (command params))
                      = #"echo '" ++ replaceAllChar QUOTE #"'\''" secret
                          ++ #"' | sudo -S -- " ++ rest).
      { rewrite R; unfold wrapSudo; do 2 f_equal. }
      rewrite Shape in Hc.
      eexists; exists closing; split; [rewrite E, Shape; reflexivity|].
      split; [exact Hc|].
      right; exists secret, rest; auto.
    + inversion H; subst. split; [intros [C _]; congruence|].
      right; split; [reflexivity|]; split; [reflexivity|].
      destruct (Wrapped (command params)) as (closing & E & Hc).
      exists (command params), closing; split; [rewrite E; reflexivity|].
      split; [exact Hc|]. left; auto.
Qed.

Lemma execute_spawn_conditions_witness :
  exists shellCommand closing,
    [#"-c";
     #"{ echo 'hunter2' | sudo -S -- ls; }; __code=$?; pgrep -g 0 >/tmp/p.tmp 2>&1; exit $__code;"]
    = [#"-c";
       #"{ " ++ shellCommand ++ closing
         ++ #" }; __code=$?; pgrep -g 0 >" ++ #"/tmp/p.tmp"
         ++ #" 2>&1; exit $__code;"]
    /\ shellCommand = #"echo 'hunter2' | sudo -S -- ls"
    /\ isPasswordCached hunter2Tool 2000 = true.
Proof.
  destruct (execute_spawn_conditions posixHost noPolicy hunter2Tool
              (request #"sudo ls") false 2000 #"/tmp/p.tmp" #"bash"
              [#"-c";
               #"{ echo 'hunter2' | sudo -S -- ls; }; __code=$?; pgrep -g 0 >/tmp/p.tmp 2>&1; exit $__code;"]
              eq_refl)
    as (_ & _ & _ & _ & _ & _ & Cached & [(W & _)|(_ & _ & Shape)]);
    [discriminate W|].
  destruct Shape as (shellCommand & closing & E & _ & [(S & _)|Sudo]);
    [discriminate S|].
  destruct Sudo as (secret & rest & T & P & C).
  exists shellCommand, closing. split; [exact E|]. split.
  - injection P as <-. injection T as <-. exact C.
  - apply Cached; split; reflexivity.
Defined.

(** X7.  For a command [sudo rest] the wrapped command is the echo of the
    quoted password piped into [sudo -S -- rest]: only the leading [sudo]
    is rewritten, the rest of the command is taken as it is; the tool and
    the interactive processor agree. *)
Theorem sudo_wrapping_shape :
  forall secret rest : jsstring,
    wrapSudo secret (#"sudo " ++ rest)
    = #"echo '" ++ replaceAllChar QUOTE #"'\''" secret
        ++ #"' | sudo -S -- " ++ rest
    /\ ShellCommandProcessor.wrapSudo secret (#"sudo " ++ rest)
       = wrapSudo secret (#"sudo " ++ rest).
Proof.
  intros secret rest; split; [|reflexivity].
  unfold wrapSudo. do 2 f_equal.
Qed.

Lemma splitOn_plain (c : N) (line : jsstring) :
  ~ In c line -> splitOn c line = [line].
Proof.
  induction line as [|x line IH]; intros H; simpl; [reflexivity|].
  destruct (N.eqb_spec x c) as [->|Hx]; [exfalso; apply H; left; reflexivity|].
  rewrite IH by (intros Hin; apply H; right; exact Hin); reflexivity.
Qed.

Lemma splitOn_first (c : N) (line rest : jsstring) :
  ~ In c line -> splitOn c (line ++ c :: rest) = line :: splitOn c rest.
Proof.
  induction line as [|x line IH]; intros H; simpl.
  - rewrite N.eqb_refl; reflexivity.
  - destruct (N.eqb_spec x c) as [->|Hx];
      [exfalso; apply H; left; reflexivity|].
    rewrite IH by (intros Hin; apply H; right; exact Hin); reflexivity.
Qed.

Lemma splitOn_join (c : N) (lines : list jsstring) :
  lines <> [] -> Forall (fun line => ~ In c line) lines ->
  splitOn c (join [c] lines) = lines.
Proof.
  induction lines as [|line lines IH]; intros Hne F; [contradiction|].
  apply Forall_cons_iff in F as [Hl F].
  destruct lines as [|line2 lines].
  - apply splitOn_plain, Hl.
  - change (join [c] (line :: line2 :: lines))
      with (line ++ c :: join [c] (line2 :: lines)).
    rewrite splitOn_first by exact Hl.
    rewrite IH; [reflexivity | discriminate | exact F].
Qed.

Lemma splitOn_lines (c : N) (s : jsstring) :
  splitOn c s <> []
  /\ join [c] (splitOn c s) = s
  /\ Forall (fun line => ~ In c line) (splitOn c s).
Proof.
  induction s as [|x s (Hne & J & F)]; simpl.
  - split; [discriminate|]. split; [reflexivity|].
    constructor; [intros [] | constructor].
  - destruct (N.eqb_spec x c) as [->|Hx].
    + split; [discriminate|]. split.
      * destruct (splitOn c s) as [|l ls]; [contradiction|].
        change (join [c] ([] :: l :: ls)) with (c :: join [c] (l :: ls)).
        rewrite J; reflexivity.
      * constructor; [intros [] | exact F].
    + destruct (splitOn c s) as [|l ls]; [contradiction|].
      apply Forall_cons_iff in F as [Fl Fs].
      split; [discriminate|]. split.
      * destruct ls as [|l2 ls]; simpl in *; rewrite J; reflexivity.
      * constructor; [|exact Fs].
        intros [E|Hin]; [congruence | exact (Fl Hin)].
Qed.

(** The lines of a text are those [split] gives, and no others. *)
Lemma linesOf_splitOn (content : jsstring) (lines : list jsstring) :
  linesOf content lines <-> lines = splitOn 10%N content.
Proof.
  unfold linesOf; split.
  - intros (Hne & J & F). rewrite <- J. symmetry.
    apply splitOn_join; assumption.
  - intros ->; apply splitOn_lines.
Qed.

(** X8.  The background PIDs reported are exactly the numbers read from
    the non-empty lines of the scratch file, digits or not, that are not
    the PID of the shell; a line that is no number is reported too, as what
    [Number] makes of it.  None is reported on Windows or without a
    scratch file. *)
Theorem background_pids_exclude_shell :
  forall (sp : ShellToolExecute.Spawn) (scratch : option jsstring)
         (n : JsNumber),
    In n (ShellToolExecute.backgroundPIDs sp scratch) <->
    platformIsWin32 (ShellToolExecute.host sp) = false
    /\ (forall p, n = Integer p -> ShellToolExecute.pid sp <> Some p)
    /\ exists content lines line,
        scratch = Some content
        /\ linesOf content lines
        /\ In line lines /\ line <> []
        /\ n = stringToNumber (ShellToolExecute.host sp) line.
Proof.
  intros sp scratch n; unfold ShellToolExecute.backgroundPIDs.
  destruct (platformIsWin32 _);
    [split; [intros [] | intros (H & _); discriminate]|].
  destruct scratch as [content|];
    [|split; [intros [] | intros (_ & _ & c & l & x & H & _); discriminate]].
  rewrite filter_In, in_map_iff. split.
  - intros ((line & E & Hin) & D). apply filter_In in Hin as [Hin T].
    split; [reflexivity|]. split.
    + intros p -> Hp. rewrite Hp in D; simpl in D.
      rewrite Z.eqb_refl in D; discriminate.
    + exists content, (splitOn 10%N content), line.
      split; [reflexivity|]. split; [apply linesOf_splitOn; reflexivity|].
      split; [exact Hin|]. split; [|symmetry; exact E].
      destruct line; [discriminate | discriminate].
  - intros (_ & D & c & lines & line & E & L & Hin & Hne & ->).
    inversion E; subst c. apply linesOf_splitOn in L; subst lines.
    split.
    + exists line; split; [reflexivity|].
      apply filter_In; split; [exact Hin|].
      destruct line; [contradiction | reflexivity].
    + unfold ShellToolExecute.differsFromPid.
      destruct (stringToNumber _ line) as [p|shown]; [|reflexivity].
      destruct (ShellToolExecute.pid sp) as [q|]; [|reflexivity].
      apply negb_true_iff, Z.eqb_neq. intros ->; exact (D q eq_refl eq_refl).
Qed.

Lemma background_pids_exclude_shell_witness :
  ShellToolExecute.backgroundPIDs sudoLsSpawn
    (Some (#"4242" ++ NL ++ #"4250" ++ NL ++ #"pgrep: no such group" ++ NL))
  = [Integer 4250%Z; NotInteger #"NaN"]
  /\ ShellToolExecute.pid sudoLsSpawn <> Some 4250%Z.
Proof.
  split; [reflexivity|].
  refine (proj1 (proj2 (proj1 (background_pids_exclude_shell sudoLsSpawn
            (Some (#"4242" ++ NL ++ #"4250" ++ NL
                     ++ #"pgrep: no such group" ++ NL))
            (Integer 4250%Z)) _)) 4250%Z eq_refl).
  vm_compute; auto.
Defined.

(** What is displayed for a finished run: in debug mode the
    transcript; otherwise the combined output when it is not blank; with
    blank output, "Command cancelled by user." for a cancelled run whatever
    the signal, error and exit code are, and nothing at all for a run that
    ended with exit code 0, no signal and no error. *)
Lemma display_of_result :
  forall (sp : ShellToolExecute.Spawn) (r : ShellToolExecute.Run)
         (pids : option jsstring),
    (getDebugMode (ShellToolExecute.config sp) = true ->
     returnDisplay (ShellToolExecute.buildResult sp r pids)
     = llmContent (ShellToolExecute.buildResult sp r pids))
    /\ (getDebugMode (ShellToolExecute.config sp) = false ->
        (trim (ShellToolExecute.output r) <> [] ->
         returnDisplay (ShellToolExecute.buildResult sp r pids)
         = ShellToolExecute.output r)
        /\ (trim (ShellToolExecute.output r) = [] ->
            ShellToolExecute.aborted r = true ->
            returnDisplay (ShellToolExecute.buildResult sp r pids)
            = #"Command cancelled by user.")
        /\ (trim (ShellToolExecute.output r) = [] ->
            ShellToolExecute.aborted r = false ->
            ShellToolExecute.processSignal r = None ->
            ShellToolExecute.error r = None ->
            ShellToolExecute.code r = Some 0%Z ->
            returnDisplay (ShellToolExecute.buildResult sp r pids) = [])).
Proof.
  intros sp r pids; unfold ShellToolExecute.buildResult; simpl.
  split; [intros ->; reflexivity|].
  intros ->; split; [|split].
  - destruct (trim (ShellToolExecute.output r)); [contradiction|reflexivity].
  - intros -> ->; reflexivity.
  - intros -> -> -> -> ->; reflexivity.
Qed.

Lemma no_newline_app (a b : jsstring) :
  ~ In ShellToolDescription.LF a -> ~ In ShellToolDescription.LF b ->
  ~ In ShellToolDescription.LF (a ++ b).
Proof. intros Ha Hb H; apply in_app_or in H as [H|H]; auto. Qed.

Lemma replaced_newlines (text : jsstring) :
  ~ In ShellToolDescription.LF
       (replaceAllChar ShellToolDescription.LF #" " text).
Proof.
  unfold replaceAllChar; induction text as [|x text IH]; simpl; [auto|].
  destruct (N.eqb_spec x ShellToolDescription.LF) as [->|Hx]; simpl.
  - intros [H|H]; [discriminate | auto].
  - intros [H|H]; [congruence | auto].
Qed.

(** X9.  The description of a call is on one line whenever the command
    and the directory are: the line breaks of the free-text description
    never reach it; and it always begins with the command. *)
Theorem description_on_one_line :
  forall params : ShellToolParams,
    (~ In ShellToolDescription.LF (command params) ->
     (forall dir, directory params = Some dir ->
                  ~ In ShellToolDescription.LF dir) ->
     ~ In ShellToolDescription.LF
          (ShellToolDescription.getDescription params))
    /\ isPrefixOf (command params)
                  (ShellToolDescription.getDescription params).
Proof.
  intros params; unfold ShellToolDescription.getDescription; split.
  - intros Hc Hd.
    assert (H2 : ~ In ShellToolDescription.LF
                   match directory params with
                   | Some dir =>
                       if truthy dir
                       then command params ++ #" [in " ++ dir ++ #"]"
                       else command params
                   | None => command params
                   end).
    { destruct (directory params) as [dir|]; [|exact Hc].
      destruct (truthy dir); [|exact Hc].
      repeat apply no_newline_app; auto;
        intros H; vm_compute in H; intuition discriminate. }
    destruct (description params) as [text|]; [|exact H2].
    destruct (truthy text); [|exact H2].
    repeat apply no_newline_app; auto using replaced_newlines;
      intros H; vm_compute in H; intuition discriminate.
  - unfold isPrefixOf.
    destruct (directory params) as [dir|];
      [destruct (truthy dir)|];
      (destruct (description params) as [text|];
       [destruct (truthy text)|]);
      rewrite <- ?app_assoc; eexists;
      try reflexivity; rewrite app_nil_r; reflexivity.
Qed.

Lemma description_on_one_line_witness :
  ~ In ShellToolDescription.LF
       (ShellToolDescription.getDescription
          {| command := #"ls"; description := Some [108%N; 10%N; 115%N];
             directory := Some #"src" |}).
Proof.
  refine (proj1 (description_on_one_line
                   {| command := #"ls";
                      description := Some [108%N; 10%N; 115%N];
                      directory := Some #"src" |}) _ _).
  - intros H; vm_compute in H; intuition discriminate.
  - intros dir E; inversion E; subst.
    intros H; vm_compute in H; intuition discriminate.
Defined.

End ExecuteFacts.

(** ** The run of the shell tool: what accumulates *)

Module ToolRunMoreFacts.
Import ShellToolExecute.

Lemma receivedText_split (sp : Spawn) (events : list Event) :
  List.length (receivedText sp true true events)
  = List.length (receivedText sp true false events)
    + List.length (receivedText sp false true events).
Proof.
  induction events as [|e events IH]; simpl; [reflexivity|].
  destruct e; simpl; rewrite ?length_app, ?IH; simpl; lia.
Qed.

Lemma run_received (sp : Spawn) (events : list Event) (r : Run) :
  exited r = false ->
  stdout (run sp r events) = stdout r ++ receivedText sp true false events
  /\ stderr (run sp r events) = stderr r ++ receivedText sp false true events
  /\ output (run sp r events) = output r ++ receivedText sp true true events.
Proof.
  revert r; induction events as [|e events IH]; intros r Hex; simpl.
  - rewrite !app_nil_r; auto.
  - destruct e as [data now|data now|err|k|k|c s pids]; simpl.
    + destruct (IH (onData sp true data now r)) as (A & B & C);
        [unfold onData; rewrite Hex; reflexivity|].
      unfold run in *; rewrite A, B, C.
      unfold onData; rewrite Hex; simpl.
      rewrite <- !app_assoc; auto.
    + destruct (IH (onData sp false data now r)) as (A & B & C);
        [unfold onData; rewrite Hex; reflexivity|].
      unfold run in *; rewrite A, B, C.
      unfold onData; rewrite Hex; simpl.
      rewrite <- !app_assoc; auto.
    + apply (IH (onError sp err r)); exact Hex.
    + assert (E : exited (onAbort sp k r) = false
                  /\ stdout (onAbort sp k r) = stdout r
                  /\ stderr (onAbort sp k r) = stderr r
                  /\ output (onAbort sp k r) = output r).
      { unfold onAbort. destruct (returned r); [auto|].
        destruct (pidTruthy (pid sp)); [|auto].
        rewrite Hex. destruct (platformIsWin32 (host sp)); [auto|].
        destruct k; auto. }
      destruct E as (E0 & E1 & E2 & E3).
      destruct (IH _ E0) as (A & B & C).
      unfold run in *; rewrite A, B, C, E1, E2, E3; auto.
    + assert (E : exited (onGraceElapsed sp k r) = false
                  /\ stdout (onGraceElapsed sp k r) = stdout r
                  /\ stderr (onGraceElapsed sp k r) = stderr r
                  /\ output (onGraceElapsed sp k r) = output r).
      { unfold onGraceElapsed. destruct (graceArmed r); [|auto].
        destruct (pidTruthy (pid sp)); [|auto].
        rewrite Hex. destruct k; auto. }
      destruct E as (E0 & E1 & E2 & E3).
      destruct (IH _ E0) as (A & B & C).
      unfold run in *; rewrite A, B, C, E1, E2, E3; auto.
    + rewrite !app_nil_r.
      destruct (ShellToolRunFacts.exit_builds_result sp r c s pids)
        as (X & S1 & S2 & S3 & _).
      destruct (ShellToolRunFacts.run_frozen sp events _ X)
        as (_ & F1 & F2 & F3 & _).
      unfold run in *; rewrite F1, F2, F3; auto.
Qed.

(** X10.  However the chunks of the two streams, the errors and the
    cancellation are interleaved, the strings of a run are the stripped
    text of the chunks received before the first exit event, in order of
    arrival: those of stdout, those of stderr, and all of them for the
    combined output, which is therefore as long as the two together. *)
Theorem run_strings_are_received_text :
  forall (sp : Spawn) (self0 : ShellToolState) (t0 : Z)
         (events : list Event),
    stdout (run sp (start self0 t0) events)
    = receivedText sp true false events
    /\ stderr (run sp (start self0 t0) events)
       = receivedText sp false true events
    /\ output (run sp (start self0 t0) events)
       = receivedText sp true true events
    /\ List.length (output (run sp (start self0 t0) events))
       = List.length (stdout (run sp (start self0 t0) events))
         + List.length (stderr (run sp (start self0 t0) events)).
Proof.
  intros sp self0 t0 events.
  destruct (run_received sp events (start self0 t0) eq_refl) as (A & B & C).
  simpl in A, B, C.
  rewrite A, B, C; repeat split; apply receivedText_split.
Qed.

Lemma step_updates (sp : Spawn) (r : Run) (e : Event) :
  updates (step sp r e) = updates r
  \/ updates (step sp r e) = updates r ++ [output (step sp r e)].
Proof.
  destruct e as [data now|data now|err|k|k|c s pids]; simpl; auto.
  - unfold onData; destruct (exited r); [auto|]; simpl.
    destruct (_ && _); auto.
  - unfold onData; destruct (exited r); [auto|]; simpl.
    destruct (_ && _); auto.
  - unfold onAbort. destruct (returned r); [auto|].
    destruct (pidTruthy (pid sp)); [|auto].
    destruct (exited r); [auto|].
    destruct (platformIsWin32 (host sp)); [auto|]. destruct k; auto.
  - unfold onGraceElapsed. destruct (graceArmed r); [|auto].
    destruct (pidTruthy (pid sp)); [|auto].
    destruct (exited r); [auto|]. destruct k; auto.
  - unfold onExit; destruct (returned r); auto.
Qed.

Lemma step_no_callback (sp : Spawn) (r : Run) (e : Event) :
  hasUpdateOutput sp = false -> updates (step sp r e) = updates r.
Proof.
  intros H; destruct e as [data now|data now|err|k|k|c s pids]; simpl; auto.
  - unfold onData; destruct (exited r); [auto|]; simpl.
    rewrite H; reflexivity.
  - unfold onData; destruct (exited r); [auto|]; simpl.
    rewrite H; reflexivity.
  - unfold onAbort. destruct (returned r); [auto|].
    destruct (pidTruthy (pid sp)); [|auto].
    destruct (exited r); [auto|].
    destruct (platformIsWin32 (host sp)); [auto|]. destruct k; auto.
  - unfold onGraceElapsed. destruct (graceArmed r); [|auto].
    destruct (pidTruthy (pid sp)); [|auto].
    destruct (exited r); [auto|]. destruct k; auto.
  - unfold onExit; destruct (returned r); auto.
Qed.

Lemma isPrefixOf_trans (a b c : jsstring) :
  isPrefixOf a b -> isPrefixOf b c -> isPrefixOf a c.
Proof.
  intros [x ->] [y ->]; exists (x ++ y); rewrite app_assoc; reflexivity.
Qed.

Lemma run_updates (sp : Spawn) (events : list Event) (r : Run) :
  Forall (fun u => isPrefixOf u (output r)) (updates r) ->
  Forall (fun u => isPrefixOf u (output (run sp r events)))
         (updates (run sp r events)).
Proof.
  revert r; induction events as [|e events IH]; intros r H; simpl;
    [exact H|].
  apply IH.
  destruct (ToolCancellationFacts.step_output_grows sp r e) as [m Hm].
  assert (Old : Forall (fun u => isPrefixOf u (output (step sp r e)))
                       (updates r)).
  { eapply Forall_impl; [|exact H].
    intros u Hu; eapply isPrefixOf_trans; [exact Hu|].
    exists m; exact Hm. }
  destruct (step_updates sp r e) as [->| ->]; [exact Old|].
  apply Forall_app; split; [exact Old|].
  constructor; [|constructor]. exists []; rewrite app_nil_r; reflexivity.
Qed.

(** X11.  Every text handed to the progress callback of the tool is a
    beginning of the combined output the run ends with, and without a
    callback nothing is handed out. *)
Theorem updates_are_beginnings_of_output :
  forall (sp : Spawn) (self0 : ShellToolState) (t0 : Z)
         (events : list Event),
    Forall (fun u => isPrefixOf u (output (run sp (start self0 t0) events)))
           (updates (run sp (start self0 t0) events))
    /\ (hasUpdateOutput sp = false ->
        updates (run sp (start self0 t0) events) = []).
Proof.
  intros sp self0 t0 events; split.
  - apply run_updates; constructor.
  - intros H. generalize (start self0 t0) (eq_refl : updates (start self0 t0) = []).
    induction events as [|e events IH]; intros r Hr; simpl; [exact Hr|].
    apply IH. rewrite step_no_callback by exact H. exact Hr.
Qed.

Lemma updates_are_beginnings_of_output_witness :
  updates (run {| host := posixHost; config := noPolicy;
                  params := request #"ls";
                  spawnedCommand := pgrepWrap #"ls" #"/tmp/shell_pgrep.tmp";
                  pid := Some 4242%Z; hasUpdateOutput := false |}
               (start emptyTool 0)
               [StdoutData #"partial" 5000; ErrorEvent spawnError])
  = [].
Proof.
  apply (proj2 (updates_are_beginnings_of_output
                  {| host := posixHost; config := noPolicy;
                     params := request #"ls";
                     spawnedCommand :=
                       pgrepWrap #"ls" #"/tmp/shell_pgrep.tmp";
                     pid := Some 4242%Z; hasUpdateOutput := false |}
                  emptyTool 0
                  [StdoutData #"partial" 5000; ErrorEvent spawnError])).
  reflexivity.
Defined.

Lemma step_self (sp : Spawn) (r : Run) (e : Event) :
  whitelist (self (step sp r e)) = whitelist (self r)
  /\ (self (step sp r e) = self r
      \/ self (step sp r e) = clearPassword (self r)).
Proof.
  destruct e as [data now|data now|err|k|k|c s pids]; simpl; auto.
  - unfold onData; destruct (exited r); [auto|]; simpl.
    destruct (sudoFailed _); auto.
  - unfold onData; destruct (exited r); [auto|]; simpl.
    destruct (sudoFailed _); auto.
  - unfold onAbort. destruct (returned r); [auto|].
    destruct (pidTruthy (pid sp)); [|auto].
    destruct (exited r); [auto|].
    destruct (platformIsWin32 (host sp)); [auto|]. destruct k; auto.
  - unfold onGraceElapsed. destruct (graceArmed r); [|auto].
    destruct (pidTruthy (pid sp)); [|auto].
    destruct (exited r); [auto|]. destruct k; auto.
  - unfold onExit; destruct (returned r); auto.
Qed.

(** X12.  A run never touches the whitelist and never stores a password:
    the tool it leaves is the one it found, or that one with the password
    and its timestamp cleared. *)
Theorem run_only_clears_password :
  forall (sp : Spawn) (events : list Event) (r : Run),
    whitelist (self (run sp r events)) = whitelist (self r)
    /\ (self (run sp r events) = self r
        \/ self (run sp r events) = clearPassword (self r)).
Proof.
  intros sp events; induction events as [|e events IH]; intros r; simpl;
    [auto|].
  destruct (step_self sp r e) as [W S].
  destruct (IH (step sp r e)) as [W' S'].
  unfold run in *; split; [congruence|].
  destruct S as [S|S], S' as [S'|S']; rewrite S', ?S; auto.
Qed.

Lemma step_kills_after_exit (sp : Spawn) (r : Run) (e : Event) :
  exited r = true -> kills (step sp r e) = kills r.
Proof.
  intros Hex; destruct e as [data now|data now|err|k|k|c s pids]; simpl;
    auto.
  - unfold onData; rewrite Hex; reflexivity.
  - unfold onData; rewrite Hex; reflexivity.
  - unfold onAbort; rewrite Hex. destruct (returned r); simpl;
      [apply app_nil_r|].
    destruct (pidTruthy (pid sp)); simpl; apply app_nil_r.
  - unfold onGraceElapsed; rewrite Hex. destruct (graceArmed r); [|auto].
    destruct (pidTruthy (pid sp)); simpl; apply app_nil_r.
  - unfold onExit; destruct (returned r); reflexivity.
Qed.

Lemma tool_no_kill_after_exit (sp : Spawn) (events : list Event) (r : Run) :
  exited r = true -> kills (run sp r events) = kills r.
Proof.
  revert r; induction events as [|e events IH]; intros r Hex;
    [reflexivity|].
  change (run sp r (e :: events)) with (run sp (step sp r e) events).
  rewrite IH.
  - apply step_kills_after_exit, Hex.
  - destruct (ShellToolRunFacts.step_frozen sp r e Hex) as [X _]; exact X.
Qed.

End ToolRunMoreFacts.

(** ** The interactive processor: further facts *)

Module ProcessorMoreFacts.
Import ShellCommandProcessor.

Lemma pidTruthy_some (pid : option Z) (c : Z) :
  pidTruthy pid = Some c -> pid = Some c.
Proof.
  destruct pid as [p|]; simpl; [|discriminate].
  destruct (p =? 0)%Z; [discriminate | auto].
Qed.

Lemma step_exited (h : ProcessorHost) (pid : option Z) (p : Proc)
      (e : Event) :
  exited p = true ->
  exited (step h pid p e) = true /\ kills (step h pid p e) = kills p.
Proof.
  intros Hex; destruct e as [stream data|err|k|k|c s f]; simpl; auto.
  - unfold onAbort; rewrite Hex.
    destruct (listening p); simpl; [|rewrite app_nil_r; auto].
    destruct (pidTruthy pid); simpl; rewrite app_nil_r; auto.
  - unfold onGraceElapsed; rewrite Hex.
    destruct (graceArmed p); simpl; [rewrite app_nil_r|]; auto.
Qed.

Lemma processor_no_kill_after_exit (h : ProcessorHost) (pid : option Z)
      (events : list Event) (p : Proc) :
  exited p = true -> kills (run h pid p events) = kills p.
Proof.
  revert p; induction events as [|e events IH]; intros p Hex;
    [reflexivity|].
  change (run h pid p (e :: events))
    with (run h pid (step h pid p e) events).
  destruct (step_exited h pid p e Hex) as [X K].
  rewrite IH by exact X. exact K.
Qed.

(** X14.  The signals a run of the processor sends are, in this order, at
    most: SIGTERM to the process group, SIGKILL to the group after the
    grace period, SIGKILL to the child when a group signal throws; on
    Windows the tree kill instead, once.  Nothing is sent without a process
    id, SIGKILL is never sent before SIGTERM, and nothing is sent twice. *)
Theorem kill_escalation :
  forall (h : ProcessorHost) (pid : option Z) (events : list Event),
    kills (run h pid start events) = []
    \/ exists c,
        pid = Some c
        /\ ((isWindows h = true
             /\ kills (run h pid start events) = [TaskKill c])
            \/ (isWindows h = false
                /\ (kills (run h pid start events) = [GroupKill c SIGTERM]
                    \/ kills (run h pid start events)
                       = [GroupKill c SIGTERM; ChildKill SIGKILL]
                    \/ kills (run h pid start events)
                       = [GroupKill c SIGTERM; GroupKill c SIGKILL]
                    \/ kills (run h pid start events)
                       = [GroupKill c SIGTERM; GroupKill c SIGKILL;
                          ChildKill SIGKILL]))).
Proof.
  intros h pid events.
  set (final := fun (q : Proc) =>
    kills q = []
    \/ exists c,
        pid = Some c
        /\ ((isWindows h = true /\ kills q = [TaskKill c])
            \/ (isWindows h = false
                /\ (kills q = [GroupKill c SIGTERM]
                    \/ kills q = [GroupKill c SIGTERM; ChildKill SIGKILL]
                    \/ kills q = [GroupKill c SIGTERM; GroupKill c SIGKILL]
                    \/ kills q = [GroupKill c SIGTERM; GroupKill c SIGKILL;
                                  ChildKill SIGKILL])))).
  set (inv := fun (q : Proc) =>
    (listening q = true /\ graceArmed q = false /\ kills q = [])
    \/ (listening q = false /\ graceArmed q = true /\ isWindows h = false
        /\ exists c, pid = Some c /\ kills q = [GroupKill c SIGTERM])
    \/ (listening q = false /\ graceArmed q = false /\ final q)).
  assert (Fin : forall q, inv q -> final q).
  { intros q [(_ & _ & K)|[(_ & _ & W & c & P & K)|(_ & _ & F)]];
      [left; exact K | right; exists c; auto 10 | exact F]. }
  assert (Step : forall q e, inv q -> inv (step h pid q e)).
  { intros q e I.
    assert (Same : forall q', listening q' = listening q ->
                              graceArmed q' = graceArmed q ->
                              kills q' = kills q -> inv q').
    { intros q' L G K; unfold inv, final; rewrite L, G, K; exact I. }
    destruct e as [stream data|err|k|k|xc xs xf]; simpl.
    - apply Same; reflexivity.
    - apply Same; reflexivity.
    - unfold onAbort, inv, final in *.
      destruct I as [(L & G & K)|[(L & G & W & c & P & K)|(L & G & F)]];
        rewrite L.
      + destruct (pidTruthy pid) as [c|] eqn:Pt.
        * apply pidTruthy_some in Pt.
          destruct (exited q); [|destruct (isWindows h) eqn:W;
                                  [|destruct k]];
            simpl; rewrite ?G, ?K; simpl.
          -- right; right; auto.
          -- right; right; repeat split; auto.
             right; exists c; auto.
          -- right; right; repeat split; auto.
             right; exists c; auto 10.
          -- right; left; repeat split; auto.
             exists c; auto.
        * simpl; rewrite ?G, ?K; right; right; auto.
      + simpl; rewrite ?G, ?K; simpl. right; left; repeat split; auto.
        exists c; auto.
      + simpl; rewrite ?G, ?app_nil_r; right; right; auto.
    - unfold onGraceElapsed, inv, final in *.
      destruct I as [(L & G & K)|[(L & G & W & c & P & K)|(L & G & F)]];
        rewrite G.
      + left; auto.
      + right; right. rewrite P.
        destruct (exited q); [|destruct k]; simpl; rewrite ?L, ?K; simpl;
          (split; [reflexivity|]); (split; [reflexivity|]);
          right; exists c; auto 10.
      + right; right; auto.
    - unfold inv, final in *; simpl.
      destruct I as [(L & G & K)|[(L & G & W & c & P & K)|(L & G & F)]];
        rewrite G.
      + right; right; auto.
      + right; left; repeat split; auto. exists c; auto.
      + right; right; auto. }
  apply Fin.
  assert (I0 : inv start) by (left; auto).
  generalize start I0.
  induction events as [|e events IH]; intros q I; [exact I|].
  apply (IH (step h pid q e)), Step, I.
Qed.

Lemma totalBytes_from (chunks : list Buffer) (n : N) :
  fold_left (fun sum chunk => (sum + N.of_nat (List.length chunk))%N)
            chunks n
  = (n + N.of_nat (List.length (bufferConcat chunks)))%N.
Proof.
  revert n; induction chunks as [|c chunks IH]; intros n; simpl.
  - lia.
  - rewrite IH, length_app. unfold bufferConcat. lia.
Qed.

(** X15.  The byte count of a progress notice is the size of the raw
    output received so far, the chunk that triggers the notice included. *)
Theorem progress_counts_raw_bytes :
  forall (h : ProcessorHost) (data : Buffer) (stream : Stream) (p : Proc),
    streamToUi p = false -> exited p = false ->
    chunksOut (handleOutput h data stream p)
    = chunksOut p
        ++ [progressNotice h
              (N.of_nat (List.length
                           (bufferConcat (outputChunks p ++ [data]))))].
Proof.
  intros h data stream p Hf Hex.
  destruct (ProcessorFacts.handleOutput_flagged h data stream p Hf)
    as [_ E].
  rewrite E, Hex. unfold totalBytes; rewrite totalBytes_from; reflexivity.
Qed.

Lemma progress_counts_raw_bytes_witness :
  chunksOut (handleOutput posixProcessor #"abc" Stdout
               (run posixProcessor (Some 7%Z) start
                    [Data Stdout [0%N; 1%N]]))
  = [HALT_NOTICE; #"[Receiving binary output... 2 B received]";
     #"[Receiving binary output... 5 B received]"].
Proof.
  exact (progress_counts_raw_bytes posixProcessor #"abc" Stdout
           (run posixProcessor (Some 7%Z) start [Data Stdout [0%N; 1%N]])
           eq_refl eq_refl).
Defined.

Lemma decoded_run (h : ProcessorHost) (pid : option Z)
      (chunks : list (Stream * Buffer)) :
  (stdout (run h pid start (dataEvents chunks)),
   stdoutDecoder (run h pid start (dataEvents chunks)))
  = decodeStream h [] (streamData Stdout chunks)
  /\ (stderr (run h pid start (dataEvents chunks)),
      stderrDecoder (run h pid start (dataEvents chunks)))
     = decodeStream h [] (streamData Stderr chunks)
  /\ outputChunks (run h pid start (dataEvents chunks)) = List.map snd chunks
  /\ resolved (run h pid start (dataEvents chunks)) = None
  /\ aborted (run h pid start (dataEvents chunks)) = false
  /\ error (run h pid start (dataEvents chunks)) = None.
Proof.
  induction chunks as [|[st d] chunks IH] using rev_ind.
  - repeat split; reflexivity.
  - destruct IH as (I1 & I2 & I3 & I4 & I5 & I6).
    unfold dataEvents; rewrite map_app; simpl List.map.
    fold (dataEvents chunks); rewrite ProcessorFacts.run_snoc.
    set (p := run h pid start (dataEvents chunks)) in *.
    rewrite !ProcessorFacts.streamData_snoc, map_app.
    destruct st; simpl; rewrite ?app_nil_r, ProcessorFacts.decodeStream_snoc,
      <- ?I1, <- ?I2, I3; simpl; auto 10.
Qed.

(** X16.  Whether the stream was flagged binary or not, the result of a
    run that received the given chunks and then the exit event holds the
    exit code and signal of the event, no error, no abort, every byte in
    order, and as output the decoded text of each stream followed by what
    its decoder still held, stdout first. *)
Theorem result_of_plain_run :
  forall (h : ProcessorHost) (pid : option Z)
         (chunks : list (Stream * Buffer)) (c : option Z)
         (s f : option jsstring),
  exists r,
    resolved (run h pid start (dataEvents chunks ++ [ExitEvent c s f]))
    = Some r
    /\ rawOutput r = bufferConcat (List.map snd chunks)
    /\ resultOutput r
       = combined
           (fst (decodeStream h [] (streamData Stdout chunks))
              ++ decoderEnd h
                   (snd (decodeStream h [] (streamData Stdout chunks))))
           (fst (decodeStream h [] (streamData Stderr chunks))
              ++ decoderEnd h
                   (snd (decodeStream h [] (streamData Stderr chunks))))
    /\ exitCode r = c /\ resultSignal r = s
    /\ resultAborted r = false /\ resultError r = None.
Proof.
  intros h pid chunks c s f.
  destruct (decoded_run h pid chunks) as (I1 & I2 & I3 & I4 & I5 & I6).
  rewrite ProcessorFacts.run_snoc; simpl.
  destruct (ProcessorFacts.exit_resolves h c s f _ I4)
    as (r & E & Raw & Out & Ab & A & B & C).
  exists r; split; [exact E|].
  rewrite Raw, Out, Ab, I3, I5, C, I6, <- I1, <- I2; simpl; auto 10.
Qed.

(** X17.  The processor does not spawn a sudo command on POSIX without a
    password (absent or empty): it resolves at once with exit code 1, an
    error, no output bytes and no abort.  On Windows every command,
    [sudo] or not, goes to [cmd.exe /c] as it was typed.  The debug
    message always ends with the command handed to the shell. *)
Theorem processor_start_cases :
  forall (h : ProcessorHost) (rawCommand cwd : jsstring)
         (sudoPassword : option jsstring) (pwdFilePath : jsstring),
    (isWindows h = false ->
     startsWith (trim rawCommand) #"sudo " = true ->
     sudoPassword = None \/ sudoPassword = Some [] ->
     exists r,
       executeStart h rawCommand cwd sudoPassword pwdFilePath = Immediate r
       /\ exitCode r = Some 1%Z /\ resultError r <> None
       /\ rawOutput r = [] /\ resultAborted r = false)
    /\ (isWindows h = true ->
        executeStart h rawCommand cwd sudoPassword pwdFilePath
        = Spawned #"cmd.exe" [#"/c"; rawCommand]
                  (#"Executing in " ++ cwd ++ #": " ++ rawCommand))
    /\ (forall shell args dbg,
           executeStart h rawCommand cwd sudoPassword pwdFilePath
           = Spawned shell args dbg ->
           exists flag cmd,
             args = [flag; cmd]
             /\ dbg = #"Executing in " ++ cwd ++ #": " ++ cmd).
Proof.
  intros h rawCommand cwd sudoPassword pwdFilePath.
  unfold executeStart; split; [|split].
  - intros -> -> [->| ->]; simpl; eexists; split; try reflexivity;
      simpl; repeat split; discriminate.
  - intros ->; reflexivity.
  - intros shell args dbg.
    destruct (if negb (isWindows h) && startsWith (trim rawCommand) #"sudo "
              then match sudoPassword with
                   | Some pw => if truthy pw
                                then Some (wrapSudo pw (trim rawCommand))
                                else None
                   | None => None
                   end
              else Some rawCommand); [|discriminate].
    destruct (isWindows h); intros H; inversion H; subst;
      do 2 eexists; split; reflexivity.
Qed.

Lemma processor_start_cases_witness :
  exists r,
    executeStart posixProcessor #" sudo reboot" #"/project" (Some [])
                 #"/tmp/p.tmp" = Immediate r
    /\ exitCode r = Some 1%Z.
Proof.
  destruct (proj1 (processor_start_cases posixProcessor #" sudo reboot"
                     #"/project" (Some []) #"/tmp/p.tmp")
                  eq_refl eq_refl (or_intror eq_refl))
    as (r & E & C & _).
  exists r; split; assumption.
Defined.

End ProcessorMoreFacts.

(** X13.  Once the exit event has been handled, neither executor sends a
    signal any more, whatever follows: a late cancellation or the end of
    the grace period cannot reach a process id that has been given up. *)
Theorem no_signal_after_exit :
  (forall (sp : ShellToolExecute.Spawn) (r : ShellToolExecute.Run)
          (events : list ShellToolExecute.Event),
      ShellToolExecute.exited r = true ->
      ShellToolExecute.kills (ShellToolExecute.run sp r events)
      = ShellToolExecute.kills r)
  /\ (forall (h : ProcessorHost) (pid : option Z)
             (p : ShellCommandProcessor.Proc)
             (events : list ShellCommandProcessor.Event),
         ShellCommandProcessor.exited p = true ->
         ShellCommandProcessor.kills (ShellCommandProcessor.run h pid p events)
         = ShellCommandProcessor.kills p).
Proof.
  split.
  - intros; apply ToolRunMoreFacts.tool_no_kill_after_exit; assumption.
  - intros; apply ProcessorMoreFacts.processor_no_kill_after_exit;
      assumption.
Qed.

Lemma no_signal_after_exit_witness :
  ShellCommandProcessor.kills
    (ShellCommandProcessor.run posixProcessor (Some 7%Z)
       (ShellCommandProcessor.run posixProcessor (Some 7%Z)
          ShellCommandProcessor.start
          [ShellCommandProcessor.AbortEvent false;
           ShellCommandProcessor.ExitEvent None (Some #"SIGTERM") None])
       [ShellCommandProcessor.GraceElapsed false;
        ShellCommandProcessor.AbortEvent false])
  = [GroupKill 7 SIGTERM].
Proof.
  exact (proj2 no_signal_after_exit posixProcessor (Some 7%Z)
           (ShellCommandProcessor.run posixProcessor (Some 7%Z)
              ShellCommandProcessor.start
              [ShellCommandProcessor.AbortEvent false;
               ShellCommandProcessor.ExitEvent None (Some #"SIGTERM") None])
           [ShellCommandProcessor.GraceElapsed false;
            ShellCommandProcessor.AbortEvent false]
           eq_refl).
Defined.

(** ** The history of an interactive command *)

Module HistoryFacts.
Import ShellHistory.

(** X18.  The text kept for the model is never longer than 10016 code
    units.  A result of at most 10000 code units is kept as it is; of a
    longer one the first 10000 are kept, followed by the truncation
    mark. *)
Theorem model_content_bounded :
  forall resultText : jsstring,
    (N.of_nat (List.length (modelContent resultText)) <= 10016)%N
    /\ ((N.of_nat (List.length resultText) <= 10000)%N ->
        modelContent resultText = resultText)
    /\ ((10000 < N.of_nat (List.length resultText))%N ->
        exists kept,
          N.of_nat (List.length kept) = 10000%N
          /\ isPrefixOf kept resultText
          /\ modelContent resultText
             = kept ++ NL ++ #"... (truncated)").
Proof.
  intros resultText; unfold modelContent, MAX_OUTPUT_LENGTH.
  destruct (10000 <? N.of_nat (List.length resultText))%N eqn:E.
  - apply N.ltb_lt in E. split; [|split].
    + rewrite length_app, length_firstn.
      change (List.length (NL ++ #"... (truncated)")) with 16%nat. lia.
    + lia.
    + intros _. exists (firstn (N.to_nat 10000) resultText).
      split; [rewrite length_firstn; lia|]. split; [|reflexivity].
      exists (skipn (N.to_nat 10000) resultText).
      symmetry; apply firstn_skipn.
  - apply N.ltb_ge in E. split; [lia|]. split; [reflexivity | lia].
Qed.

Lemma model_content_bounded_witness :
  modelContent #"total 0" = #"total 0".
Proof.
  apply (proj1 (proj2 (model_content_bounded #"total 0"))).
  vm_compute; discriminate.
Defined.

(** X19.  The item added to the history for a result is an error item
    exactly when the result carries an error, or the run was not cancelled
    and ended by a signal or with an exit code other than 0.  A cancelled
    run without an error is never shown as an error. *)
Theorem history_item_is_error_iff :
  forall (h : ProcessorHost) (targetDir : jsstring)
         (result : ShellExecutionResult),
    itemType (resultItem h targetDir result) = ErrorItem <->
    resultError result <> None
    \/ (resultAborted result = false
        /\ ((exists s, resultSignal result = Some s /\ s <> [])
            \/ exitCode result <> Some 0%Z)).
Proof.
  intros h targetDir result; unfold resultItem; cbn [itemType fst].
  destruct (resultError result) as [e|].
  { split; [intros _; left; discriminate | reflexivity]. }
  destruct (resultAborted result).
  { cbn [fst]. split; [discriminate|].
    intros [H|[H _]]; [contradiction | discriminate]. }
  destruct (resultSignal result) as [[|c s]|]; cbn [truthyOpt truthy fst].
  - destruct (exitCode result) as [[|p|p]|]; cbn [fst];
      (split; [intros H;
               first [discriminate H
                     | right; split; [reflexivity | right; discriminate]]
              | intros [H|[_ [(s & E & Hs)|H]]];
                  try reflexivity; try contradiction;
                  try (exfalso; apply H; reflexivity);
                  inversion E; subst; contradiction]).
  - split; [|reflexivity]. intros _; right; split; [reflexivity|].
    left; exists (c :: s); split; [reflexivity | discriminate].
  - destruct (exitCode result) as [[|p|p]|]; cbn [fst];
      (split; [intros H;
               first [discriminate H
                     | right; split; [reflexivity | right; discriminate]]
              | intros [H|[_ [(s & E & Hs)|H]]];
                  try reflexivity; try contradiction;
                  try (exfalso; apply H; reflexivity);
                  discriminate]).
Qed.

(** X20.  When the raw output is taken for binary, the item added to the
    history does not depend on the decoded output: it is the same for any
    other text, and it ends with the notice that binary output is not
    shown. *)
Theorem binary_output_not_shown :
  forall (h : ProcessorHost) (targetDir : jsstring)
         (result : ShellExecutionResult),
    isBinary h (rawOutput result) = true ->
    (forall text : jsstring,
        resultItem h targetDir (withOutput result text)
        = resultItem h targetDir result)
    /\ isSuffixOf #"[Command produced binary output, which is not shown.]"
                  (itemText (resultItem h targetDir result)).
Proof.
  intros h targetDir result Hb; split.
  - intros text; unfold resultItem, withOutput; simpl; rewrite Hb.
    reflexivity.
  - unfold resultItem, isSuffixOf; cbn [itemText]; rewrite Hb;
      cbv beta iota zeta.
    destruct (resultError result) as [e|];
      [|destruct (resultAborted result);
        [|destruct (truthyOpt (resultSignal result));
          [|destruct (exitCode result) as [[|p|p]|]]]];
      cbn [snd]; destruct (_ && _);
      first [ exists []; reflexivity
            | rewrite !app_assoc; eexists; reflexivity ].
Qed.

Lemma binary_output_not_shown_witness :
  resultItem posixProcessor #"/project"
    (withOutput
       {| rawOutput := [127%N; 69%N; 76%N; 70%N; 0%N];
          resultOutput := #"ELF"; exitCode := Some 0%Z;
          resultSignal := None; resultError := None;
          resultAborted := false; finalPwd := None |}
       #"anything")
  = {| itemType := InfoItem;
       itemText :=
         #"[Command produced binary output, which is not shown.]" |}.
Proof.
  exact (proj1 (binary_output_not_shown posixProcessor #"/project"
                  {| rawOutput := [127%N; 69%N; 76%N; 70%N; 0%N];
                     resultOutput := #"ELF"; exitCode := Some 0%Z;
                     resultSignal := None; resultError := None;
                     resultAborted := false; finalPwd := None |}
                  eq_refl)
               #"anything").
Defined.

(** X21.  After a result whose output holds [sudo: sorry, try again], the
    context hands out no password at any later (or earlier) time, so the
    next sudo command typed on POSIX is not spawned: it resolves at once
    with exit code 1. *)
Theorem rejected_password_is_forgotten :
  forall (h : ProcessorHost) (now : Z) (result : ShellExecutionResult)
         (st : SudoProvider.State),
    includes (resultOutput result) #"sudo: sorry, try again" = true ->
    forall later : Z,
      fst (SudoProvider.getPassword later (afterResult now result st)) = None
      /\ forall rawCommand cwd pwdFilePath : jsstring,
          isWindows h = false ->
          startsWith (trim rawCommand) #"sudo " = true ->
          exists r,
            ShellCommandProcessor.executeStart h rawCommand cwd
              (fst (SudoProvider.getPassword later
                      (afterResult now result st)))
              pwdFilePath
            = ShellCommandProcessor.Immediate r
            /\ exitCode r = Some 1%Z.
Proof.
  intros h now result st Hs later.
  assert (E : fst (SudoProvider.getPassword later
                     (afterResult now result st)) = None)
    by (unfold afterResult; rewrite Hs; reflexivity).
  split; [exact E|].
  intros rawCommand cwd pwdFilePath Hw Hsudo; rewrite E.
  unfold ShellCommandProcessor.executeStart; rewrite Hw, Hsudo; simpl.
  eexists; split; reflexivity.
Qed.

Lemma rejected_password_is_forgotten_witness :
  fst (SudoProvider.getPassword 5000
         (afterResult 4000
            {| rawOutput := [];
               resultOutput := #"sudo: sorry, try again.";
               exitCode := Some 1%Z; resultSignal := None;
               resultError := None; resultAborted := false;
               finalPwd := None |}
            (SudoProvider.setPassword #"hunter2" 1000
                                      SudoProvider.initial)))
  = None.
Proof.
  exact (proj1 (rejected_password_is_forgotten posixProcessor 4000
                  {| rawOutput := [];
                     resultOutput := #"sudo: sorry, try again.";
                     exitCode := Some 1%Z; resultSignal := None;
                     resultError := None; resultAborted := false;
                     finalPwd := None |}
                  (SudoProvider.setPassword #"hunter2" 1000
                                            SudoProvider.initial)
                  eq_refl 5000)).
Defined.

(** X22.  The pending item is refreshed with texts that were streamed, in
    the order they were streamed, and each refresh comes more than a
    second after the one before (and after the initial clock value). *)
Theorem pending_updates_spaced :
  forall (lastUpdateTime : Z) (streamed : list (Z * jsstring)),
    spaced lastUpdateTime
           (List.map fst (pendingUpdates lastUpdateTime streamed))
    /\ isSublist (pendingUpdates lastUpdateTime streamed) streamed.
Proof.
  intros lastUpdateTime streamed; revert lastUpdateTime.
  induction streamed as [|[now text] rest IH]; intros lastUpdateTime;
    [split; exact I|].
  cbn [pendingUpdates]; unfold OUTPUT_UPDATE_INTERVAL_MS.
  destruct (1000 <? now - lastUpdateTime)%Z eqn:E.
  - apply Z.ltb_lt in E. destruct (IH now) as [S L].
    cbn [List.map fst spaced].
    split; [split; [lia | exact S]|].
    left; split; [reflexivity | exact L].
  - destruct (IH lastUpdateTime) as [S L]. split; [exact S|].
    destruct (pendingUpdates lastUpdateTime rest); [exact I|].
    right; exact L.
Qed.

Lemma dropWhile_nil (f : N -> bool) (s : jsstring) :
  dropWhile f s = [] <-> forallb f s = true.
Proof.
  induction s as [|c s IH]; simpl; [tauto|].
  destruct (f c); simpl; [exact IH|]. split; discriminate.
Qed.

Lemma dropWhile_rest_nil (f : N -> bool) (s : jsstring) :
  forallb f (dropWhile f s) = true -> dropWhile f s = [].
Proof.
  induction s as [|c s IH]; simpl; [reflexivity|].
  destruct (f c) eqn:E; [exact IH|]. simpl; rewrite E; discriminate.
Qed.

Lemma forallb_rev (f : N -> bool) (s : jsstring) :
  forallb f (rev s) = forallb f s.
Proof.
  induction s as [|c s IH]; simpl; [reflexivity|].
  rewrite forallb_app, IH; simpl. rewrite andb_true_r, andb_comm.
  reflexivity.
Qed.

Lemma trim_nil (s : jsstring) :
  trim s = [] <-> forallb isWhiteSpace s = true.
Proof.
  unfold trim, trimEnd, trimStart.
  split.
  - intros H. apply dropWhile_nil.
    apply dropWhile_rest_nil.
    rewrite <- forallb_rev. apply dropWhile_nil.
    apply (f_equal (@rev N)) in H; rewrite rev_involutive in H.
    exact H.
  - intros H. apply dropWhile_nil in H; rewrite H; reflexivity.
Qed.

(** X23.  A query typed in shell mode is run exactly when it is a string
    that holds a character other than white space. *)
Theorem blank_query_not_run :
  forall rawQuery : option jsstring,
    handleShellCommandRuns rawQuery = true <->
    exists q x, rawQuery = Some q /\ In x q /\ isWhiteSpace x = false.
Proof.
  intros [q|]; simpl;
    [|split; [discriminate | intros (q & x & E & _); discriminate]].
  rewrite negb_true_iff. split.
  - intros H.
    destruct (forallb isWhiteSpace q) eqn:F.
    + apply trim_nil in F; rewrite F in H; discriminate.
    + assert (X : exists x, In x q /\ isWhiteSpace x = false).
      { clear H; induction q as [|c q IH]; simpl in *; [discriminate|].
        destruct (isWhiteSpace c) eqn:W.
        - destruct (IH F) as (x & Hx & Wx); exists x; auto.
        - exists c; auto. }
      destruct X as (x & Hx & Wx); exists q, x; auto.
  - intros (q' & x & E & Hx & Wx); inversion E; subst q'.
    destruct (JS.eqb (trim q) []) eqn:B; [|reflexivity].
    apply JSFacts.eqb_eq, trim_nil in B.
    rewrite forallb_forall in B. rewrite (B x Hx) in Wx; discriminate.
Qed.

End HistoryFacts.

(** ** The two password caches *)

Module CredentialFacts.

Lemma getPassword_none (now : Z) (st : SudoProvider.State) :
  fst (SudoProvider.getPassword now st) = None ->
  forall later : Z,
    fst (SudoProvider.getPassword later
           (snd (SudoProvider.getPassword now st))) = None.
Proof.
  unfold SudoProvider.getPassword.
  destruct (SudoProvider.password st) as [[|c p]|] eqn:P; simpl.
  - intros _ later; rewrite P; reflexivity.
  - destruct (SudoProvider.timestamp st) as [t|] eqn:T; simpl.
    + destruct (negb (t =? 0)%Z
                && (now - t <? SudoProvider.SUDO_CACHE_DURATION_MS)%Z);
        simpl; [discriminate | reflexivity].
    + reflexivity.
  - intros _ later; rewrite P; reflexivity.
Qed.

(** X24.  A password put into the context at a time other than 0 is handed
    out exactly while less than fifteen minutes have passed since.  Once a
    call finds nothing to hand out, no later call hands anything out: an
    expired password is erased, and setting the clock back does not revive
    it. *)
Theorem context_password_round_trip :
  forall (newPassword : jsstring) (setAt : Z) (st : SudoProvider.State),
    newPassword <> [] -> setAt <> 0%Z ->
    forall now : Z,
      (fst (SudoProvider.getPassword now
              (SudoProvider.setPassword newPassword setAt st))
       = Some newPassword
       <-> (now - setAt < 15 * 60 * 1000)%Z)
      /\ ((15 * 60 * 1000 <= now - setAt)%Z ->
          forall later : Z,
            fst (SudoProvider.getPassword later
                   (snd (SudoProvider.getPassword now
                           (SudoProvider.setPassword newPassword setAt st))))
            = None).
Proof.
  intros newPassword setAt st Hp Ht now.
  assert (Iff : fst (SudoProvider.getPassword now
                       (SudoProvider.setPassword newPassword setAt st))
                = Some newPassword
                <-> (now - setAt < 15 * 60 * 1000)%Z).
  { rewrite getPassword_spec; simpl. split.
    - intros (_ & _ & t & E & _ & Hlt); inversion E; subst; exact Hlt.
    - intros Hlt; split; [reflexivity|]. split; [exact Hp|].
      exists setAt; auto. }
  split; [exact Iff|].
  intros Hge later. apply getPassword_none.
  destruct (fst (SudoProvider.getPassword now
                   (SudoProvider.setPassword newPassword setAt st)))
    as [q|] eqn:E; [|reflexivity].
  apply getPassword_spec in E; simpl in E.
  destruct E as (_ & _ & t & E & _ & Hlt); inversion E; subst; lia.
Qed.

Lemma context_password_round_trip_witness :
  fst (SudoProvider.getPassword 899999
         (SudoProvider.setPassword #"hunter2" 1 SudoProvider.initial))
  = Some #"hunter2".
Proof.
  apply (proj1 (context_password_round_trip #"hunter2" 1
                  SudoProvider.initial ltac:(discriminate)
                  ltac:(discriminate) 899999)).
  reflexivity.
Defined.

(** X25.  Submitting the password prompt fills both caches, the context's
    and the tool's, each stamped with its own clock: the context hands the
    value out while less than fifteen minutes have passed since its stamp,
    and the tool takes it for cached while less than fifteen minutes have
    passed since its own.  An empty value leaves both without a usable
    password, and the approved root commands are not touched. *)
Theorem submitted_password_reaches_both_caches :
  forall (value : jsstring) (t1 t2 : Z)
         (st : SudoProvider.State * ShellToolState),
    whitelist (snd (ConfirmationMessage.handleSubmit
                      passwordOnConfirm value t1 t2 st))
    = whitelist (snd st)
    /\ (value = [] ->
        forall now : Z,
          fst (SudoProvider.getPassword now
                 (fst (ConfirmationMessage.handleSubmit
                         passwordOnConfirm value t1 t2 st))) = None
          /\ isPasswordCached
               (snd (ConfirmationMessage.handleSubmit
                       passwordOnConfirm value t1 t2 st)) now = false)
    /\ (value <> [] -> t1 <> 0%Z -> t2 <> 0%Z ->
        forall now : Z,
          (fst (SudoProvider.getPassword now
                  (fst (ConfirmationMessage.handleSubmit
                          passwordOnConfirm value t1 t2 st)))
           = Some value
           <-> (now - t1 < 15 * 60 * 1000)%Z)
          /\ (isPasswordCached
                (snd (ConfirmationMessage.handleSubmit
                        passwordOnConfirm value t1 t2 st)) now = true
              <-> (now - t2 < 15 * 60 * 1000)%Z)).
Proof.
  intros value t1 t2 st; unfold ConfirmationMessage.handleSubmit.
  cbn [fst snd]. split; [reflexivity|]. split.
  - intros -> now; split; reflexivity.
  - intros Hv H1 H2 now; split.
    + rewrite getPassword_spec; simpl. split.
      * intros (_ & _ & t & E & _ & Hlt); inversion E; subst; exact Hlt.
      * intros Hlt; split; [reflexivity|]. split; [exact Hv|].
        exists t1; auto.
    + rewrite isPasswordCached_true; simpl. split.
      * intros (s & t & E1 & _ & E2 & _ & Hlt).
        inversion E2; subst; exact Hlt.
      * intros Hlt; exists value, t2; auto 10.
Qed.

Lemma submitted_password_reaches_both_caches_witness :
  isPasswordCached
    (snd (ConfirmationMessage.handleSubmit passwordOnConfirm #"hunter2"
            1000 1001 (SudoProvider.initial, emptyTool))) 2000 = true.
Proof.
  apply (proj2 (proj2 (proj2 (proj2 (submitted_password_reaches_both_caches
                                       #"hunter2" 1000 1001
                                       (SudoProvider.initial, emptyTool)))
                             ltac:(discriminate) ltac:(discriminate)
                             ltac:(discriminate) 2000%Z))).
  reflexivity.
Defined.

End CredentialFacts.

(** ** The processor that pipes the password *)

Module PipedFacts.

(** X26.  In the processor of [ui/hooks] the password does not reach the
    arguments of the shell: with any two non-empty passwords the same
    shell is spawned with the same arguments.  The password goes to the
    standard input of the child, followed by a line feed, and only for a
    sudo command on POSIX. *)
Theorem piped_password_not_in_argv :
  forall (h : ProcessorHost) (rawCommand pw pw' pwdFilePath : jsstring)
         (hasStdin : bool),
    pw <> [] -> pw' <> [] ->
    exists shell args,
      PipedProcessor.executeStart h rawCommand (Some pw) pwdFilePath
                                  hasStdin
      = PipedProcessor.Spawned shell args
          (if negb (isWindows h) && startsWith (trim rawCommand) #"sudo "
              && hasStdin
           then Some (pw ++ PipedProcessor.NL) else None)
      /\ PipedProcessor.executeStart h rawCommand (Some pw') pwdFilePath
                                     hasStdin
         = PipedProcessor.Spawned shell args
             (if negb (isWindows h) && startsWith (trim rawCommand) #"sudo "
                 && hasStdin
              then Some (pw' ++ PipedProcessor.NL) else None).
Proof.
  intros h rawCommand pw pw' pwdFilePath hasStdin Hp Hp'.
  unfold PipedProcessor.executeStart.
  destruct pw as [|c pw]; [contradiction|].
  destruct pw' as [|c' pw']; [contradiction|].
  cbn [truthy negb]. rewrite !andb_false_r.
  destruct (isWindows h); do 2 eexists; split; reflexivity.
Qed.

Lemma piped_password_not_in_argv_witness :
  exists shell args,
    PipedProcessor.executeStart posixProcessor #"sudo ls" (Some #"hunter2")
                                #"/tmp/p.tmp" true
    = PipedProcessor.Spawned shell args
        (Some (#"hunter2" ++ PipedProcessor.NL))
    /\ PipedProcessor.executeStart posixProcessor #"sudo ls" (Some #"swordfish")
                                   #"/tmp/p.tmp" true
       = PipedProcessor.Spawned shell args
           (Some (#"swordfish" ++ PipedProcessor.NL)).
Proof.
  exact (piped_password_not_in_argv posixProcessor #"sudo ls" #"hunter2"
           #"swordfish" #"/tmp/p.tmp" true
           ltac:(discriminate) ltac:(discriminate)).
Defined.

End PipedFacts.

(** ** Katharine configuration and the workflow engine *)

Module KatharineFacts.
Import Katharine.

(** X27.  Settings that give every field are read back as they are: no
    default overrides a value that is present, [false] and [0] included.
    Without a [katharine] object the configuration is the default one,
    and it is not enabled. *)
Theorem settings_override_every_default :
  (forall c : KatharineConfig, getKatharineConfig (Some (toSettings c)) = c)
  /\ getKatharineConfig None = DEFAULT_KATHARINE_CONFIG
  /\ isKatharineEnabled (Some (enabled (getKatharineConfig None))) = false.
Proof.
  split; [|split; reflexivity].
  intros [en [a b] [p cl ae] [xe wp cs] [pm sc es]]; reflexivity.
Qed.

End KatharineFacts.

Module WorkflowFacts.
Import WorkflowEngine.

Lemma mapGet_mapSet (V : Type) (k k' : jsstring) (v : V)
      (m : list (jsstring * V)) :
  mapGet k' (mapSet k v m)
  = if JS.eqb k k' then Some v else mapGet k' m.
Proof.
  induction m as [|[k0 v0] m IH]; simpl.
  - reflexivity.
  - destruct (JS.eqb k0 k) eqn:E0; simpl.
    + apply JSFacts.eqb_eq in E0; subst k0.
      destruct (JS.eqb k k'); reflexivity.
    + destruct (JS.eqb k0 k') eqn:E1.
      * apply JSFacts.eqb_eq in E1; subst k0.
        destruct (JS.eqb k k') eqn:E2; [|reflexivity].
        apply JSFacts.eqb_eq in E2; subst k'.
        rewrite JSFacts.eqb_refl in E0; discriminate.
      * exact IH.
Qed.

Lemma status_after_set (k k' : jsstring) (st : WorkflowStatus)
      (e : Engine) :
  getWorkflowStatus k' (setStatus k st e)
  = if JS.eqb k k' then st else getWorkflowStatus k' e.
Proof.
  unfold getWorkflowStatus, setStatus; simpl; rewrite mapGet_mapSet.
  destruct (JS.eqb k k'); reflexivity.
Qed.

Lemma eqb_dec (a b : jsstring) :
  JS.eqb a b = if list_eq_dec N.eq_dec a b then true else false.
Proof.
  destruct (list_eq_dec N.eq_dec a b) as [->|H].
  - apply JSFacts.eqb_refl.
  - destruct (JS.eqb a b) eqn:E; [|reflexivity].
    apply JSFacts.eqb_eq in E; contradiction.
Qed.

Lemma call_status (c : WorkflowCall) (e : Engine) (k : jsstring) :
  getWorkflowStatus k (callEngine e c)
  = match statusWritten c with
    | Some (k', st) =>
        if list_eq_dec N.eq_dec k' k then st else getWorkflowStatus k e
    | None => getWorkflowStatus k e
    end.
Proof.
  destruct c as [description stamp|w|w|i|i];
    unfold callEngine, statusWritten, executeWorkflow, executeTimer,
      pauseWorkflow, resumeWorkflow; cbn [snd]; try reflexivity;
    rewrite status_after_set, eqb_dec;
    destruct (list_eq_dec N.eq_dec _ k); reflexivity.
Qed.

Lemma call_definition (c : WorkflowCall) (e : Engine) (k : jsstring) :
  mapGet k (workflows (callEngine e c))
  = match definitionStored c with
    | Some (k', w) =>
        if list_eq_dec N.eq_dec k' k then Some w
        else mapGet k (workflows e)
    | None => mapGet k (workflows e)
    end.
Proof.
  destruct c as [description stamp|w|w|i|i]; try reflexivity.
  unfold callEngine, definitionStored, createWorkflow.
  cbn [snd workflows id].
  rewrite mapGet_mapSet, eqb_dec.
  destruct (list_eq_dec N.eq_dec _ k); reflexivity.
Qed.

(** X28.  Whatever calls are made on an engine, the status it reports for
    an id is the one written by the last call for that id
    ([executeWorkflow] writes running, its timer completed,
    [pauseWorkflow] paused, [resumeWorkflow] running), and the status it
    reported before when no call wrote one, which is pending on a new
    engine; so calls for other ids and [createWorkflow] leave it alone.
    The definition stored under an id is the one of the last
    [createWorkflow] that made that id, which replaces an earlier one; no
    other call touches the definitions.  [executeWorkflow] returns a result
    that says completed while the engine reports running, and the timer
    completes a workflow paused in between. *)
Theorem workflow_status_tracking :
  forall (calls : list WorkflowCall) (e : Engine) (k : jsstring),
    getWorkflowStatus k (callsEngine e calls)
    = lastPut statusWritten k calls (getWorkflowStatus k e)
    /\ mapGet k (workflows (callsEngine e calls))
       = lastPut (fun c => match definitionStored c with
                           | Some (k', w) => Some (k', Some w)
                           | None => None
                           end)
                 k calls (mapGet k (workflows e))
    /\ getWorkflowStatus k empty = Pending
    /\ ((forall c st, In c calls -> statusWritten c <> Some (k, st)) ->
        getWorkflowStatus k (callsEngine e calls) = getWorkflowStatus k e)
    /\ (forall workflow : WorkflowDefinition,
           status (fst (executeWorkflow workflow e)) = Completed
           /\ getWorkflowStatus (id workflow)
                (callsEngine e [CallExecute workflow]) = Running
           /\ getWorkflowStatus (id workflow)
                (callsEngine e [CallExecute workflow;
                                CallPause (id workflow);
                                CallTimer workflow]) = Completed).
Proof.
  intros calls e k.
  assert (St : forall k calls e,
    getWorkflowStatus k (callsEngine e calls)
    = lastPut statusWritten k calls (getWorkflowStatus k e)).
  { clear calls e k; intros k; induction calls as [|c calls IH]; intros e;
      [reflexivity|].
    change (callsEngine e (c :: calls))
      with (callsEngine (callEngine e c) calls).
    rewrite IH, call_status; cbn [lastPut].
    destruct (statusWritten c) as [[k' st]|]; reflexivity. }
  assert (Df : forall calls e,
    mapGet k (workflows (callsEngine e calls))
    = lastPut (fun c => match definitionStored c with
                        | Some (k', w) => Some (k', Some w)
                        | None => None
                        end)
              k calls (mapGet k (workflows e))).
  { clear calls e St; induction calls as [|c calls IH]; intros e;
      [reflexivity|].
    change (callsEngine e (c :: calls))
      with (callsEngine (callEngine e c) calls).
    rewrite IH, call_definition; cbn [lastPut].
    destruct (definitionStored c) as [[k' w]|]; reflexivity. }
  split; [apply St|]. split; [apply Df|]. split; [reflexivity|]. split.
  - intros Hn. rewrite St. generalize (getWorkflowStatus k e).
    induction calls as [|c calls IH]; intros st0; [reflexivity|].
    cbn [lastPut].
    assert (E : match statusWritten c with
                | Some (k', v) =>
                    if list_eq_dec N.eq_dec k' k then v else st0
                | None => st0
                end = st0).
    { destruct (statusWritten c) as [[k' st]|] eqn:W; [|reflexivity].
      destruct (list_eq_dec N.eq_dec k' k) as [->|]; [|reflexivity].
      exfalso; exact (Hn c st (or_introl eq_refl) W). }
    rewrite E. apply IH.
    intros c' st Hin; apply Hn; right; exact Hin.
  - intros workflow. split; [reflexivity|].
    rewrite !St; cbn [lastPut statusWritten].
    destruct (list_eq_dec N.eq_dec (id workflow) (id workflow));
      [split; reflexivity | contradiction].
Qed.

Lemma workflow_status_tracking_witness :
  getWorkflowStatus #"workflow-2"
    (callsEngine (pauseWorkflow #"workflow-2" empty)
       [CallCreate #"tidy" #"1";
        CallExecute (fst (createWorkflow #"tidy" #"1" empty));
        CallPause #"workflow-1"; CallResume #"workflow-1";
        CallTimer (fst (createWorkflow #"tidy" #"1" empty))])
  = Paused.
Proof.
  apply (proj1 (proj2 (proj2 (proj2
           (workflow_status_tracking
              [CallCreate #"tidy" #"1";
               CallExecute (fst (createWorkflow #"tidy" #"1" empty));
               CallPause #"workflow-1"; CallResume #"workflow-1";
               CallTimer (fst (createWorkflow #"tidy" #"1" empty))]
              (pauseWorkflow #"workflow-2" empty) #"workflow-2"))))).
  intros c st [<-|[<-|[<-|[<-|[<-|[]]]]]]; simpl; intros H;
    inversion H.
Defined.

End WorkflowFacts.
